(** * Liso HTTP server core: buffers, pipes and the request parser

    A shallow embedding of [io.c], [http_parser.c] and [request_handler.c],
    followed by the properties of the natural-language specification.

    Conventions of the embedding.
    - A C [int] is a [Z].  Signed overflow is undefined behaviour in C, so the
      arithmetic on [int]s is the arithmetic of [Z] as long as the values stay
      within [int]; a theorem about code that adds to a size ([full], the
      growth of the buffer in [io_recv]) assumes sizes for which they do, and
      concludes that the capacity is still an [int].  The one conversion that
      C defines by wrap-around and that the code relies on, [int] to
      [size_t] in the length argument of [recv]/[send], is written out
      ([to_size_t]).
    - A [char] is an [ascii]; a NUL-terminated C string is the [list ascii]
      of the characters before the terminator.
    - A heap block is the [list ascii] of its bytes; a pointer into a block is
      the block together with a [Z] offset.
    - System calls act on an explicit state (socket, file, descriptor table)
      that is threaded through the functions calling them.
    - Calls to the logger ([log_msg], [log_error]) leave the state untouched
      and are not represented. *)

From Stdlib Require Import ZArith Ascii String List Lia Bool Arith DecimalString.
From Equations Require Import Equations.
Import ListNotations.

Local Open Scope Z_scope.

(** ** Memory blocks and C strings *)

Definition bytes := list ascii.

(** [literal "GET"] is the C string literal ["GET"]. *)
Definition literal (s : string) : bytes := list_ascii_of_string s.

(** [*(m + p)]: reading past the characters of a string yields its NUL. *)
Definition deref (m : bytes) (p : Z) : ascii := nth (Z.to_nat p) m zero.

(** The [len] bytes of block [m] from offset [off]. *)
Definition sub (m : bytes) (off len : Z) : bytes :=
  firstn (Z.to_nat len) (skipn (Z.to_nat off) m).

(** Block [m] after [src] has been copied to offset [off]. *)
Definition store (m : bytes) (off : Z) (src : bytes) : bytes :=
  firstn (Z.to_nat off) m ++ src ++ skipn (Z.to_nat off + length src) m.

(** [memmove(m + dst, m + src, n)]. *)
Definition memmove (m : bytes) (dst src n : Z) : bytes :=
  store m dst (sub m src n).

(** [realloc(m, n)]: the common prefix is kept, fresh bytes are arbitrary
    (zero here; no property below depends on them). *)
Definition realloc (m : bytes) (n : Z) : bytes :=
  firstn (Z.to_nat n) m ++ repeat zero (Z.to_nat n - length m).

(** Conversion of an [int] to [size_t] (64 bits). *)
Definition to_size_t (n : Z) : Z := n mod 2 ^ 64.

(** Remembering the equation of a scrutinee in [Equations] definitions. *)
Definition inspect {A : Type} (a : A) : {b : A | a = b} := exist _ a eq_refl.

(** ** Sockets and files: the state behind the system calls *)

Inductive errno_t := ENONE | EAGAIN | EWOULDBLOCK | EOTHER.

Definition errno_eqb (a b : errno_t) : bool :=
  match a, b with
  | ENONE, ENONE | EAGAIN, EAGAIN | EWOULDBLOCK, EWOULDBLOCK | EOTHER, EOTHER => true
  | _, _ => false
  end.

(** What [recv] reports once no segment is queued. *)
Inductive rx_end_t := RxClosed | RxWouldBlock | RxError.

(** What one call of [send] meets: room for some bytes in the kernel's queue,
    a full queue, or a failure. *)
Inductive tx_event := TxAccept (room : nat) | TxWouldBlock | TxError.

Record sock_t := mk_sock {
  rx : list bytes;        (* segments queued for reading, oldest first *)
  rx_end : rx_end_t;
  tx : list tx_event;     (* what the successive calls of send will meet *)
  sent : bytes            (* everything written to the peer so far *)
}.

Definition rx_pending (s : sock_t) : nat :=
  fold_right (fun seg n => (length seg + n)%nat) 0%nat (rx s).

(** [recv(sock, dst, len, 0)]: result, [errno], the bytes written to [dst]. *)
Definition recv (s : sock_t) (len : Z) : Z * errno_t * bytes * sock_t :=
  match rx s with
  | [] =>
      match rx_end s with
      | RxClosed => (0, ENONE, [], s)
      | RxWouldBlock => (-1, EAGAIN, [], s)
      | RxError => (-1, EOTHER, [], s)
      end
  | seg :: rest =>
      let k := Z.min (to_size_t len) (Z.of_nat (length seg)) in
      let rest' := if k <? Z.of_nat (length seg)
                   then skipn (Z.to_nat k) seg :: rest else rest in
      (k, ENONE, firstn (Z.to_nat k) seg,
       mk_sock rest' (rx_end s) (tx s) (sent s))
  end.

(** [send(sock, src, len, 0)] where [src] holds [data]: result, [errno]. *)
Definition send (s : sock_t) (data : bytes) (len : Z) : Z * errno_t * sock_t :=
  match tx s with
  | [] => (-1, EAGAIN, s)
  | TxAccept room :: rest =>
      let k := Z.min (to_size_t len) (Z.of_nat room) in
      (k, ENONE, mk_sock (rx s) (rx_end s) rest (sent s ++ firstn (Z.to_nat k) data))
  | TxWouldBlock :: rest => (-1, EAGAIN, mk_sock (rx s) (rx_end s) rest (sent s))
  | TxError :: rest => (-1, EOTHER, mk_sock (rx s) (rx_end s) rest (sent s))
  end.

(** A regular file open for reading: the bytes not read yet, and whether
    the device fails. *)
Record file_t := mk_file {
  content : bytes;
  io_error : bool
}.

Inductive syscall :=
| SysRead (fd count ret : Z)
| SysSend (len ret : Z)
| SysClose (fd : Z).

(** What [io_pipe] acts on: the file open on the pipe's descriptor, the
    destination socket, the descriptors closed so far, the read set of the
    [select] context, and the system calls made, oldest first. *)
Record pipe_env := mk_env {
  src : file_t;
  dst : sock_t;
  closed : list Z;
  read_fds_cpy : list Z;
  trace : list syscall
}.

Definition is_closed (w : pipe_env) (fd : Z) : bool := existsb (Z.eqb fd) (closed w).

(** [read(fd, dst, count)] on the source file. *)
Definition read (w : pipe_env) (fd count : Z) : Z * bytes * pipe_env :=
  if is_closed w fd || io_error (src w)
  then (-1, [], mk_env (src w) (dst w) (closed w) (read_fds_cpy w)
                       (trace w ++ [SysRead fd count (-1)]))
  else
    let data := firstn (Z.to_nat count) (content (src w)) in
    let r := Z.of_nat (length data) in
    (r, data,
     mk_env (mk_file (skipn (Z.to_nat count) (content (src w))) false)
            (dst w) (closed w) (read_fds_cpy w)
            (trace w ++ [SysRead fd count r])).

Definition pipe_send (w : pipe_env) (data : bytes) (len : Z) : Z * pipe_env :=
  let '(n, _, s') := send (dst w) data len in
  (n, mk_env (src w) s' (closed w) (read_fds_cpy w) (trace w ++ [SysSend len n])).

Definition close (w : pipe_env) (fd : Z) : pipe_env :=
  mk_env (src w) (dst w) (fd :: closed w) (read_fds_cpy w) (trace w ++ [SysClose fd]).

Definition remove_read_fd (w : pipe_env) (fd : Z) : pipe_env :=
  mk_env (src w) (dst w) (closed w)
         (filter (fun x => negb (x =? fd)) (read_fds_cpy w)) (trace w).

(** ** io.c: the growable buffer and the pipe *)

(** [pipe_t]; its fields [buf], [offset] and [datasize] carry a prefix here,
    [buf_t] having fields of the same names. *)
Record pipe_t := mk_pipe {
  from_fd : Z;
  p_buf : bytes;
  p_offset : Z;
  p_datasize : Z
}.

Record buf_t := mk_buf {
  buf : bytes;
  bufsize : Z;
  datasize : Z;
  pos : Z
}.

Section Io.

(** [BUFSIZE] is defined in [io.h], which is not part of the sources. *)
Variable BUFSIZE : Z.

Definition full (bp : buf_t) : bool :=
  datasize bp + Z.shiftr BUFSIZE 1 >? bufsize bp.

Definition empty (bp : buf_t) : bool :=
  let freespace := bufsize bp - datasize bp + pos bp in
  freespace >? BUFSIZE.

Definition io_shrink (bp : buf_t) : buf_t :=
  let freespace := bufsize bp - datasize bp + pos bp in
  let datasize' := datasize bp - pos bp in
  let buf' := memmove (buf bp) 0 (pos bp) datasize' in
  let bufsize' := bufsize bp - Z.shiftr freespace 1 in
  mk_buf (realloc buf' bufsize') bufsize' datasize' 0.

(** The body of the [while] loop of [io_recv], after a read of [nbytes]. *)
Definition recv_body (bp : buf_t) (nbytes : Z) (data : bytes) : buf_t :=
  let bp1 := mk_buf (store (buf bp) (datasize bp) data) (bufsize bp)
                    (datasize bp + nbytes) (pos bp) in
  if full bp1
  then let bufsize' := bufsize bp1 + Z.shiftr (bufsize bp1) 1 in
       mk_buf (realloc (buf bp1) bufsize') bufsize' (datasize bp1) (pos bp1)
  else bp1.

Equations? recv_loop (s : sock_t) (bp : buf_t) : Z * errno_t * buf_t * sock_t
  by wf (rx_pending s) lt :=
  recv_loop s bp with inspect (recv s (bufsize bp - datasize bp - 1)) => {
    | exist _ (nbytes, err, data, s') Heq with Z_gt_le_dec nbytes 0 => {
        | left _ => recv_loop s' (recv_body bp nbytes data)
        | right _ => (nbytes, err, bp, s') } }.
Proof.
  unfold recv in Heq. unfold rx_pending.
  destruct (rx s) as [|seg rest] eqn:Hrx.
  - destruct (rx_end s); inversion Heq; subst; lia.
  - inversion Heq; subst; clear Heq. cbn [rx fold_right].
    set (k := Z.min _ _) in *.
    destruct (Z.ltb_spec k (Z.of_nat (length seg))); cbn [fold_right].
    + rewrite length_skipn. lia.
    + lia.
Qed.

Definition io_recv (sock : sock_t) (bp : buf_t) : Z * buf_t * sock_t :=
  let '(nbytes, err, bp', sock') := recv_loop sock bp in
  if nbytes =? 0 then (0, bp', sock')
  else if (nbytes <? 0) && negb (errno_eqb err EAGAIN) && negb (errno_eqb err EWOULDBLOCK)
       then (nbytes, bp', sock')
       else (datasize bp', bp', sock').

(** The [while] loop of [io_send]: [inl] is the early [return -1], [inr] the
    normal exit with [bytes_sent]. *)
Equations? send_loop (s : sock_t) (bp : buf_t) (bytes_sent : Z)
  : (Z + Z) * buf_t * sock_t by wf (length (tx s)) lt :=
  send_loop s bp bytes_sent with Z_lt_ge_dec (pos bp) (datasize bp) => {
    | right _ => (inr bytes_sent, bp, s)
    | left _ with inspect (send s (sub (buf bp) (pos bp) (datasize bp - pos bp))
                                (datasize bp - pos bp)) => {
        | exist _ (nbytes, err, s') Heq with Z_lt_ge_dec nbytes 0 => {
            | left _ =>
                if errno_eqb err EAGAIN || errno_eqb err EWOULDBLOCK
                then (inr bytes_sent, bp, s')
                else (inl (-1), bp, s')
            | right _ =>
                send_loop s' (mk_buf (buf bp) (bufsize bp) (datasize bp) (pos bp + nbytes))
                          (bytes_sent + nbytes) } } }.
Proof.
  unfold send in Heq.
  destruct (tx s) as [|[room| |] rest] eqn:Htx; inversion Heq; subst; cbn [tx length]; lia.
Qed.

Definition io_send (sock : sock_t) (bp : buf_t) : Z * buf_t * sock_t :=
  match send_loop sock bp 0 with
  | (inl r, bp', sock') => (r, bp', sock')
  | (inr bytes_sent, bp', sock') =>
      (bytes_sent, if empty bp' then io_shrink bp' else bp', sock')
  end.

Definition init_buf : buf_t := mk_buf (repeat zero (Z.to_nat BUFSIZE)) BUFSIZE 0 0.

(** *** The file-to-socket pipe *)

Definition io_pipe (w : pipe_env) (pp : pipe_t) : Z * pipe_t * pipe_env :=
  let send_rest (w : pipe_env) (pp : pipe_t) :=
    let '(n, w1) := pipe_send w (sub (p_buf pp) (p_offset pp) (p_datasize pp - p_offset pp))
                              (p_datasize pp - p_offset pp) in
    if n =? -1
    then (-1, pp, remove_read_fd (close w1 (from_fd pp)) (from_fd pp))
    else (0, mk_pipe (from_fd pp) (p_buf pp) (p_offset pp + n) (p_datasize pp), w1) in
  if p_datasize pp <=? p_offset pp
  then
    let '(r, data, w1) := read w (from_fd pp) BUFSIZE in
    let pp1 := mk_pipe (from_fd pp) (store (p_buf pp) 0 data) (p_offset pp) r in
    if r =? -1
    then (-1, pp1, remove_read_fd (close w1 (from_fd pp)) (from_fd pp))
    else if r =? 0
    then (1, pp1, remove_read_fd (close w1 (from_fd pp)) (from_fd pp))
    else send_rest w1 (mk_pipe (from_fd pp1) (p_buf pp1) 0 (p_datasize pp1))
  else send_rest w pp.

(** [init_pipe] leaves [from_fd] to its caller. *)
Definition init_pipe (fd : Z) : pipe_t :=
  mk_pipe fd (repeat zero (Z.to_nat BUFSIZE)) 0 0.

(** The caller of [io_pipe] steps the pipe on every writability event until a
    step returns non-zero.  [pipe_run n] performs at most [n] steps and lists
    what they returned. *)
Fixpoint pipe_run (fuel : nat) (w : pipe_env) (pp : pipe_t) : list Z * pipe_t * pipe_env :=
  match fuel with
  | O => ([], pp, w)
  | S fuel' =>
      let '(r, pp1, w1) := io_pipe w pp in
      if r =? 0
      then let '(rs, pp2, w2) := pipe_run fuel' w1 pp1 in (r :: rs, pp2, w2)
      else ([r], pp1, w1)
  end.

End Io.

(** ** Vocabulary of the buffer properties *)

(** The capacity invariant of the specification. *)
Definition buf_inv (bp : buf_t) : Prop :=
  0 <= pos bp /\ pos bp <= datasize bp /\ datasize bp <= bufsize bp.

(** [bufsize] is the size of the block [buf] points to. *)
Definition allocated (bp : buf_t) : Prop :=
  Z.of_nat (length (buf bp)) = bufsize bp.

(** The bytes received and not consumed yet, [[pos, datasize)]. *)
Definition unread (bp : buf_t) : bytes :=
  sub (buf bp) (pos bp) (datasize bp - pos bp).

(** The largest [int]. *)
Definition INT_MAX : Z := 2147483647.

(** A call of [io_recv] whose sizes stay within [int].  The capacity is an
    [int]; the bytes the buffer holds and the bytes queued on the socket,
    [d] in all, are few enough for every sum the loop computes:
    [datasize + (BUFSIZE >> 1)] is at most [d + BUFSIZE], and the buffer
    grows only from a capacity below [d + BUFSIZE], to at most 1.5 times
    that. *)
Definition recv_within_int (BUFSIZE : Z) (s : sock_t) (bp : buf_t) : Prop :=
  0 <= BUFSIZE /\ 0 <= datasize bp /\ bufsize bp <= INT_MAX /\
  3 * (datasize bp + Z.of_nat (rx_pending s) + BUFSIZE) <= 2 * INT_MAX.

(** One pass of the loop body of [io_recv], after a read of [n] bytes, whose
    sums stay within [int]: [datasize + n], [datasize + (BUFSIZE >> 1)] in
    [full], and [bufsize + (bufsize >> 1)]. *)
Definition recv_body_within_int (BUFSIZE : Z) (bp : buf_t) (n : Z) : Prop :=
  0 <= BUFSIZE /\ 0 <= datasize bp /\ 0 <= bufsize bp /\
  datasize bp + n + BUFSIZE / 2 <= INT_MAX /\
  bufsize bp + bufsize bp / 2 <= INT_MAX.

(** ** http_parser.c: request line and header lines *)

Definition code (c : ascii) : Z := Z.of_nat (nat_of_ascii c).

(** [isspace] in the C locale: space, and the controls 9 to 13. *)
Definition isspace (c : ascii) : bool :=
  (code c =? 32) || ((9 <=? code c) && (code c <=? 13)).

Definition tolower (c : ascii) : ascii :=
  if (65 <=? code c) && (code c <=? 90)
  then ascii_of_nat (nat_of_ascii c + 32) else c.

Definition strlen (s : bytes) : Z := Z.of_nat (length s).

(** [strchr(s, c)] as the offset of the first [c] in [s], [None] for NULL. *)
Fixpoint strchr (s : bytes) (c : ascii) : option Z :=
  match s with
  | [] => None
  | x :: s' => if Ascii.eqb x c then Some 0
               else match strchr s' c with Some i => Some (i + 1) | None => None end
  end.

(** Modelled from the spec: [strcicmp], the comparison the parser calls, is
    defined outside the given sources; the specification calls every use of
    it a case-insensitive match.  It is taken as the usual loop: the
    difference of the first pair of characters that differ after [tolower],
    0 when there is none. *)
Fixpoint strcicmp (a b : bytes) : Z :=
  match a, b with
  | [], [] => 0
  | [], y :: _ => 0 - code (tolower y)
  | x :: _, [] => code (tolower x)
  | x :: a', y :: b' =>
      let d := code (tolower x) - code (tolower y) in
      if d =? 0 then strcicmp a' b' else d
  end.

(** What a [%s] conversion of [sscanf] does: skip white space, then take the
    longest run of characters that are not white space. *)
Fixpoint skip_ws (l : bytes) : bytes :=
  match l with
  | c :: l' => if isspace c then skip_ws l' else l
  | [] => []
  end.

Fixpoint scan_word (l : bytes) : bytes * bytes :=
  match l with
  | c :: l' => if isspace c then ([], l)
               else let '(w, r) := scan_word l' in (c :: w, r)
  | [] => ([], [])
  end.

(** One [%s]: [None] when the input ends before a word starts. *)
Definition scan_s (l : bytes) : option (bytes * bytes) :=
  match skip_ws l with
  | [] => None
  | l' => Some (scan_word l')
  end.

(** [sscanf(line, "%s %s %s", a, b, c)]: the value returned ([EOF] is -1)
    and what was stored through each of the three pointers, if anything. *)
Definition sscanf_3s (line : bytes) : Z * option bytes * option bytes * option bytes :=
  match scan_s line with
  | None => (-1, None, None, None)
  | Some (a, r1) =>
      match scan_s r1 with
      | None => (1, Some a, None, None)
      | Some (b, r2) =>
          match scan_s r2 with
          | None => (2, Some a, Some b, None)
          | Some (c, _) => (3, Some a, Some b, Some c)
          end
      end
  end.

Record http_header_t := mk_header {
  key : bytes;
  val : bytes
}.

(** The fields of [http_request_t] the sources use.  [headers] is the linked
    list from its head; [body] is an offset into the input buffer, [None]
    for NULL. *)
Record http_request_t := mk_request {
  method : bytes;
  uri : bytes;
  headers : list http_header_t;
  content_len : Z;
  body : option Z
}.

Definition set_method (req : http_request_t) (m : bytes) : http_request_t :=
  mk_request m (uri req) (headers req) (content_len req) (body req).

Definition set_uri (req : http_request_t) (u : bytes) : http_request_t :=
  mk_request (method req) u (headers req) (content_len req) (body req).

Definition set_headers (req : http_request_t) (h : list http_header_t) : http_request_t :=
  mk_request (method req) (uri req) h (content_len req) (body req).

Definition set_content_len (req : http_request_t) (n : Z) : http_request_t :=
  mk_request (method req) (uri req) (headers req) n (body req).

Definition set_body (req : http_request_t) (b : option Z) : http_request_t :=
  mk_request (method req) (uri req) (headers req) (content_len req) b.

(** Status codes. *)
Definition OK : Z := 200.
Definition BAD_REQUEST : Z := 400.
Definition NOT_FOUND : Z := 404.
Definition METHOD_NOT_ALLOWED : Z := 405.
Definition LENGTH_REQUIRED : Z := 411.
Definition INTERNAL_SERVER_ERROR : Z := 500.
Definition NOT_IMPLEMENTED : Z := 501.
Definition HTTP_VERSION_NOT_SUPPORTED : Z := 505.

Definition store_opt (o : option bytes) (f : http_request_t -> bytes -> http_request_t)
  (req : http_request_t) : http_request_t :=
  match o with Some v => f req v | None => req end.

Section RequestLine.

(** [http_version] is a global of [config.h], which is not part of the
    sources. *)
Variable http_version : bytes.

(** The fields [method] and [uri] are taken to be large enough for the
    words [sscanf] stores in them; [version] is a local array. *)
Definition parse_request_line (req : http_request_t) (line : bytes) : Z * http_request_t :=
  let '(n, m, u, v) := sscanf_3s line in
  let req := store_opt u set_uri (store_opt m set_method req) in
  let version := match v with Some v => v | None => [] end in
  if n <? 3 then (BAD_REQUEST, req)
  else if negb (strcicmp (method req) (literal "GET") =? 0) &&
          negb (strcicmp (method req) (literal "HEAD") =? 0) &&
          negb (strcicmp (method req) (literal "POST") =? 0)
  then (METHOD_NOT_ALLOWED, req)
  else if negb (strcicmp version http_version =? 0)
  then (HTTP_VERSION_NOT_SUPPORTED, req)
  else (0, req).

End RequestLine.

Definition is_sp (c : ascii) : bool := Ascii.eqb c " ".

(** The loop of [copy_trimmed_string] on the pointers [hd] and [tl] into the
    string [s]. *)
Equations? trim_loop (s : bytes) (hd tl : Z) : Z * Z by wf (Z.to_nat (tl - hd + 1)) lt :=
  trim_loop s hd tl with Z_le_gt_dec hd tl => {
    | right _ => (hd, tl)
    | left _ with is_sp (deref s hd), is_sp (deref s tl) => {
        | false, false => (hd, tl)
        | true, false => trim_loop s (hd + 1) tl
        | false, true => trim_loop s hd (tl - 1)
        | true, true => trim_loop s (hd + 1) (tl - 1) } }.
Proof. all: lia. Qed.

(** [None] is NULL. *)
Definition copy_trimmed_string (s : bytes) (hd tl : Z) : option bytes :=
  let '(hd, tl) := trim_loop s hd tl in
  if hd >? tl then None
  else Some (sub s hd (tl - hd + 1)).

Definition parse_header (req : http_request_t) (line : bytes) : Z * http_request_t :=
  match strchr line ":" with
  | None => (-1, req)
  | Some v =>
      if Ascii.eqb (deref line (v + 1)) zero || (v =? 0) then (-1, req)
      else
        match copy_trimmed_string line 0 (v - 1) with
        | None => (-1, req)
        | Some k =>
            match copy_trimmed_string line (v + 1) (strlen line - 1) with
            | None => (-1, req)
            | Some x => (0, set_headers req (mk_header k x :: headers req))
            end
        end
  end.

(** The header loop of [http_parse] hands the successive header lines to
    [parse_header]; [parse_headers] is that succession, stopped by the first
    line that is rejected. *)
Fixpoint parse_headers (req : http_request_t) (lines : list bytes) : Z * http_request_t :=
  match lines with
  | [] => (0, req)
  | line :: rest =>
      let '(ret, req') := parse_header req line in
      if ret =? -1 then (-1, req') else parse_headers req' rest
  end.

Definition bytes_eqb (a b : bytes) : bool :=
  if list_eq_dec ascii_dec a b then true else false.

(** Modelled from the spec: [get_request_header] is defined outside the given
    sources.  The specification has header keys case-sensitive and lookup
    return the first match in the list; a missing key gives NULL ([None]). *)
Fixpoint find_header (hs : list http_header_t) (k : bytes) : option bytes :=
  match hs with
  | [] => None
  | h :: hs' => if bytes_eqb (key h) k then Some (val h) else find_header hs' k
  end.

Definition get_request_header (req : http_request_t) (k : bytes) : option bytes :=
  find_header (headers req) k.

(** ** The connection, and what [http_parser.c] calls from other files

    [http_client.h], [http_client.c], [config.h] and [server.c] are not part
    of the sources.  The connection record has the fields the sources use;
    the functions of the missing files are modelled from the specification,
    each one under a comment that says so. *)

Inductive client_status := C_IDLE | C_PIPING.

Inductive handler := H_GET | H_HEAD | H_POST.

Record http_client_t := mk_client {
  req : option http_request_t;     (* the request in flight, [None] for NULL *)
  c_in : buf_t;                    (* [client->in] *)
  c_out : bytes;                   (* what has been written to [client->out] *)
  pipe : option pipe_t;
  status : client_status;
  c_closed : list Z;               (* descriptors the handlers have closed *)
  handled : list (handler * http_request_t)
                                   (* ghost: the handlers entered so far, each
                                      with the request it was entered on *)
}.

Definition set_req (c : http_client_t) (r : option http_request_t) : http_client_t :=
  mk_client r (c_in c) (c_out c) (pipe c) (status c) (c_closed c) (handled c).

Definition set_in (c : http_client_t) (b : buf_t) : http_client_t :=
  mk_client (req c) b (c_out c) (pipe c) (status c) (c_closed c) (handled c).

Definition set_out (c : http_client_t) (o : bytes) : http_client_t :=
  mk_client (req c) (c_in c) o (pipe c) (status c) (c_closed c) (handled c).

Definition set_pipe (c : http_client_t) (p : option pipe_t) : http_client_t :=
  mk_client (req c) (c_in c) (c_out c) p (status c) (c_closed c) (handled c).

Definition set_status (c : http_client_t) (s : client_status) : http_client_t :=
  mk_client (req c) (c_in c) (c_out c) (pipe c) s (c_closed c) (handled c).

Definition close_fd (c : http_client_t) (fd : Z) : http_client_t :=
  mk_client (req c) (c_in c) (c_out c) (pipe c) (status c) (fd :: c_closed c) (handled c).

Definition enter (c : http_client_t) (h : handler) : http_client_t :=
  mk_client (req c) (c_in c) (c_out c) (pipe c) (status c) (c_closed c)
            (handled c ++ match req c with Some r => [(h, r)] | None => [] end).

Definition set_pos (b : buf_t) (p : Z) : buf_t :=
  mk_buf (buf b) (bufsize b) (datasize b) p.

(** The bytes received so far, [[0, datasize)]. *)
Definition valid (b : buf_t) : bytes := firstn (Z.to_nat (datasize b)) (buf b).

(** Configuration: constants and globals of the missing headers. *)
Record config := mk_config {
  BUFSIZE : Z;
  MAXBUF : Z;
  http_version : bytes;
  www_folder : bytes
}.

(** The operating system as the handlers see it: each call is a function of
    its arguments. *)
Record os_t := mk_os {
  os_realpath : bytes -> option bytes;
  os_stat : bytes -> option (bool * Z);     (* [S_ISDIR], [st_mtime] *)
  os_open : bytes -> option Z;
  os_lseek_end : Z -> option Z;             (* [lseek(fd, 0, SEEK_END)] *)
  os_lseek_set : Z -> bool;                 (* [lseek(fd, 0, SEEK_SET) != -1] *)
  os_time : Z;                              (* [time(NULL)] *)
  os_date : Z -> bytes;                     (* [strftime] of [gmtime] *)
  os_itoa : Z -> bytes                      (* [sprintf("%d")] *)
}.

Definition LF : ascii := "010"%char.
Definition CR : ascii := "013"%char.
Definition CRLF : bytes := [CR; LF].

Fixpoint find_lf (l : bytes) : option nat :=
  match l with
  | [] => None
  | x :: l' => if Ascii.eqb x LF then Some O
               else match find_lf l' with Some i => Some (S i) | None => None end
  end.

(** A line without the carriage return that may precede its line feed. *)
Definition strip_cr (l : bytes) : bytes :=
  match rev l with
  | x :: r => if Ascii.eqb x CR then rev r else l
  | [] => l
  end.

(** The C string an array of characters holds: what precedes the first NUL. *)
Fixpoint c_str (l : bytes) : bytes :=
  match l with
  | [] => []
  | x :: l' => if Ascii.eqb x zero then [] else x :: c_str l'
  end.

Fixpoint all_digits (s : bytes) : bool :=
  match s with
  | [] => true
  | x :: s' => negb ((code x <? 48) || (code x >? 57)) && all_digits s'
  end.

(** [atoi] on a string of digits. *)
Definition atoi (s : bytes) : Z :=
  fold_left (fun n x => 10 * n + (code x - 48)) s 0.

Definition reason_phrase (status_code : Z) : bytes :=
  if status_code =? 200 then literal "OK"
  else if status_code =? 400 then literal "Bad Request"
  else if status_code =? 404 then literal "Not Found"
  else if status_code =? 405 then literal "Method Not Allowed"
  else if status_code =? 411 then literal "Length Required"
  else if status_code =? 500 then literal "Internal Server Error"
  else if status_code =? 501 then literal "Not Implemented"
  else if status_code =? 505 then literal "HTTP Version Not Supported"
  else [].

Inductive loop_exit :=
| LReturn (r : Z) (c : http_client_t)     (* a [return] inside the loop *)
| LDone (c : http_client_t).              (* the loop is left *)

Section Http.

Variable cfg : config.
Variable os : os_t.

(** Modelled from the spec: [client_readline] is defined outside the given
    sources.  The specification has the parser read one line at a time from
    the input buffer, lines ending in CRLF or LF, and has control return to
    the caller, the state preserved, when no complete line is available;
    [http_parse] takes a negative result for a line longer than [MAXBUF].
    So: without a line feed among the unread bytes the result is 0, the line
    is empty and nothing is consumed; a line that fits is copied without its
    terminator and consumed with it, the result being the number of bytes
    consumed; a line that does not fit yields -1 with the part that fits,
    and stays in the buffer. *)
Definition client_readline (c : http_client_t) : Z * bytes * http_client_t :=
  let data := skipn (Z.to_nat (pos (c_in c))) (valid (c_in c)) in
  match find_lf data with
  | None => (0, [], c)
  | Some i =>
      let raw := strip_cr (firstn i data) in
      if MAXBUF cfg <=? Z.of_nat (length raw)
      then (-1, c_str (firstn (Z.to_nat (MAXBUF cfg - 1)) raw), c)
      else (Z.of_nat i + 1, c_str raw,
            set_in c (set_pos (c_in c) (pos (c_in c) + (Z.of_nat i + 1))))
  end.

(** Modelled from the spec: [new_request] is defined outside the given
    sources; a request starts with nothing parsed. *)
Definition new_request : http_request_t := mk_request [] [] [] 0 None.

(** Modelled from the spec: [client_write_string] is defined outside the
    given sources; it hands bytes to the output buffer. *)
Definition client_write_string (c : http_client_t) (s : bytes) : http_client_t :=
  set_out c (c_out c ++ s).

(** Modelled from the spec: [send_response_line] is defined outside the given
    sources; the status line is VERSION SP CODE SP REASON. *)
Definition send_response_line (c : http_client_t) (status_code : Z) : http_client_t :=
  client_write_string c
    (http_version cfg ++ literal " " ++ os_itoa os status_code ++ literal " "
       ++ reason_phrase status_code ++ CRLF).

(** Modelled from the spec: [send_header] is defined outside the given
    sources; a header line is [Key: Value]. *)
Definition send_header (c : http_client_t) (k v : bytes) : http_client_t :=
  client_write_string c (k ++ literal ": " ++ v ++ CRLF).

(** Modelled from the spec: [connection_close] is defined outside the given
    sources; the request declares [Connection: close], the value matched
    without regard to case. *)
Definition connection_close (r : http_request_t) : bool :=
  match get_request_header r (literal "Connection") with
  | Some v => strcicmp v (literal "close") =? 0
  | None => false
  end.

(** Modelled from the spec: [end_request] is defined outside the given
    sources.  The specification has a failed request answered by an error
    response (status line and minimal headers) and the connection marked for
    closure; [http_parse] returns -1 for a connection to close.  The request
    is released. *)
Definition end_request (c : http_client_t) (status_code : Z) : Z * http_client_t :=
  let c := send_response_line c status_code in
  let c := send_header c (literal "Connection") (literal "close") in
  let c := client_write_string c CRLF in
  (-1, set_req c None).

(** *** request_handler.c *)

(** The loop of [get_mimetype]: [ext] walks back from offset [i]. *)
Fixpoint mimetype_scan (path : bytes) (i : nat) : nat :=
  match i with
  | O => O
  | S j => if Ascii.eqb (deref path (Z.of_nat i)) "." || Ascii.eqb (deref path (Z.of_nat i)) "/"
           then i else mimetype_scan path j
  end.

Definition get_mimetype (path : bytes) : bytes :=
  let ext := mimetype_scan path (length path - 1) in
  if Ascii.eqb (deref path (Z.of_nat ext)) "."
  then
    let ext := skipn (ext + 1) path in
    if strcicmp ext (literal "html") =? 0 then literal "text/html"
    else if strcicmp ext (literal "css") =? 0 then literal "text/css"
    else if strcicmp ext (literal "png") =? 0 then literal "image/png"
    else if strcicmp ext (literal "jpg") =? 0 then literal "image/jpg"
    else if strcicmp ext (literal "gif") =? 0 then literal "image/gif"
    else literal "application/octet-stream"
  else literal "application/octet-stream".

(** [open_file]: [inl] is the negated status, [inr] the descriptor with the
    size, the type and the date of last modification; with them, the
    descriptors closed on the way. *)
Definition open_file (uri_ : bytes) : (Z + Z * Z * bytes * bytes) * list Z :=
  match os_realpath os (www_folder cfg) with
  | None => (inl INTERNAL_SERVER_ERROR, [])
  | Some root =>
      let path := root ++ uri_ in
      match os_stat os path with
      | None => (inl NOT_FOUND, [])
      | Some (is_dir, mtime) =>
          let path' :=
            if is_dir
            then if Ascii.eqb (deref path (strlen path - 1)) "/"
                 then path ++ literal "index.html"
                 else path ++ literal "/index.html"
            else path in
          match (if is_dir then os_stat os path' else Some (is_dir, mtime)) with
          | None => (inl NOT_FOUND, [])
          | Some (_, mtime') =>
              match os_open os path' with
              | None => (inl INTERNAL_SERVER_ERROR, [])
              | Some fd =>
                  match os_lseek_end os fd with
                  | None => (inl INTERNAL_SERVER_ERROR, [fd])
                  | Some size =>
                      if os_lseek_set os fd
                      then (inr (fd, size, get_mimetype path', os_date os mtime'), [])
                      else (inl INTERNAL_SERVER_ERROR, [fd])
                  end
              end
          end
      end
  end.

Definition internal_handler (c : http_client_t) (flag : handler) : Z * http_client_t :=
  match req c with
  | None => (INTERNAL_SERVER_ERROR, c)       (* not reached: [client->req] is set *)
  | Some r =>
      let '(res, closed_fds) := open_file (uri r) in
      let c := fold_left close_fd closed_fds c in
      match res with
      | inl status_code => (status_code, c)
      | inr (fd, size, mimetype, last_modified) =>
          let c := send_response_line c OK in
          let c := send_header c (literal "Content-Type") mimetype in
          let c := send_header c (literal "Content-Length") (os_itoa os size) in
          let c := send_header c (literal "Date") (os_date os (os_time os)) in
          let c := send_header c (literal "Last-Modified") last_modified in
          let c := send_header c (literal "Server") (literal "Liso/1.0") in
          let c := if connection_close r
                   then send_header c (literal "Connection") (literal "close")
                   else send_header c (literal "Connection") (literal "keep-alive") in
          let c := client_write_string c CRLF in
          match flag with
          | H_GET => (0, set_pipe c (Some (init_pipe (BUFSIZE cfg) fd)))
          | _ => (0, close_fd c fd)
          end
      end
  end.

Definition handle_get (c : http_client_t) : Z * http_client_t :=
  internal_handler (set_status (enter c H_GET) C_PIPING) H_GET.

Definition handle_head (c : http_client_t) : Z * http_client_t :=
  internal_handler (set_status (enter c H_HEAD) C_IDLE) H_HEAD.

Definition handle_post (c : http_client_t) : Z * http_client_t :=
  (NOT_IMPLEMENTED, enter c H_POST).

(** *** http_parse *)

(** What follows a handler, in the header loop and after the body. *)
Definition after_handler (ret : Z) (c : http_client_t) : Z * http_client_t :=
  if negb (ret =? 0) then end_request c ret
  else
    let ret := match req c with
               | Some r => if connection_close r then -1 else 0
               | None => 0
               end in
    (ret, set_req c None).

Definition method_is (c : http_client_t) (m : string) : bool :=
  match req c with
  | Some r => strcicmp (method r) (literal m) =? 0
  | None => false
  end.

(** The body of [if (strlen(line) == 0)]: the header section has ended. *)
Definition end_of_headers (ret : Z) (c : http_client_t) : loop_exit :=
  let '(ret, c) := if method_is c "GET" then handle_get c else (ret, c) in
  if method_is c "POST"
  then
    match req c with
    | None => LDone c
    | Some r =>
        match get_request_header r (literal "Content-Length") with
        | None => let '(x, c) := end_request c LENGTH_REQUIRED in LReturn x c
        | Some b =>
            if strlen b =? 0 then LReturn BAD_REQUEST c
            else if negb (all_digits b)
            then let '(x, c) := end_request c BAD_REQUEST in LReturn x c
            else LDone (set_req c (Some (set_content_len r (atoi b))))
        end
    end
  else
    let '(ret, c) := if method_is c "HEAD" then handle_head c else (ret, c) in
    let '(x, c) := after_handler ret c in LReturn x c.

Definition unread_len (c : http_client_t) : nat :=
  Z.to_nat (datasize (c_in c) - pos (c_in c)).

Lemma find_lf_bound (l : bytes) (i : nat) : find_lf l = Some i -> (i < length l)%nat.
Proof.
  revert i. induction l as [|x l IH]; intros i; cbn [find_lf]; [discriminate|].
  destruct (Ascii.eqb x LF); [intros [= <-]; cbn; lia|].
  destruct (find_lf l) as [j|]; [|discriminate].
  intros [= <-]. specialize (IH j eq_refl). cbn [length]. lia.
Qed.

Lemma client_readline_consumes (c c1 : http_client_t) (n : Z) (line : bytes) :
  client_readline c = (n, line, c1) -> n > 0 ->
  (unread_len c1 < unread_len c)%nat /\ req c1 = req c.
Proof.
  unfold client_readline, unread_len.
  destruct (find_lf _) as [i|] eqn:Hi; [|intros [= <- _ _]; lia].
  apply find_lf_bound in Hi. unfold valid in Hi.
  rewrite length_skipn, length_firstn in Hi.
  destruct (_ <=? _); [intros [= <- _ _]; lia|].
  intros [= <- _ <-] _. split; [|reflexivity].
  unfold set_in, set_pos. cbn [c_in pos datasize buf]. lia.
Qed.

(** The [while] loop over the header lines; [ret] is the local variable. *)
Equations? header_loop (ret : Z) (c : http_client_t) : loop_exit
  by wf (unread_len c) lt :=
  header_loop ret c with inspect (req c) => {
    | exist _ None _ => LDone c     (* not reached: [client->req] is set *)
    | exist _ (Some r) Hreq with Z.eq_dec (content_len r) (-1) => {
        | right _ => LDone c
        | left _ with inspect (client_readline c) => {
            | exist _ (n, line, c1) Heq with Z_gt_le_dec n 0 => {
                | right _ => LDone c1
                | left _ with Z.eq_dec (strlen line) 0 => {
                    | left _ => end_of_headers ret c1
                    | right _ with inspect (parse_header r line) => {
                        | exist _ (ret', r') Hp with Z.eq_dec ret' (-1) => {
                            | left _ =>
                                let '(x, c2) := end_request c1 BAD_REQUEST in LReturn x c2
                            | right _ => header_loop ret' (set_req c1 (Some r')) } } } } } } }.
Proof.
  destruct (client_readline_consumes _ _ _ _ Heq g) as [Hlt _].
  unfold unread_len in *. exact Hlt.
Qed.

(** The code after the loop: is the body there? *)
Definition body_phase (c : http_client_t) : Z * http_client_t :=
  match req c with
  | None => (0, c)                    (* not reached: [client->req] is set *)
  | Some r =>
      if content_len r >? 0
      then
        if datasize (c_in c) - pos (c_in c) >=? content_len r
        then
          let r := set_body r (Some (pos (c_in c))) in
          let c := set_req c (Some r) in
          let c := set_in c (set_pos (c_in c) (pos (c_in c) + content_len r)) in
          let '(ret, c) := handle_post c in
          after_handler ret c
        else (0, c)
      else (0, c)
  end.

Definition headers_and_body (ret : Z) (c : http_client_t) : Z * http_client_t :=
  match header_loop ret c with
  | LReturn x c' => (x, c')
  | LDone c' => body_phase c'
  end.

(** [ret] is not initialised when [http_parse] is entered with a request in
    flight; it is assigned before it is read, and stands at 0 here. *)
Definition http_parse (c : http_client_t) : Z * http_client_t :=
  match req c with
  | None =>
      let '(ret, line, c) := client_readline c in
      if strlen line =? 0 then (0, c)
      else
        let c := set_req c (Some (set_content_len new_request (-1))) in
        if ret =? 0 then (0, c)
        else if ret <? 0 then end_request c BAD_REQUEST
        else
          let '(ret, r) := parse_request_line (http_version cfg)
                             (set_content_len new_request (-1)) line in
          let c := set_req c (Some r) in
          if ret >? 0 then end_request c ret
          else headers_and_body ret c
  | Some _ => headers_and_body 0 c
  end.

End Http.

(** ** The readiness events of a connection *)

Section Serve.

Variable cfg : config.
Variable os : os_t.

(** Modelled from the spec: the event loop ([server.c]) is not part of the
    sources.  On a readable socket the specification has the input buffer
    filled by [io_recv] and then the parser run on it; a peer that has
    closed, or a failed read, ends the connection. *)
Definition on_readable (sock : sock_t) (c : http_client_t) : Z * http_client_t * sock_t :=
  let '(n, bp, sock') := io_recv (BUFSIZE cfg) sock (c_in c) in
  if n <=? 0 then (-1, set_in c bp, sock')
  else let '(r, c') := http_parse cfg os (set_in c bp) in (r, c', sock').

(** What is queued on the socket at one readiness event: some segments, and
    nothing more for now. *)
Definition arrival (segments : list bytes) : sock_t :=
  mk_sock segments RxWouldBlock [] [].

(** The connection over a succession of readiness events, up to the first
    one that ends it. *)
Fixpoint serve (events : list (list bytes)) (c : http_client_t) : Z * http_client_t :=
  match events with
  | [] => (0, c)
  | segments :: rest =>
      let '(r, c', _) := on_readable (arrival segments) c in
      if r =? 0 then serve rest c' else (r, c')
  end.

(** Modelled from the spec: a connection is created with an empty input
    buffer and no request in flight. *)
Definition new_client : http_client_t :=
  mk_client None (init_buf (BUFSIZE cfg)) [] None C_IDLE [] [].

End Serve.

(** ** Vocabulary of the parser properties *)

(** A buffer cut down to the bytes received: capacity and the block past
    [datasize] are forgotten. *)
Definition norm_buf (b : buf_t) : buf_t :=
  mk_buf (valid b) (datasize b) (datasize b) (pos b).

(** What is observed of a connection: everything but the capacity of its
    input buffer. *)
Definition norm (c : http_client_t) : http_client_t := set_in c (norm_buf (c_in c)).

Definition observe (x : Z * http_client_t) : Z * http_client_t := (fst x, norm (snd x)).

(** The connection once the bytes [e] have been received. *)
Definition feed (c : http_client_t) (e : bytes) : http_client_t :=
  set_in c (mk_buf (valid (c_in c) ++ e)
                   (datasize (c_in c) + Z.of_nat (length e))
                   (datasize (c_in c) + Z.of_nat (length e))
                   (pos (c_in c))).

(** The cursors of the input buffer are in order and the received bytes are
    in the block. *)
Definition in_ok (c : http_client_t) : Prop :=
  0 <= pos (c_in c) <= datasize (c_in c) /\
  datasize (c_in c) = Z.of_nat (length (valid (c_in c))).

(** A function on connections, applied under a loop exit. *)
Definition map_exit (f : http_client_t -> http_client_t) (x : loop_exit) : loop_exit :=
  match x with
  | LReturn r c => LReturn r (f c)
  | LDone c => LDone (f c)
  end.

(** The number of bytes in a list of segments. *)
Definition total_length (segs : list bytes) : Z := Z.of_nat (length (concat segs)).

(** The connection a loop exit carries. *)
Definition exit_client (x : loop_exit) : http_client_t :=
  match x with LReturn _ c => c | LDone c => c end.

(** A buffer as [io_recv] keeps it between calls: allocated, at least
    half of [BUFSIZE] free, and no larger than the data asks for. *)
Definition recv_ready (BUFSIZE : Z) (b : buf_t) : Prop :=
  allocated b /\ 0 <= datasize b /\
  BUFSIZE <= bufsize b /\ Z.shiftr BUFSIZE 1 <= bufsize b - datasize b /\
  bufsize b <= 3 * (datasize b + BUFSIZE).

(** Two states of one buffer that differ by the read cursor only. *)
Definition same_block (b b' : buf_t) : Prop :=
  buf b' = buf b /\ bufsize b' = bufsize b /\ datasize b' = datasize b.

(** A readiness event brings at least one segment, and no segment is
    empty. *)
Definition event_ok (segments : list bytes) : Prop :=
  segments <> [] /\ Forall (fun seg => seg <> []) segments.

(** The parser has returned 0 for want of input: from [c] it has reached
    [c'], where a request is still in flight or nothing has changed. *)
Definition waiting (c c' : http_client_t) : Prop := req c' <> None \/ c' = c.


(** The white-space-separated words of a line. *)
Fixpoint ws_tokens (l : bytes) : list bytes :=
  match l with
  | [] => []
  | c :: l' =>
      if isspace c then ws_tokens l'
      else match l' with
           | [] => [[c]]
           | d :: _ =>
               if isspace d then [c] :: ws_tokens l'
               else match ws_tokens l' with
                    | t :: ts => (c :: t) :: ts
                    | [] => [[c]]
                    end
           end
  end.

(** The bytes between two pointers, both ends included. *)
Definition between (s : bytes) (hd tl : Z) : bytes := sub s hd (tl - hd + 1).

(** Equality up to the case of ASCII letters. *)
Definition ci_equal (a b : bytes) : bool :=
  if list_eq_dec ascii_dec (map tolower a) (map tolower b) then true else false.

Definition allowed_method (m : bytes) : bool :=
  ci_equal m (literal "GET") || ci_equal m (literal "HEAD") || ci_equal m (literal "POST").

Fixpoint drop_spaces (l : bytes) : bytes :=
  match l with
  | c :: l' => if is_sp c then drop_spaces l' else l
  | [] => []
  end.

(** A string without its leading and trailing ASCII spaces. *)
Definition trim_spaces (l : bytes) : bytes :=
  rev (drop_spaces (rev (drop_spaces l))).

(** The characters of a C string exclude the terminator. *)
Definition cstring (s : bytes) : Prop := ~ In zero s.

(** A header line the specification calls invalid: no [':'], or, splitting
    at the first [':'], nothing on one side of it or nothing but spaces. *)
Definition header_invalid (line : bytes) : Prop :=
  ~ In ":"%char line \/
  exists k v, line = k ++ ":"%char :: v /\ ~ In ":"%char k /\
              (k = [] \/ v = [] \/ trim_spaces k = [] \/ trim_spaces v = []).

(** A line terminator: CRLF or a bare LF. *)
Definition eol (crlf : bool) : bytes := if crlf then [CR; LF] else [LF].

(** A line of text as it travels: no line feed and no NUL inside, no
    carriage return at its end, and short enough for [line[MAXBUF]]. *)
Definition plain_line (cfg : config) (l : bytes) : Prop :=
  ~ In LF l /\ ~ In zero l /\ last l zero <> CR /\ Z.of_nat (length l) < MAXBUF cfg.

(** The bytes of a sequence of lines, each with its terminator. *)
Definition wire (lines : list (bytes * bool)) : bytes :=
  concat (map (fun l => fst l ++ eol (snd l)) lines).

(** A well-formed request on the wire: a request line the parser accepts,
    header lines it accepts, a blank line, and a body; a POST request
    announces the length of its body in a [Content-Length] header made of
    digits, any other request has no body. *)
Definition well_formed (cfg : config) (w : bytes) : Prop :=
  exists (rl : bytes) (t0 : bool) (hs : list (bytes * bool)) (tb : bool) (body_ : bytes)
         (r0 rn : http_request_t),
    w = (rl ++ eol t0) ++ wire hs ++ eol tb ++ body_ /\
    plain_line cfg rl /\ Forall (fun h => plain_line cfg (fst h)) hs /\ 0 < MAXBUF cfg /\
    parse_request_line (http_version cfg) (set_content_len new_request (-1)) rl = (0, r0) /\
    parse_headers r0 (map fst hs) = (0, rn) /\
    (if strcicmp (method rn) (literal "POST") =? 0
     then exists b, get_request_header rn (literal "Content-Length") = Some b /\
                    b <> [] /\ all_digits b = true /\ atoi b = Z.of_nat (length body_)
     else body_ = []).

(** [plain_line], decided. *)
Definition plain_lineb (cfg : config) (l : bytes) : bool :=
  forallb (fun x => negb (Ascii.eqb x LF)) l &&
  forallb (fun x => negb (Ascii.eqb x zero)) l &&
  negb (Ascii.eqb (last l zero) CR) &&
  (Z.of_nat (length l) <? MAXBUF cfg).

(** The connection has read everything it has received. *)
Definition at_end (c : http_client_t) : Prop := pos (c_in c) = datasize (c_in c).

(** The connection once the bytes [e] have been received and read. *)
Definition advance (c : http_client_t) (e : bytes) : http_client_t :=
  set_in c (mk_buf (valid (c_in c) ++ e)
                   (datasize (c_in c) + Z.of_nat (length e))
                   (datasize (c_in c) + Z.of_nat (length e))
                   (pos (c_in c) + Z.of_nat (length e))).

(** Every proper prefix of [w], received by [c0], leaves the parser waiting
    for input. *)
Definition prefix_waits (cfg : config) (os : os_t) (c0 : http_client_t) (w : bytes) : Prop :=
  forall p q, w = p ++ q -> q <> [] ->
  exists c', http_parse cfg os (feed c0 p) = (0, c') /\ waiting (feed c0 p) c'.

(** ** Vocabulary of the pipe properties *)

Definition is_read (e : syscall) : bool :=
  match e with SysRead _ _ _ => true | _ => false end.

(** A read that loaded bytes into the scratch buffer. *)
Definition is_refill (e : syscall) : bool :=
  match e with SysRead _ _ r => 0 <? r | _ => false end.

Definition is_close (e : syscall) : bool :=
  match e with SysClose _ => true | _ => false end.

Definition count_if (f : syscall -> bool) (t : list syscall) : Z :=
  Z.of_nat (length (filter f t)).

(** A [send] that succeeds: the kernel takes at least one byte. *)
Definition accepts (e : tx_event) : bool :=
  match e with TxAccept (S _) => true | _ => false end.

(** [ceil (n / d)] for non-negative [n] and positive [d]. *)
Definition ceil_div (n d : Z) : Z := (n + d - 1) / d.

(** ** Vocabulary of the further properties of [io.c] *)

(** The socket once everything queued on it has been read. *)
Definition drained (s : sock_t) : sock_t := mk_sock [] (rx_end s) (tx s) (sent s).

(** The bytes a pipe has read from its file and not sent yet. *)
Definition pending (pp : pipe_t) : bytes :=
  sub (p_buf pp) (p_offset pp) (p_datasize pp - p_offset pp).

(** *** The [select] context of io.c

    [context] is a variable of static storage: its sets start empty and its
    [fd_max] at 0.  A descriptor set is the list of the descriptors in it;
    the type of the context is declared in [io.h] and has the fields the
    functions use. *)

Module Select.

Definition fd_set := list Z.

Definition FD_ZERO : fd_set := [].
Definition FD_SET (fd : Z) (s : fd_set) : fd_set := fd :: s.
Definition FD_CLR (fd : Z) (s : fd_set) : fd_set := filter (fun x => negb (x =? fd)) s.
Definition FD_ISSET (fd : Z) (s : fd_set) : bool := existsb (Z.eqb fd) s.

Record select_context := mk_context {
  read_fds : fd_set;
  read_fds_cpy : fd_set;
  write_fds : fd_set;
  write_fds_cpy : fd_set;
  fd_max : Z
}.

Definition context : select_context := mk_context FD_ZERO FD_ZERO FD_ZERO FD_ZERO 0.

Definition init_select_context (c : select_context) : select_context :=
  mk_context FD_ZERO FD_ZERO FD_ZERO FD_ZERO (fd_max c).

Definition add_read_fd (fd : Z) (c : select_context) : select_context :=
  mk_context (read_fds c) (FD_SET fd (read_fds_cpy c)) (write_fds c) (write_fds_cpy c)
             (if fd >? fd_max c then fd else fd_max c).

Definition remove_read_fd (fd : Z) (c : select_context) : select_context :=
  mk_context (read_fds c) (FD_CLR fd (read_fds_cpy c)) (write_fds c) (write_fds_cpy c)
             (fd_max c).

Definition test_read_fd (fd : Z) (c : select_context) : bool := FD_ISSET fd (read_fds c).

Definition add_write_fd (fd : Z) (c : select_context) : select_context :=
  mk_context (read_fds c) (read_fds_cpy c) (write_fds c) (FD_SET fd (write_fds_cpy c))
             (if fd >? fd_max c then fd else fd_max c).

Definition remove_write_fd (fd : Z) (c : select_context) : select_context :=
  mk_context (read_fds c) (read_fds_cpy c) (write_fds c) (FD_CLR fd (write_fds_cpy c))
             (fd_max c).

Definition test_write_fd (fd : Z) (c : select_context) : bool := FD_ISSET fd (write_fds c).

(** What a call of [select] meets: a failure ([EINTR], [EBADF], ...), or
    descriptors of which some are ready. *)
Inductive select_outcome :=
| SelectFails
| SelectReturns (readable writable : Z -> bool).

(** [select(nfds, r, w, NULL, NULL)].  When it fails the result is -1 and
    the sets are left as they are.  Otherwise, of the descriptors below
    [nfds], those that are ready stay in their set; a descriptor from [nfds]
    on is not looked at and stays as it is; the result is the number of
    entries left. *)
Definition select (o : select_outcome) (nfds : Z) (r w : fd_set) : Z * fd_set * fd_set :=
  match o with
  | SelectFails => (-1, r, w)
  | SelectReturns readable writable =>
      let r' := filter (fun fd => if fd <? nfds then readable fd else true) r in
      let w' := filter (fun fd => if fd <? nfds then writable fd else true) w in
      (Z.of_nat (length (nodup Z.eq_dec r') + length (nodup Z.eq_dec w')), r', w')
  end.

Definition io_select (o : select_outcome) (c : select_context) : Z * select_context :=
  let '(n, r, w) := select o (fd_max c + 1) (read_fds_cpy c) (write_fds_cpy c) in
  (n, mk_context r (read_fds_cpy c) w (write_fds_cpy c) (fd_max c)).

(** The calls the rest of the server makes on the context. *)
Inductive call :=
| InitSelectContext
| AddReadFd (fd : Z)
| RemoveReadFd (fd : Z)
| AddWriteFd (fd : Z)
| RemoveWriteFd (fd : Z)
| IoSelect (o : select_outcome).

Definition perform (c : select_context) (k : call) : select_context :=
  match k with
  | InitSelectContext => init_select_context c
  | AddReadFd fd => add_read_fd fd c
  | RemoveReadFd fd => remove_read_fd fd c
  | AddWriteFd fd => add_write_fd fd c
  | RemoveWriteFd fd => remove_write_fd fd c
  | IoSelect o => snd (io_select o c)
  end.

(** The context after a succession of calls, from the start of the program. *)
Definition after (calls : list call) : select_context := fold_left perform calls context.

(** The descriptors a succession of calls has ever added to a set. *)
Definition added (calls : list call) : list Z :=
  flat_map (fun k => match k with AddReadFd fd | AddWriteFd fd => [fd] | _ => [] end) calls.

(** No descriptor of the sets handed to [select] is above [fd_max]. *)
Definition bounded (c : select_context) : Prop :=
  forall fd, In fd (read_fds_cpy c) \/ In fd (write_fds_cpy c) -> fd <= fd_max c.

End Select.

(** ** Vocabulary of the further properties of [request_handler.c] *)

(** The table of [get_mimetype], by file extension. *)
Definition mimetype_of_extension (ext : bytes) : bytes :=
  if strcicmp ext (literal "html") =? 0 then literal "text/html"
  else if strcicmp ext (literal "css") =? 0 then literal "text/css"
  else if strcicmp ext (literal "png") =? 0 then literal "image/png"
  else if strcicmp ext (literal "jpg") =? 0 then literal "image/jpg"
  else if strcicmp ext (literal "gif") =? 0 then literal "image/gif"
  else literal "application/octet-stream".

(** Neither a dot nor a slash. *)
Definition no_separator (e : bytes) : Prop := ~ In "."%char e /\ ~ In "/"%char e.

(** ** Vocabulary of the further properties of [http_parser.c] *)

(** The header values of the request in flight are not empty. *)
Definition headers_valued (c : http_client_t) : Prop :=
  forall r, req c = Some r -> Forall (fun h => val h <> []) (headers r).

(** The request line and the header section of a request, with the blank
    line that ends them. *)
Definition head_wire (rl : bytes) (t0 : bool) (hs : list (bytes * bool)) (tb : bool) : bytes :=
  (rl ++ eol t0) ++ wire hs ++ eol tb.

(** What [http_parse] does once the blank line has been read: the code under
    [if (strlen(line) == 0)], and the body if the loop is left. *)
Definition headers_end (cfg : config) (os : os_t) (c : http_client_t) : Z * http_client_t :=
  match end_of_headers cfg os 0 c with
  | LReturn x c' => (x, c')
  | LDone c' => body_phase cfg os c'
  end.

(** From [b] to [b'] the read cursor has moved forward, within the bytes
    received, and nothing else of the buffer has changed. *)
Definition cursor_forward (b b' : buf_t) : Prop :=
  same_block b b' /\ pos b <= pos b' <= datasize b'.

(** Nothing but ASCII spaces. *)
Definition spaces (l : bytes) : Prop := forallb is_sp l = true.

(** Between [c] and [c'] at most one handler has been entered. *)
Definition entered_at_most_once (c c' : http_client_t) : Prop :=
  handled c' = handled c \/ exists h r, handled c' = handled c ++ [(h, r)].

(** * Example inputs *)

Module Ex.

(** A socket with two segments queued and room for two writes. *)
Definition sock : sock_t :=
  mk_sock [literal "hello"; literal "wo"] RxWouldBlock [TxAccept 3; TxAccept 10] [].

(** A buffer of capacity 8 holding 5 bytes, the first of them consumed. *)
Definition half_read : buf_t := mk_buf (literal "abcdefgh") 8 5 1.

(** A buffer of capacity 8 filled to the last byte. *)
Definition brim : buf_t := mk_buf (literal "abcdefgh") 8 8 0.

(** A buffer of capacity 12 holding 5 bytes. *)
Definition grown : buf_t := mk_buf (literal "hello" ++ repeat zero 7) 12 5 0.

(** A buffer of odd capacity 27 holding 20 bytes. *)
Definition odd : buf_t := mk_buf (repeat "x"%char 27) 27 20 0.

(** A ten-byte file behind descriptor 7, piped to a socket that takes three
    bytes per [send]. *)
Definition env : pipe_env :=
  mk_env (mk_file (literal "0123456789") false)
         (mk_sock [] RxWouldBlock (repeat (TxAccept 3) 10) [])
         [] [7] [].

(** A request as [new_request] returns it, before anything is parsed. *)
Definition blank : http_request_t := mk_request [] [] [] (-1) None.

Definition version : bytes := literal "HTTP/1.1".

Definition cfg : config := mk_config 64 8192 version (literal "./www").

(** A document root holding [/index.html] and nothing else. *)
Definition os : os_t :=
  mk_os (fun _ => Some (literal "/srv/www"))
        (fun path => if bytes_eqb path (literal "/srv/www/index.html") then Some (false, 0)
                     else if bytes_eqb path (literal "/srv/www/") then Some (true, 0)
                     else None)
        (fun _ => Some 5)
        (fun _ => Some 1234)
        (fun _ => true)
        0
        (fun _ => literal "Thu, 01 Jan 1970 00:00:00 GMT")
        (fun n => literal (NilZero.string_of_int (Z.to_int n))).

Definition get_request : bytes :=
  literal "GET /index.html HTTP/1.1" ++ CRLF ++ literal "Host: liso" ++ CRLF ++ CRLF.

Definition post_request (n : string) (body : string) : bytes :=
  literal "POST /cgi HTTP/1.1" ++ CRLF ++ literal "Content-Length: " ++ literal n ++ CRLF
    ++ CRLF ++ literal body.

End Ex.

(** * Properties *)

(** ** The growable buffer *)

Lemma shiftr1_nonneg (x : Z) : 0 <= x -> 0 <= Z.shiftr x 1 <= x.
Proof.
  intros Hx. rewrite Z.shiftr_div_pow2 by lia. change (2 ^ 1) with 2.
  split; [apply Z.div_pos; lia | apply Z.div_le_upper_bound; lia].
Qed.

Lemma to_size_t_le (n : Z) : 0 <= n -> 0 <= to_size_t n <= n.
Proof.
  intros Hn. unfold to_size_t. split.
  - apply Z.mod_pos_bound. lia.
  - apply Z.mod_le; lia.
Qed.

Lemma recv_bound (s : sock_t) (len : Z) :
  0 <= len -> let '(n, _, data, _) := recv s len in
              -1 <= n <= len /\ (0 <= n -> Z.of_nat (length data) = n).
Proof.
  intros Hlen. unfold recv.
  destruct (rx s) as [|seg rest].
  - destruct (rx_end s); cbn; lia.
  - pose proof (to_size_t_le _ Hlen). cbn zeta. rewrite length_firstn. lia.
Qed.

Lemma send_bound (s : sock_t) (data : bytes) (len : Z) :
  0 <= len -> let '(n, _, _) := send s data len in -1 <= n <= len.
Proof.
  intros Hlen. unfold send.
  destruct (tx s) as [|[room| |] rest]; try lia.
  pose proof (to_size_t_le _ Hlen). lia.
Qed.

Lemma length_store (m : bytes) (off : Z) (d : bytes) :
  0 <= off -> off + Z.of_nat (length d) <= Z.of_nat (length m) ->
  length (store m off d) = length m.
Proof.
  intros H0 H1. unfold store. rewrite !length_app, length_firstn, length_skipn. lia.
Qed.

Lemma length_realloc (m : bytes) (n : Z) : length (realloc m n) = Z.to_nat n.
Proof.
  unfold realloc. rewrite length_app, length_firstn, repeat_length. lia.
Qed.

Lemma io_shrink_inv (bp : buf_t) : buf_inv bp -> buf_inv (io_shrink bp).
Proof.
  unfold buf_inv, io_shrink. cbn [pos datasize bufsize buf]. intros (H0 & H1 & H2).
  assert (Hs := shiftr1_nonneg (bufsize bp - datasize bp + pos bp)). lia.
Qed.

Lemma io_shrink_allocated (bp : buf_t) :
  buf_inv bp -> allocated (io_shrink bp).
Proof.
  unfold buf_inv, allocated, io_shrink. cbn [pos datasize bufsize buf].
  intros (H0 & H1 & H2). rewrite length_realloc.
  assert (Hs := shiftr1_nonneg (bufsize bp - datasize bp + pos bp)). lia.
Qed.

Lemma firstn_app_exact {A} (l1 l2 : list A) (n : nat) :
  n = length l1 -> firstn n (l1 ++ l2) = l1.
Proof.
  intros ->. rewrite firstn_app, Nat.sub_diag, firstn_all. cbn. apply app_nil_r.
Qed.

Lemma firstn_firstn_le {A} (l : list A) (n m : nat) :
  (n <= m)%nat -> firstn n (firstn m l) = firstn n l.
Proof. intros H. rewrite firstn_firstn. f_equal. lia. Qed.

Lemma io_shrink_unread (bp : buf_t) :
  buf_inv bp -> allocated bp -> unread (io_shrink bp) = unread bp.
Proof.
  unfold buf_inv, allocated, unread, io_shrink, memmove. cbn [pos datasize bufsize buf].
  intros (H0 & H1 & H2) Ha.
  set (d := datasize bp - pos bp).
  assert (Hlen : length (sub (buf bp) (pos bp) d) = Z.to_nat d).
  { unfold sub. rewrite length_firstn, length_skipn. lia. }
  unfold sub at 1. cbn [Z.to_nat skipn]. rewrite Z.sub_0_r.
  unfold realloc, store. cbn [Z.to_nat firstn app].
  assert (Hs := shiftr1_nonneg (bufsize bp - datasize bp + pos bp)).
  rewrite firstn_app.
  rewrite firstn_firstn_le.
  2:{ lia. }
  rewrite firstn_app_exact by lia.
  replace (firstn _ (repeat zero _)) with (@nil ascii).
  - now rewrite app_nil_r.
  - symmetry. apply length_zero_iff_nil. rewrite length_firstn, !length_firstn, !length_app.
    rewrite Hlen, length_skipn. lia.
Qed.

(** Loop-invariant rule for the [while] loop of [io_recv]: an invariant of
    the loop body holds when the loop exits, on the read that ended it. *)
Lemma recv_loop_invariant BUFSIZE (P : sock_t -> buf_t -> Prop) :
  (forall s bp n err data s',
      P s bp -> recv s (bufsize bp - datasize bp - 1) = (n, err, data, s') ->
      n > 0 -> P s' (recv_body BUFSIZE bp n data)) ->
  forall s bp, P s bp ->
  exists s1 data n err bp' s',
    recv_loop BUFSIZE s bp = (n, err, bp', s') /\
    P s1 bp' /\ n <= 0 /\
    recv s1 (bufsize bp' - datasize bp' - 1) = (n, err, data, s').
Proof.
  intros Hstep s bp. funelim (recv_loop BUFSIZE s bp); intros HP.
  - match goal with IH : forall Q, _ -> _ -> _ |- _ => apply IH; [exact Hstep|] end.
    eapply Hstep; eauto.
  - exists s, data, nbytes, err, bp, s'. auto.
Qed.

Lemma send_loop_inv (s : sock_t) (bp : buf_t) (bytes_sent : Z) :
  buf_inv bp -> buf_inv (snd (fst (send_loop s bp bytes_sent))).
Proof.
  funelim (send_loop s bp bytes_sent); intros Hi; cbn [fst snd]; auto.
  - destruct (_ || _); cbn [fst snd]; assumption.
  - match goal with IH : buf_inv _ -> _ |- _ => apply IH end.
    pose proof (send_bound s (sub (buf bp) (pos bp) (datasize bp - pos bp))
                            (datasize bp - pos bp)) as Hb.
    rewrite Heq in Hb. unfold buf_inv in *. cbn [pos datasize bufsize buf]. lia.
Qed.

Lemma io_send_inv BUFSIZE (s : sock_t) (bp : buf_t) :
  buf_inv bp -> buf_inv (snd (fst (io_send BUFSIZE s bp))).
Proof.
  intros Hi. pose proof (send_loop_inv s bp 0 Hi) as H.
  unfold io_send. destruct (send_loop s bp 0) as [[[r|n] bp'] s']; cbn [fst snd] in *.
  - assumption.
  - destruct (empty _ _); [apply io_shrink_inv|]; assumption.
Qed.

Lemma recv_loop_step BUFSIZE (s : sock_t) (bp : buf_t) :
  recv_loop BUFSIZE s bp =
  let '(n, err, data, s') := recv s (bufsize bp - datasize bp - 1) in
  if n >? 0 then recv_loop BUFSIZE s' (recv_body BUFSIZE bp n data) else (n, err, bp, s').
Proof.
  funelim (recv_loop BUFSIZE s bp); rewrite Heq.
  - destruct (Z.gtb_spec nbytes 0); [reflexivity | lia].
  - destruct (Z.gtb_spec nbytes 0); [lia | reflexivity].
Qed.

(** What [recv] takes off the queue of the socket. *)
Lemma recv_pending (s s' : sock_t) (len n : Z) (err : errno_t) (data : bytes) :
  recv s len = (n, err, data, s') -> 0 <= len < 2 ^ 64 -> n > 0 ->
  Z.of_nat (rx_pending s') + n = Z.of_nat (rx_pending s) /\ n <= len.
Proof.
  unfold recv, rx_pending. intros H Hlen Hn.
  destruct (rx s) as [|seg rest]; [destruct (rx_end s); inversion H; subst; lia|].
  unfold to_size_t in H. rewrite Z.mod_small in H by lia.
  set (k := Z.min len (Z.of_nat (length seg))) in *.
  inversion H; subst n err data s'. clear H. cbn [rx fold_right].
  destruct (Z.ltb_spec k (Z.of_nat (length seg))); cbn [fold_right].
  - rewrite length_skipn. lia.
  - lia.
Qed.

(** The loop of [io_recv] on sizes within [int]: every capacity the loop
    passes through is an [int], and so is every sum it computes; the data
    stay below the capacity and [pos] is left alone. *)
Lemma recv_loop_within_int BUFSIZE (s : sock_t) (bp : buf_t) :
  recv_within_int BUFSIZE s bp -> datasize bp < bufsize bp ->
  let '(_, _, bp', _) := recv_loop BUFSIZE s bp in
  datasize bp <= datasize bp' /\ datasize bp' < bufsize bp' /\
  bufsize bp' <= INT_MAX /\ pos bp' = pos bp.
Proof.
  intros (HB & Hd0 & Hcap & Hsize) Hlt.
  destruct (recv_loop_invariant BUFSIZE
              (fun s1 b1 => datasize bp <= datasize b1 /\ datasize b1 < bufsize b1 /\
                            bufsize b1 <= INT_MAX /\ pos b1 = pos bp /\
                            datasize b1 + Z.of_nat (rx_pending s1) <=
                              datasize bp + Z.of_nat (rx_pending s)))
    with (s := s) (bp := bp) as (s1 & data & n & err & bp' & s' & -> & HP & _).
  - intros s1 b1 n err data s' (Hge & Hlt1 & Hcap1 & Hp1 & Hq1) Hr Hn.
    assert (Hmax : INT_MAX < 2 ^ 64) by reflexivity.
    destruct (recv_pending s1 s' _ n err data Hr ltac:(lia) Hn) as [Hpend Hle].
    pose proof (shiftr1_nonneg BUFSIZE HB) as HsB.
    pose proof (shiftr1_nonneg (bufsize b1) ltac:(lia)) as Hs1.
    assert (Hdbl : 2 * Z.shiftr (bufsize b1) 1 <= bufsize b1).
    { rewrite Z.shiftr_div_pow2 by lia. change (2 ^ 1) with 2. apply Z.mul_div_le. lia. }
    unfold recv_body, full. cbn [pos datasize bufsize buf].
    destruct (Z.gtb_spec (datasize b1 + n + Z.shiftr BUFSIZE 1) (bufsize b1));
      cbn [pos datasize bufsize buf]; repeat split; lia.
  - repeat split; lia.
  - destruct HP as (Hge & Hlt1 & Hcap1 & Hp1 & _). auto.
Qed.

(** C2, as amended: [io_send] and [io_shrink] preserve
    [0 <= pos <= datasize <= bufsize] from every state that satisfies it, and
    [io_recv] does so from every such state with [datasize < bufsize] when
    the sizes of the call stay within [int] ([recv_within_int]), the
    capacity it ends with being an [int] again; [io_shrink] keeps the
    unread bytes [[pos, datasize)] byte for byte, at [[0, datasize - pos)]
    with [pos] reset to 0. *)
Theorem growbuffer_invariant BUFSIZE (sock : sock_t) (bp : buf_t) :
  buf_inv bp -> allocated bp ->
  (buf_inv (io_shrink bp) /\
   unread (io_shrink bp) = unread bp /\
   pos (io_shrink bp) = 0 /\
   datasize (io_shrink bp) = datasize bp - pos bp) /\
  buf_inv (snd (fst (io_send BUFSIZE sock bp))) /\
  (datasize bp < bufsize bp -> recv_within_int BUFSIZE sock bp ->
   buf_inv (snd (fst (io_recv BUFSIZE sock bp))) /\
   bufsize (snd (fst (io_recv BUFSIZE sock bp))) <= INT_MAX).
Proof.
  intros Hi Ha. split; [|split].
  - split; [apply io_shrink_inv, Hi|].
    split; [apply io_shrink_unread; assumption|].
    split; reflexivity.
  - apply io_send_inv, Hi.
  - intros Hlt Hint.
    pose proof (recv_loop_within_int BUFSIZE sock bp Hint Hlt) as H.
    unfold io_recv. destruct (recv_loop BUFSIZE sock bp) as [[[n err] bp'] s'].
    destruct H as (Hge & Hlt' & Hcap & Hp).
    assert (Hi' : buf_inv bp') by (unfold buf_inv in *; lia).
    destruct (n =? 0); [cbn [fst snd]; auto|].
    destruct (_ && _); cbn [fst snd]; auto.
Qed.

(** C3, what the code does: after a successful read of [n] bytes, with
    the sums of the loop body within [int] ([recv_body_within_int]), the
    loop of [io_recv] continues on the buffer [recv_body] yields, whose
    capacity has grown exactly when [bufsize - datasize < BUFSIZE / 2] for
    the constant [BUFSIZE], the new capacity being [bufsize + bufsize / 2],
    that is 1.5 times the capacity rounded down, an [int] again. *)
Theorem growth_rule BUFSIZE (s s' : sock_t) (bp : buf_t) (n : Z) (err : errno_t) (data : bytes) :
  recv s (bufsize bp - datasize bp - 1) = (n, err, data, s') -> n > 0 ->
  recv_body_within_int BUFSIZE bp n ->
  recv_loop BUFSIZE s bp = recv_loop BUFSIZE s' (recv_body BUFSIZE bp n data) /\
  datasize (recv_body BUFSIZE bp n data) = datasize bp + n /\
  bufsize (recv_body BUFSIZE bp n data) =
    (if bufsize bp - (datasize bp + n) <? BUFSIZE / 2
     then bufsize bp + bufsize bp / 2
     else bufsize bp) /\
  0 <= bufsize (recv_body BUFSIZE bp n data) <= INT_MAX.
Proof.
  intros Hr Hn (HB & Hd0 & Hb0 & Hsum & Hgrow).
  assert (Hcap : bufsize (recv_body BUFSIZE bp n data) =
                 if bufsize bp - (datasize bp + n) <? BUFSIZE / 2
                 then bufsize bp + bufsize bp / 2
                 else bufsize bp).
  { unfold recv_body, full. cbn [pos datasize bufsize buf].
    rewrite !Z.shiftr_div_pow2 by lia. change (2 ^ 1) with 2.
    destruct (Z.gtb_spec (datasize bp + n + BUFSIZE / 2) (bufsize bp));
      destruct (Z.ltb_spec (bufsize bp - (datasize bp + n)) (BUFSIZE / 2));
      cbn [bufsize]; lia. }
  split; [|split; [|split; [exact Hcap|]]].
  - rewrite recv_loop_step, Hr. destruct (Z.gtb_spec n 0); [reflexivity | lia].
  - unfold recv_body. destruct (full _ _); reflexivity.
  - rewrite Hcap. pose proof (Z.div_pos (bufsize bp) 2 Hb0 ltac:(lia)).
    destruct (_ <? _); lia.
Qed.

(** C10: inside [io_recv] every [recv] is asked for, and returns, at most
    [bufsize - datasize - 1] bytes, and a call of [io_recv] that starts with
    [datasize < bufsize], its sizes within [int] ([recv_within_int]), ends
    with [datasize <= bufsize - 1], the capacity an [int] again. *)
Theorem io_recv_never_fills BUFSIZE (sock : sock_t) (bp : buf_t) :
  recv_within_int BUFSIZE sock bp -> datasize bp < bufsize bp ->
  fst (fst (fst (recv sock (bufsize bp - datasize bp - 1)))) <= bufsize bp - datasize bp - 1 /\
  datasize (snd (fst (io_recv BUFSIZE sock bp))) <=
    bufsize (snd (fst (io_recv BUFSIZE sock bp))) - 1 /\
  bufsize (snd (fst (io_recv BUFSIZE sock bp))) <= INT_MAX.
Proof.
  intros Hint Hlt. split.
  - pose proof (recv_bound sock (bufsize bp - datasize bp - 1)) as Hb.
    destruct Hint as (_ & Hd0 & _).
    destruct (recv sock _) as [[[n err] data] s']. cbn [fst]. lia.
  - pose proof (recv_loop_within_int BUFSIZE sock bp Hint Hlt) as H.
    unfold io_recv. destruct (recv_loop BUFSIZE sock bp) as [[[n err] bp'] s'].
    destruct H as (Hge & Hlt' & Hcap & Hp).
    destruct (n =? 0); [cbn [fst snd]; lia|].
    destruct (_ && _); cbn [fst snd]; lia.
Qed.

Lemma growbuffer_invariant_witness :
  buf_inv Ex.half_read /\ allocated Ex.half_read /\
  recv_within_int 8 Ex.sock Ex.half_read /\
  buf_inv (io_shrink Ex.half_read) /\
  unread (io_shrink Ex.half_read) = literal "bcde" /\
  buf_inv (snd (fst (io_send 8 Ex.sock Ex.half_read))) /\
  buf_inv (snd (fst (io_recv 8 Ex.sock Ex.half_read))) /\
  bufsize (snd (fst (io_recv 8 Ex.sock Ex.half_read))) <= INT_MAX.
Proof.
  assert (Hi : buf_inv Ex.half_read) by (unfold buf_inv; cbn; lia).
  assert (Ha : allocated Ex.half_read) by reflexivity.
  assert (Hint : recv_within_int 8 Ex.sock Ex.half_read).
  { unfold recv_within_int. vm_compute. repeat split; discriminate. }
  destruct (growbuffer_invariant 8 Ex.sock Ex.half_read Hi Ha) as ((H1 & H2 & _) & H3 & H4).
  split; [exact Hi|]. split; [exact Ha|]. split; [exact Hint|]. split; [exact H1|].
  split; [exact H2|].
  split; [exact H3 | apply H4; [cbn; lia | exact Hint]].
Defined.

(** C2 as stated fails for [io_recv] on a full buffer: with
    [datasize = bufsize] the length passed to [recv] is [-1], which [recv]
    takes as the largest [size_t]; ten bytes arrive in a block that has room
    for none, and [datasize] (18) ends above [bufsize] (12). *)
Lemma growbuffer_invariant_full_buffer :
  buf_inv Ex.brim /\ allocated Ex.brim /\
  to_size_t (bufsize Ex.brim - datasize Ex.brim - 1) = 18446744073709551615 /\
  datasize (snd (fst (io_recv 8 (mk_sock [literal "0123456789"] RxWouldBlock [] []) Ex.brim))) = 18 /\
  bufsize (snd (fst (io_recv 8 (mk_sock [literal "0123456789"] RxWouldBlock [] []) Ex.brim))) = 12 /\
  ~ buf_inv (snd (fst (io_recv 8 (mk_sock [literal "0123456789"] RxWouldBlock [] []) Ex.brim))).
Proof.
  split; [unfold buf_inv; cbn; lia|].
  split; [reflexivity|].
  split; [reflexivity|].
  split; [vm_compute; reflexivity|].
  split; [vm_compute; reflexivity|].
  unfold buf_inv.
  replace (datasize _) with 18 by (vm_compute; reflexivity).
  replace (bufsize _) with 12 by (vm_compute; reflexivity).
  lia.
Qed.

Lemma growth_rule_witness :
  recv_body_within_int 8 Ex.grown 2 /\
  datasize (recv_body 8 Ex.grown 2 (literal "wo")) = 7 /\
  bufsize (recv_body 8 Ex.grown 2 (literal "wo")) = 12 /\
  recv_loop 8 (mk_sock [literal "wo"] RxWouldBlock [] []) Ex.grown =
  recv_loop 8 (mk_sock [] RxWouldBlock [] []) (recv_body 8 Ex.grown 2 (literal "wo")).
Proof.
  assert (Hint : recv_body_within_int 8 Ex.grown 2).
  { unfold recv_body_within_int. vm_compute. repeat split; discriminate. }
  destruct (growth_rule 8 (mk_sock [literal "wo"] RxWouldBlock [] [])
              (mk_sock [] RxWouldBlock [] []) Ex.grown 2 ENONE (literal "wo"))
    as (H1 & H2 & H3 & _); [reflexivity | lia | exact Hint |].
  split; [exact Hint|]. split; [exact H2|]. split; [exact H3 | exact H1].
Defined.

(** C3 as stated fails on the code, twice.  With [BUFSIZE = 8], capacity 12
    and 7 bytes after the read, the data exceed half of the buffer
    ([capacity - size = 5 < 6 = capacity / 2]), the case in which the
    comment above [io_recv] has the buffer grow, and yet it does not: [full]
    compares with the constant [BUFSIZE], not with the capacity.  And a
    buffer of capacity 27 grows to 40, not to 1.5 * 27 rounded up (41). *)
Lemma growth_rule_as_stated_fails :
  (bufsize Ex.grown - datasize (recv_body 8 Ex.grown 2 (literal "wo")) < bufsize Ex.grown / 2 /\
   bufsize (recv_body 8 Ex.grown 2 (literal "wo")) = bufsize Ex.grown) /\
  (bufsize Ex.odd - datasize (recv_body 8 Ex.odd 5 (literal "abcde")) < bufsize Ex.odd / 2 /\
   bufsize (recv_body 8 Ex.odd 5 (literal "abcde")) = 40 /\
   (3 * bufsize Ex.odd + 1) / 2 = 41).
Proof. vm_compute. intuition congruence. Qed.

Lemma io_recv_never_fills_witness :
  recv_within_int 8 Ex.sock Ex.half_read /\ datasize Ex.half_read < bufsize Ex.half_read /\
  datasize (snd (fst (io_recv 8 Ex.sock Ex.half_read))) <=
    bufsize (snd (fst (io_recv 8 Ex.sock Ex.half_read))) - 1 /\
  bufsize (snd (fst (io_recv 8 Ex.sock Ex.half_read))) <= INT_MAX.
Proof.
  assert (H0 : recv_within_int 8 Ex.sock Ex.half_read).
  { unfold recv_within_int. vm_compute. repeat split; discriminate. }
  assert (H1 : datasize Ex.half_read < bufsize Ex.half_read) by (cbn; lia).
  split; [exact H0|]. split; [exact H1|].
  exact (proj2 (io_recv_never_fills 8 Ex.sock Ex.half_read H0 H1)).
Defined.

(** ** The file-to-socket pipe *)



Lemma firstn_plus {A} (n m : nat) (l : list A) :
  firstn (n + m) l = firstn n l ++ firstn m (skipn n l).
Proof.
  revert l. induction n as [|n IH]; intros l; [reflexivity|].
  destruct l as [|x l]; cbn; [now rewrite firstn_nil | now rewrite IH].
Qed.

Lemma sub_split (m : bytes) (off k b : Z) :
  0 <= off -> 0 <= k <= b ->
  firstn (Z.to_nat k) (sub m off b) ++ sub m (off + k) (b - k) = sub m off b.
Proof.
  intros Ho Hk. unfold sub.
  rewrite firstn_firstn_le by lia.
  replace (Z.to_nat (off + k)) with (Z.to_nat k + Z.to_nat off)%nat by lia.
  rewrite <- skipn_skipn.
  rewrite <- firstn_plus. f_equal. lia.
Qed.

Lemma ceil_div_step (n d : Z) :
  0 < d -> 0 < n -> ceil_div n d = 1 + ceil_div (n - Z.min d n) d.
Proof.
  intros Hd Hn. unfold ceil_div.
  destruct (Z.le_gt_cases d n) as [Hle|Hgt].
  - rewrite Z.min_l by lia.
    replace (n + d - 1) with (n - d + d - 1 + 1 * d) by lia.
    rewrite Z.div_add by lia. lia.
  - rewrite Z.min_r by lia. replace (n - n + d - 1) with (d - 1) by lia.
    rewrite (Z.div_small (d - 1)) by lia.
    assert (H : (n + d - 1) / d = 1); [|lia].
    replace (n + d - 1) with (n - 1 + 1 * d) by lia.
    rewrite Z.div_add by lia. rewrite Z.div_small; lia.
Qed.

Lemma to_size_t_small (n : Z) : 0 <= n < 2 ^ 64 -> to_size_t n = n.
Proof. intros H. unfold to_size_t. now apply Z.mod_small. Qed.

(** A step that finds bytes left in the scratch buffer and a socket that
    takes some of them. *)
Lemma io_pipe_send_accept BUFSIZE (w : pipe_env) (pp : pipe_t) (room : nat) (rest : list tx_event) :
  0 <= p_offset pp -> p_offset pp < p_datasize pp -> p_datasize pp < 2 ^ 64 ->
  tx (dst w) = TxAccept (S room) :: rest ->
  let b := p_datasize pp - p_offset pp in
  let k := Z.min b (Z.of_nat (S room)) in
  io_pipe BUFSIZE w pp =
  (0, mk_pipe (from_fd pp) (p_buf pp) (p_offset pp + k) (p_datasize pp),
   mk_env (src w)
          (mk_sock (rx (dst w)) (rx_end (dst w)) rest
                   (sent (dst w) ++ firstn (Z.to_nat k) (sub (p_buf pp) (p_offset pp) b)))
          (closed w) (read_fds_cpy w) (trace w ++ [SysSend b k])).
Proof.
  intros Ho Hlt Hds Htx b k. unfold io_pipe.
  destruct (Z.leb_spec (p_datasize pp) (p_offset pp)); [lia|].
  unfold pipe_send, send. rewrite Htx. fold b.
  rewrite to_size_t_small by lia. fold k.
  destruct (Z.eqb_spec k (-1)); [lia|reflexivity].
Qed.

(** A step that finds the scratch buffer exhausted and the file at its end. *)
Lemma io_pipe_eof BUFSIZE (w : pipe_env) (pp : pipe_t) :
  p_datasize pp <= p_offset pp -> io_error (src w) = false ->
  is_closed w (from_fd pp) = false -> content (src w) = [] ->
  exists pp' w',
    io_pipe BUFSIZE w pp = (1, pp', w') /\
    trace w' = trace w ++ [SysRead (from_fd pp) BUFSIZE 0; SysClose (from_fd pp)] /\
    closed w' = from_fd pp :: closed w /\ sent (dst w') = sent (dst w).
Proof.
  intros Hex He Hc Hn. unfold io_pipe.
  destruct (Z.leb_spec (p_datasize pp) (p_offset pp)); [|lia].
  unfold read. rewrite He, Hc, Hn. cbn [orb]. rewrite firstn_nil. cbn [length Z.of_nat].
  cbn [Z.eqb]. eexists _, _. split; [reflexivity|].
  cbn [remove_read_fd close trace closed dst]. rewrite <- app_assoc. auto.
Qed.

(** A step that refills the scratch buffer and hands its first bytes to a
    socket that takes some of them. *)
Lemma io_pipe_refill BUFSIZE (w : pipe_env) (pp : pipe_t) (room : nat) (rest : list tx_event) :
  0 < BUFSIZE < 2 ^ 64 ->
  p_datasize pp <= p_offset pp -> io_error (src w) = false ->
  is_closed w (from_fd pp) = false -> content (src w) <> [] ->
  tx (dst w) = TxAccept (S room) :: rest ->
  let data := firstn (Z.to_nat BUFSIZE) (content (src w)) in
  let r := Z.of_nat (length data) in
  let k := Z.min r (Z.of_nat (S room)) in
  0 < r /\ r = Z.min BUFSIZE (Z.of_nat (length (content (src w)))) /\
  io_pipe BUFSIZE w pp =
  (0, mk_pipe (from_fd pp) (store (p_buf pp) 0 data) k r,
   mk_env (mk_file (skipn (Z.to_nat BUFSIZE) (content (src w))) false)
          (mk_sock (rx (dst w)) (rx_end (dst w)) rest (sent (dst w) ++ firstn (Z.to_nat k) data))
          (closed w) (read_fds_cpy w)
          (trace w ++ [SysRead (from_fd pp) BUFSIZE r; SysSend r k])).
Proof.
  intros HB Hex He Hc Hn Htx data r k.
  assert (Hr : r = Z.min BUFSIZE (Z.of_nat (length (content (src w))))).
  { unfold r, data. rewrite length_firstn. lia. }
  assert (Hpos : 0 < r).
  { rewrite Hr. destruct (content (src w)); [congruence|cbn [length]; lia]. }
  split; [exact Hpos|]. split; [exact Hr|].
  unfold io_pipe.
  destruct (Z.leb_spec (p_datasize pp) (p_offset pp)); [|lia].
  unfold read. rewrite He, Hc. cbn [orb]. fold data. fold r.
  destruct (Z.eqb_spec r (-1)); [lia|].
  destruct (Z.eqb_spec r 0); [lia|].
  cbn [from_fd p_buf p_offset p_datasize].
  unfold pipe_send, send. cbn [dst src closed read_fds_cpy trace]. rewrite Htx.
  rewrite Z.sub_0_r. rewrite to_size_t_small by lia. fold k.
  destruct (Z.eqb_spec k (-1)); [lia|].
  rewrite Z.add_0_l. rewrite <- app_assoc. cbn [app].
  replace (sub (store (p_buf pp) 0 data) 0 r) with data; [reflexivity|].
  unfold sub, store. cbn [Z.to_nat firstn skipn app].
  unfold r. rewrite Nat2Z.id. now rewrite firstn_app_exact.
Qed.

Lemma count_if_cons (f : syscall -> bool) (e : syscall) (t : list syscall) :
  count_if f (e :: t) = (if f e then 1 else 0) + count_if f t.
Proof. unfold count_if. cbn [filter]. destruct (f e); cbn [length]; lia. Qed.

Lemma sub_store_prefix (m data : bytes) :
  sub (store m 0 data) 0 (Z.of_nat (length data)) = data.
Proof.
  unfold sub, store. cbn [Z.to_nat firstn skipn app].
  rewrite Nat2Z.id. now rewrite firstn_app_exact.
Qed.

(** Running the pipe to completion: from any state with [b] bytes left in the
    scratch buffer and [c] bytes left in the file, against a socket whose
    next [b + c] sends succeed. *)
Lemma pipe_run_completes BUFSIZE (m : nat) :
  0 < BUFSIZE < 2 ^ 64 ->
  forall (w : pipe_env) (pp : pipe_t),
    io_error (src w) = false -> is_closed w (from_fd pp) = false ->
    0 <= p_offset pp <= p_datasize pp -> p_datasize pp <= BUFSIZE ->
    forallb accepts (tx (dst w)) = true ->
    (Z.to_nat (p_datasize pp - p_offset pp) + length (content (src w)) <= m)%nat ->
    (m <= length (tx (dst w)))%nat ->
    exists fuel k t pp' w',
      (forall extra, pipe_run BUFSIZE (fuel + extra) w pp = (repeat 0 k ++ [1], pp', w')) /\
      trace w' = trace w ++ t ++ [SysRead (from_fd pp) BUFSIZE 0; SysClose (from_fd pp)] /\
      count_if is_read t = ceil_div (Z.of_nat (length (content (src w)))) BUFSIZE /\
      count_if is_refill t = count_if is_read t /\
      count_if is_close t = 0 /\
      closed w' = from_fd pp :: closed w /\
      sent (dst w') =
        sent (dst w) ++ sub (p_buf pp) (p_offset pp) (p_datasize pp - p_offset pp)
                     ++ content (src w).
Proof.
  intros HB. induction m as [|m IH]; intros w pp He Hc Hoff Hds Hacc Htot Hscript.
  - assert (Hb : p_datasize pp <= p_offset pp) by lia.
    assert (Hn : content (src w) = []) by (apply length_zero_iff_nil; lia).
    destruct (io_pipe_eof BUFSIZE w pp Hb He Hc Hn) as (pp' & w' & Hstep & Ht & Hcl & Hs).
    exists 1%nat, 0%nat, [], pp', w'. repeat split.
    + intros extra. cbn [Nat.add pipe_run]. rewrite Hstep. reflexivity.
    + exact Ht.
    + rewrite Hn. unfold ceil_div, count_if. cbn [length filter Z.of_nat].
      symmetry. apply Z.div_small. lia.
    + exact Hcl.
    + rewrite Hs, Hn. replace (p_datasize pp - p_offset pp) with 0 by lia.
      unfold sub. cbn. now rewrite !app_nil_r.
  - destruct (Z.le_gt_cases (p_datasize pp) (p_offset pp)) as [Hb|Hb].
    + destruct (content (src w)) as [|c0 cs] eqn:Hcont.
      * destruct (io_pipe_eof BUFSIZE w pp Hb He Hc Hcont) as (pp' & w' & Hstep & Ht & Hcl & Hs).
        exists 1%nat, 0%nat, [], pp', w'. repeat split.
        -- intros extra. cbn [Nat.add pipe_run]. rewrite Hstep. reflexivity.
        -- exact Ht.
        -- unfold ceil_div, count_if. cbn [length filter Z.of_nat].
           symmetry. apply Z.div_small. lia.
        -- exact Hcl.
        -- rewrite Hs. replace (p_datasize pp - p_offset pp) with 0 by lia.
           unfold sub. cbn. now rewrite !app_nil_r.
      * destruct (tx (dst w)) as [|e rest] eqn:Htx; [cbn in Hscript; lia|].
        cbn [forallb] in Hacc. apply andb_prop in Hacc. destruct Hacc as [Hacc1 Hacc2].
        destruct e as [[|room]| |]; try discriminate Hacc1.
        assert (Hne : content (src w) <> []) by (rewrite Hcont; discriminate).
        destruct (io_pipe_refill BUFSIZE w pp room rest HB Hb He Hc Hne Htx)
          as (Hrpos & Hr & Hstep).
        rewrite Hcont in Hr, Hstep. rewrite <- Hcont in Hr, Hstep.
        set (data := firstn (Z.to_nat BUFSIZE) (content (src w))) in *.
        set (r := Z.of_nat (length data)) in *.
        set (k := Z.min r (Z.of_nat (S room))) in *.
        match type of Hstep with _ = (_, ?p, ?e) => set (pp1 := p) in *; set (w1 := e) in * end.
        destruct (IH w1 pp1) as (fuel & n & t & pp' & w' & Hrun & Ht & Hreads & Hrefill & Hclose & Hcl & Hs).
        { reflexivity. }
        { exact Hc. }
        { unfold pp1. cbn [p_offset p_datasize]. lia. }
        { unfold pp1. cbn [p_offset p_datasize]. lia. }
        { exact Hacc2. }
        { unfold pp1, w1. cbn [p_offset p_datasize src content].
          rewrite length_skipn. rewrite Hcont in *. cbn [length] in *. lia. }
        { unfold w1. cbn [dst tx]. cbn [length] in Hscript. lia. }
        exists (S fuel), (S n), (SysRead (from_fd pp) BUFSIZE r :: SysSend r k :: t), pp', w'.
        split; [|split; [|split; [|split; [|split; [|split]]]]].
        -- intros extra. cbn [Nat.add pipe_run]. rewrite Hstep. cbn [Z.eqb].
           rewrite Hrun. reflexivity.
        -- rewrite Ht. unfold w1, pp1. cbn [trace from_fd]. rewrite <- !app_assoc. reflexivity.
        -- rewrite count_if_cons, count_if_cons. cbn [is_read]. rewrite Hreads.
           unfold w1. cbn [src content]. rewrite length_skipn.
           rewrite Hcont in *.
           rewrite (ceil_div_step (Z.of_nat (length (c0 :: cs))) BUFSIZE) by (cbn [length]; lia).
           rewrite Z.add_0_l. f_equal. f_equal. lia.
        -- rewrite !count_if_cons. cbn [is_read is_refill]. rewrite Hrefill.
           destruct (Z.ltb_spec 0 r); lia.
        -- rewrite !count_if_cons. cbn [is_close]. lia.
        -- rewrite Hcl. reflexivity.
        -- rewrite <- Hcont.
           rewrite Hs. unfold w1, pp1. cbn [dst sent p_buf p_offset p_datasize src content].
           replace (p_datasize pp - p_offset pp) with 0 by lia.
           rewrite <- !app_assoc. f_equal.
           replace (sub (p_buf pp) (p_offset pp) 0) with (@nil ascii) by (unfold sub; reflexivity).
           cbn [app]. rewrite app_assoc.
           rewrite <- (sub_store_prefix (p_buf pp) data) at 1. fold r.
           pose proof (sub_split (store (p_buf pp) 0 data) 0 k r) as Hsplit.
           rewrite Z.add_0_l in Hsplit. rewrite Hsplit by lia.
           unfold r. rewrite sub_store_prefix. unfold data. apply firstn_skipn.
    + destruct (tx (dst w)) as [|e rest] eqn:Htx; [cbn in Hscript; lia|].
      cbn [forallb] in Hacc. apply andb_prop in Hacc. destruct Hacc as [Hacc1 Hacc2].
      destruct e as [[|room]| |]; try discriminate Hacc1.
      pose proof (io_pipe_send_accept BUFSIZE w pp room rest) as Hstep.
      cbv zeta in Hstep. specialize (Hstep ltac:(lia) ltac:(lia) ltac:(lia) Htx).
      set (b := p_datasize pp - p_offset pp) in *.
      set (k := Z.min b (Z.of_nat (S room))) in *.
      match type of Hstep with _ = (_, ?p, ?e) => set (pp1 := p) in *; set (w1 := e) in * end.
      destruct (IH w1 pp1) as (fuel & n & t & pp' & w' & Hrun & Ht & Hreads & Hrefill & Hclose & Hcl & Hs).
      { exact He. }
      { exact Hc. }
      { unfold pp1. cbn [p_offset p_datasize]. lia. }
      { unfold pp1. cbn [p_offset p_datasize]. lia. }
      { exact Hacc2. }
      { unfold pp1, w1. cbn [p_offset p_datasize src]. lia. }
      { unfold w1. cbn [dst tx]. cbn [length] in Hscript. lia. }
      exists (S fuel), (S n), (SysSend b k :: t), pp', w'.
      split; [|split; [|split; [|split; [|split; [|split]]]]].
      * intros extra. cbn [Nat.add pipe_run]. rewrite Hstep. cbn [Z.eqb].
        rewrite Hrun. reflexivity.
      * rewrite Ht. unfold w1, pp1. cbn [trace from_fd]. rewrite <- !app_assoc. reflexivity.
      * rewrite count_if_cons. cbn [is_read]. rewrite Hreads. reflexivity.
      * rewrite !count_if_cons. cbn [is_read is_refill]. rewrite Hrefill. reflexivity.
      * rewrite count_if_cons. cbn [is_close]. lia.
      * rewrite Hcl. reflexivity.
      * rewrite Hs. unfold w1, pp1. cbn [dst sent p_buf p_offset p_datasize src].
        rewrite <- !app_assoc. f_equal. rewrite app_assoc. f_equal.
        replace (p_datasize pp - (p_offset pp + k)) with (b - k) by (unfold b; lia).
        apply sub_split; lia.
Qed.

(** C9: streaming a file of [N] bytes from a fresh pipe, with the source
    readable and every [send] taking at least one byte, ends after finitely
    many steps.  All steps but the last return 0 and the last returns 1
    (Done), so Done is reported once.  The reads that refill the scratch
    buffer number [ceil (N / BUFSIZE)]; they are all the reads but the final
    one, which returns 0 and is followed at once by the only [close] of the
    source descriptor.  The peer has received the file. *)
Theorem pipe_refill_count BUFSIZE (w : pipe_env) (fd : Z) :
  0 < BUFSIZE < 2 ^ 64 ->
  io_error (src w) = false -> is_closed w fd = false ->
  forallb accepts (tx (dst w)) = true ->
  (length (content (src w)) <= length (tx (dst w)))%nat ->
  exists fuel k t pp' w',
    (forall extra,
        pipe_run BUFSIZE (fuel + extra) w (init_pipe BUFSIZE fd) = (repeat 0 k ++ [1], pp', w')) /\
    trace w' = trace w ++ t ++ [SysRead fd BUFSIZE 0; SysClose fd] /\
    count_if is_refill t = ceil_div (Z.of_nat (length (content (src w)))) BUFSIZE /\
    count_if is_read t = count_if is_refill t /\
    count_if is_close t = 0 /\
    closed w' = fd :: closed w /\
    sent (dst w') = sent (dst w) ++ content (src w).
Proof.
  intros HB He Hc Hacc Hlen.
  destruct (pipe_run_completes BUFSIZE (length (content (src w))) HB w (init_pipe BUFSIZE fd))
    as (fuel & k & t & pp' & w' & Hrun & Ht & Hreads & Hrefill & Hclose & Hcl & Hs);
    try assumption; cbn [init_pipe from_fd p_offset p_datasize p_buf] in *; try lia.
  exists fuel, k, t, pp', w'.
  split; [exact Hrun|]. split; [exact Ht|]. split; [congruence|].
  split; [congruence|]. split; [exact Hclose|]. split; [exact Hcl|].
  rewrite Hs. reflexivity.
Qed.

Lemma pipe_refill_count_witness :
  exists fuel k t pp' w',
    (forall extra,
        pipe_run 8 (fuel + extra) Ex.env (init_pipe 8 7) = (repeat 0 k ++ [1], pp', w')) /\
    trace w' = t ++ [SysRead 7 8 0; SysClose 7] /\
    count_if is_refill t = 2 /\
    count_if is_read t = count_if is_refill t /\
    count_if is_close t = 0 /\
    closed w' = [7] /\
    sent (dst w') = literal "0123456789".
Proof.
  apply (pipe_refill_count 8 Ex.env 7); [lia | reflexivity | reflexivity | reflexivity | cbn; lia].
Defined.

(** ** The request line *)

Lemma code_inj (x y : ascii) : code x = code y -> x = y.
Proof.
  unfold code. intros H. apply Nat2Z.inj in H.
  rewrite <- (ascii_nat_embedding x), <- (ascii_nat_embedding y). now rewrite H.
Qed.

Lemma tolower_nul (y : ascii) : code (tolower y) = 0 -> y = zero.
Proof.
  destruct y as [[|] [|] [|] [|] [|] [|] [|] [|]]; vm_compute; intros H;
    first [reflexivity | discriminate H].
Qed.

Lemma strcicmp_zero (a b : bytes) :
  cstring a -> cstring b ->
  (strcicmp a b = 0 <-> map tolower a = map tolower b).
Proof.
  unfold cstring. revert b. induction a as [|x a IH]; intros [|y b] Ha Hb; cbn [strcicmp map].
  - tauto.
  - split; [|discriminate]. intros H. exfalso. apply Hb. left.
    apply tolower_nul. lia.
  - split; [|discriminate]. intros H. exfalso. apply Ha. left.
    apply tolower_nul. lia.
  - cbn [In] in Ha, Hb.
    destruct (Z.eqb_spec (code (tolower x) - code (tolower y)) 0) as [Hd|Hd].
    + assert (Hxy : tolower x = tolower y) by (apply code_inj; lia).
      rewrite IH by tauto. rewrite Hxy. split; [congruence|]. intros H. now inversion H.
    + split; [tauto|]. intros H. inversion H as [[Hxy Hab]]. rewrite Hxy in Hd. lia.
Qed.

Lemma strcicmp_ci_equal (a b : bytes) :
  cstring a -> cstring b -> (strcicmp a b =? 0) = ci_equal a b.
Proof.
  intros Ha Hb. unfold ci_equal.
  destruct (list_eq_dec ascii_dec (map tolower a) (map tolower b)) as [He|He].
  - apply Z.eqb_eq. now apply strcicmp_zero.
  - apply Z.eqb_neq. intros H. apply He. now apply strcicmp_zero.
Qed.

Lemma skip_ws_incl (l : bytes) (c : ascii) : In c (skip_ws l) -> In c l.
Proof.
  induction l as [|x l IH]; cbn [skip_ws]; [tauto|].
  destruct (isspace x); cbn [In]; tauto.
Qed.

Lemma scan_word_app (l : bytes) : l = fst (scan_word l) ++ snd (scan_word l).
Proof.
  induction l as [|x l IH]; cbn [scan_word]; [reflexivity|].
  destruct (isspace x); [reflexivity|].
  destruct (scan_word l) as [w r]. cbn [fst snd app] in *. now f_equal.
Qed.

(** One [%s] conversion reads the first word of the input and leaves the
    input that holds the remaining words. *)
Lemma scan_s_tokens (l : bytes) :
  match ws_tokens l with
  | [] => scan_s l = None
  | t :: ts => exists r, scan_s l = Some (t, r) /\ ws_tokens r = ts /\
                         (forall c, In c t -> In c l) /\ (forall c, In c r -> In c l)
  end.
Proof.
  induction l as [|c l IH]; [reflexivity|].
  cbn [ws_tokens]. unfold scan_s in *. cbn [skip_ws].
  destruct (isspace c) eqn:Hc.
  - destruct (ws_tokens l) as [|t ts]; [exact IH|].
    destruct IH as (r & Hs & Ht & H1 & H2). exists r. cbn [In]. intuition.
  - cbn [scan_word]. rewrite Hc.
    destruct l as [|d l'].
    + cbn [scan_word]. exists []. cbn [In ws_tokens]. auto.
    + destruct (isspace d) eqn:Hd.
      * cbn [scan_word]. rewrite Hd. exists (d :: l'). cbn [In]. intuition.
      * cbn [skip_ws] in IH. rewrite Hd in IH.
        destruct (ws_tokens (d :: l')) as [|t ts]; [discriminate IH|].
        destruct IH as (r & Hs & Ht & H1 & H2).
        destruct (scan_word (d :: l')) as [w0 r0]. inversion Hs; subst w0 r0.
        exists r. cbn [In]. split; [reflexivity|]. split; [exact Ht|].
        split; intros x; [intros [->|Hx]|intros Hx]; auto;
          right; [apply H1|apply H2]; exact Hx.
Qed.

Lemma sscanf_3s_tokens (line : bytes) :
  match ws_tokens line with
  | [] => sscanf_3s line = (-1, None, None, None)
  | [a] => sscanf_3s line = (1, Some a, None, None)
  | [a; b] => sscanf_3s line = (2, Some a, Some b, None)
  | a :: b :: c :: _ =>
      sscanf_3s line = (3, Some a, Some b, Some c) /\
      forall x, In x a \/ In x b \/ In x c -> In x line
  end.
Proof.
  unfold sscanf_3s. pose proof (scan_s_tokens line) as H1.
  destruct (ws_tokens line) as [|a ts]; [now rewrite H1|].
  destruct H1 as (r1 & -> & <- & Ha & Hr1).
  pose proof (scan_s_tokens r1) as H2.
  destruct (ws_tokens r1) as [|b ts]; [now rewrite H2|].
  destruct H2 as (r2 & -> & <- & Hb & Hr2).
  pose proof (scan_s_tokens r2) as H3.
  destruct (ws_tokens r2) as [|c ts]; [now rewrite H3|].
  destruct H3 as (r3 & -> & <- & Hc & Hr3).
  split; [reflexivity|]. intros x [Hx|[Hx|Hx]]; auto.
Qed.

Lemma in_literal_cstring (s : bytes) :
  forallb (fun c => negb (Ascii.eqb c zero)) s = true -> cstring s.
Proof.
  unfold cstring. intros H Hin. rewrite forallb_forall in H.
  specialize (H _ Hin). now rewrite Ascii.eqb_refl in H.
Qed.

(** C4, as amended: [parse_request_line] returns 400 when the line has fewer
    than three white-space-separated words; otherwise, with [m], [u], [v]
    the first three, it returns 405 when [m] is none of GET, HEAD, POST up to
    case, else 505 when [v] differs from [http_version] up to case, else 0;
    in these three cases the request holds [m] as method and [u] as uri and
    is otherwise unchanged (the version word is compared, not stored). *)
Theorem parse_request_line_outcomes (http_version : bytes) (req : http_request_t) (line : bytes) :
  cstring line -> cstring http_version ->
  ((length (ws_tokens line) < 3)%nat ->
   fst (parse_request_line http_version req line) = BAD_REQUEST) /\
  (forall m u v rest, ws_tokens line = m :: u :: v :: rest ->
   parse_request_line http_version req line =
   (if negb (allowed_method m) then METHOD_NOT_ALLOWED
    else if negb (ci_equal v http_version) then HTTP_VERSION_NOT_SUPPORTED
    else 0,
    set_uri (set_method req m) u)).
Proof.
  intros Hline Hver. pose proof (sscanf_3s_tokens line) as Hscan.
  unfold parse_request_line. split.
  - intros Hlen.
    destruct (ws_tokens line) as [|a [|b [|c ts]]]; try rewrite Hscan.
    + reflexivity.
    + reflexivity.
    + reflexivity.
    + cbn [length] in Hlen. lia.
  - intros m u v rest Htok. rewrite Htok in Hscan. destruct Hscan as [-> Hin].
    cbn [store_opt Z.ltb Z.compare method set_uri set_method].
    assert (Hm : cstring m) by (intros Hz; apply Hline, Hin; auto).
    assert (Hv : cstring v) by (intros Hz; apply Hline, Hin; auto).
    rewrite !strcicmp_ci_equal; try assumption; try (apply in_literal_cstring; reflexivity).
    unfold allowed_method. rewrite !negb_orb.
    destruct (_ && _); [reflexivity|]. cbn [negb].
    destruct (ci_equal v http_version); reflexivity.
Qed.

Lemma parse_request_line_outcomes_witness :
  parse_request_line Ex.version Ex.blank (literal "GET /index.html HTTP/1.1") =
    (0, mk_request (literal "GET") (literal "/index.html") [] (-1) None) /\
  fst (parse_request_line Ex.version Ex.blank (literal "GET /x")) = BAD_REQUEST /\
  parse_request_line Ex.version Ex.blank (literal "PUT /x HTTP/1.1") =
    (METHOD_NOT_ALLOWED, mk_request (literal "PUT") (literal "/x") [] (-1) None).
Proof.
  assert (Hv : cstring Ex.version) by (apply in_literal_cstring; reflexivity).
  split; [|split].
  - refine (proj2 (parse_request_line_outcomes Ex.version Ex.blank
                     (literal "GET /index.html HTTP/1.1") _ Hv) _ _ _ [] eq_refl).
    apply in_literal_cstring; reflexivity.
  - refine (proj1 (parse_request_line_outcomes Ex.version Ex.blank (literal "GET /x") _ Hv) _).
    + apply in_literal_cstring; reflexivity.
    + vm_compute; lia.
  - refine (proj2 (parse_request_line_outcomes Ex.version Ex.blank
                     (literal "PUT /x HTTP/1.1") _ Hv) _ _ _ [] eq_refl).
    apply in_literal_cstring; reflexivity.
Defined.

(** C4 as stated has the version stored in the request.  The request lines
    ["GET / HTTP/1.1"] and ["GET / http/1.1"] are both accepted and leave
    the same request behind, so nothing in the request tells which version
    word was read. *)
Lemma request_line_version_not_stored :
  parse_request_line Ex.version Ex.blank (literal "GET / HTTP/1.1") =
    (0, mk_request (literal "GET") (literal "/") [] (-1) None) /\
  parse_request_line Ex.version Ex.blank (literal "GET / http/1.1") =
    (0, mk_request (literal "GET") (literal "/") [] (-1) None) /\
  ~ (exists version_of : http_request_t -> bytes,
        forall line m u v,
          ws_tokens line = [m; u; v] ->
          fst (parse_request_line Ex.version Ex.blank line) = 0 ->
          version_of (snd (parse_request_line Ex.version Ex.blank line)) = v).
Proof.
  split; [reflexivity|]. split; [reflexivity|].
  intros [f Hf].
  pose proof (Hf (literal "GET / HTTP/1.1") _ _ _ eq_refl eq_refl) as H1.
  pose proof (Hf (literal "GET / http/1.1") _ _ _ eq_refl eq_refl) as H2.
  vm_compute in H1, H2. rewrite H1 in H2. discriminate H2.
Qed.

(** ** Header lines *)

Lemma drop_spaces_snoc (l : bytes) :
  drop_spaces (l ++ [" "%char]) =
  match drop_spaces l with [] => [] | _ => drop_spaces l ++ [" "%char] end.
Proof.
  induction l as [|x l IH]; [reflexivity|].
  cbn [app drop_spaces]. destruct (is_sp x); [exact IH | reflexivity].
Qed.

Lemma trim_spaces_cons_sp (l : bytes) : trim_spaces (" "%char :: l) = trim_spaces l.
Proof. reflexivity. Qed.

Lemma trim_spaces_snoc_sp (l : bytes) : trim_spaces (l ++ [" "%char]) = trim_spaces l.
Proof.
  unfold trim_spaces. rewrite drop_spaces_snoc.
  destruct (drop_spaces l) as [|x l'] eqn:Hd; [reflexivity|].
  rewrite rev_app_distr. reflexivity.
Qed.

Lemma drop_spaces_head (x : ascii) (l : bytes) :
  is_sp x = false -> drop_spaces (x :: l) = x :: l.
Proof. intros H. cbn [drop_spaces]. now rewrite H. Qed.

(** A string that neither starts nor ends with a space is its own trimming. *)
Lemma trim_spaces_fixed (x y : ascii) (m : bytes) :
  is_sp x = false -> is_sp y = false ->
  trim_spaces [x] = [x] /\ trim_spaces (x :: m ++ [y]) = x :: m ++ [y].
Proof.
  intros Hx Hy. unfold trim_spaces. split.
  - rewrite drop_spaces_head by assumption. cbn [rev app].
    rewrite drop_spaces_head by assumption. reflexivity.
  - rewrite drop_spaces_head by assumption.
    change (x :: m ++ [y]) with ((x :: m) ++ [y]). rewrite rev_app_distr. cbn [rev app].
    rewrite drop_spaces_head by assumption.
    change (y :: rev m ++ [x]) with ([y] ++ rev (x :: m)).
    rewrite rev_app_distr, rev_involutive. reflexivity.
Qed.

Lemma sub_cons (s : bytes) (hd n : Z) :
  0 <= hd < Z.of_nat (length s) -> 0 <= n ->
  sub s hd (n + 1) = deref s hd :: sub s (hd + 1) n.
Proof.
  intros Hh Hn. unfold sub, deref.
  replace (Z.to_nat (n + 1)) with (S (Z.to_nat n)) by lia.
  replace (Z.to_nat (hd + 1)) with (S (Z.to_nat hd)) by lia.
  assert (Hlt : (Z.to_nat hd < length s)%nat) by lia.
  revert Hlt. generalize (Z.to_nat hd) as k. clear. revert s.
  induction s as [|x s IH]; intros k Hk; [cbn in Hk; lia|].
  destruct k as [|k]; [reflexivity|].
  cbn [skipn nth]. apply IH. cbn [length] in Hk. lia.
Qed.

Lemma sub_snoc (s : bytes) (hd n : Z) :
  0 <= hd -> 0 <= n -> hd + n < Z.of_nat (length s) ->
  sub s hd (n + 1) = sub s hd n ++ [deref s (hd + n)].
Proof.
  intros Hh Hn Hlt.
  rewrite <- (sub_split s hd n (n + 1)) by lia.
  replace (n + 1 - n) with (0 + 1) by lia.
  rewrite (sub_cons s (hd + n) 0) by lia.
  unfold sub. rewrite firstn_firstn_le by lia. reflexivity.
Qed.

Lemma between_empty (s : bytes) (hd tl : Z) : hd > tl -> between s hd tl = [].
Proof.
  intros H. unfold between, sub. replace (Z.to_nat (tl - hd + 1)) with 0%nat by lia. reflexivity.
Qed.

(** What the loop of [copy_trimmed_string] computes. *)
Lemma trim_loop_spec (s : bytes) (hd tl : Z) :
  0 <= hd -> tl < Z.of_nat (length s) ->
  let '(hd', tl') := trim_loop s hd tl in
  (hd' > tl' -> trim_spaces (between s hd tl) = []) /\
  (hd' <= tl' -> trim_spaces (between s hd tl) = between s hd' tl' /\
                 between s hd' tl' <> []).
Proof.
  funelim (trim_loop s hd tl); intros Hh Ht.
  all: try match goal with H : _ -> _ -> _ |- _ => specialize (H ltac:(lia) ltac:(lia)) end.
  all: repeat match goal with
         | H : is_sp _ = true |- _ => unfold is_sp in H; apply Ascii.eqb_eq in H
         end.
  - rewrite between_empty by lia. split; [reflexivity | lia].
  - (* both ends are spaces *)
    destruct (trim_loop s (hd + 1) (tl - 1)) as [hd' tl'].
    assert (Hb : trim_spaces (between s hd tl) = trim_spaces (between s (hd + 1) (tl - 1))).
    { destruct (Z.eq_dec hd tl) as [->|Hne].
      - rewrite (between_empty s (tl + 1) (tl - 1)) by lia.
        unfold between. replace (tl - tl + 1) with (0 + 1) by lia.
        rewrite sub_cons by lia.
        match goal with H : deref s tl = _ |- _ => rewrite H end. reflexivity.
      - unfold between. rewrite sub_cons by lia.
        match goal with H : deref s hd = _ |- _ => rewrite H end.
        rewrite trim_spaces_cons_sp.
        replace (tl - hd) with (tl - 1 - (hd + 1) + 1 + 1) by lia.
        rewrite sub_snoc by lia.
        replace (hd + 1 + (tl - 1 - (hd + 1) + 1)) with tl by lia.
        match goal with H : deref s tl = _ |- _ => rewrite H end.
        apply trim_spaces_snoc_sp. }
    rewrite Hb. assumption.
  - (* a space at the head only *)
    destruct (trim_loop s (hd + 1) tl) as [hd' tl'].
    assert (Hb : trim_spaces (between s hd tl) = trim_spaces (between s (hd + 1) tl)).
    { unfold between. rewrite sub_cons by lia.
      match goal with H : deref s hd = _ |- _ => rewrite H end.
      rewrite trim_spaces_cons_sp. f_equal. f_equal. lia. }
    rewrite Hb. assumption.
  - (* a space at the tail only *)
    destruct (trim_loop s hd (tl - 1)) as [hd' tl'].
    assert (Hb : trim_spaces (between s hd tl) = trim_spaces (between s hd (tl - 1))).
    { unfold between. replace (tl - hd + 1) with (tl - 1 - hd + 1 + 1) by lia.
      rewrite sub_snoc by lia. replace (hd + (tl - 1 - hd + 1)) with tl by lia.
      match goal with H : deref s tl = _ |- _ => rewrite H end.
      apply trim_spaces_snoc_sp. }
    rewrite Hb. assumption.
  - (* neither end is a space *)
    assert (Hb : between s hd tl = deref s hd :: sub s (hd + 1) (tl - hd)).
    { unfold between. apply sub_cons; lia. }
    split; [lia|]. intros _.
    destruct (Z.eq_dec hd tl) as [->|Hne].
    + rewrite Hb. replace (tl - tl) with 0 by lia.
      unfold sub. cbn [Z.to_nat firstn].
      split; [|discriminate].
      now apply (trim_spaces_fixed (deref s tl) (deref s tl) []).
    + rewrite Hb. split; [|discriminate].
      replace (tl - hd) with (tl - hd - 1 + 1) by lia.
      rewrite sub_snoc by lia.
      replace (hd + 1 + (tl - hd - 1)) with tl by lia.
      now apply trim_spaces_fixed.
Qed.

Lemma copy_trimmed_string_spec (s : bytes) (hd tl : Z) :
  0 <= hd -> tl < Z.of_nat (length s) ->
  copy_trimmed_string s hd tl =
  match trim_spaces (between s hd tl) with
  | [] => None
  | t => Some t
  end.
Proof.
  intros Hh Ht. unfold copy_trimmed_string.
  pose proof (trim_loop_spec s hd tl Hh Ht) as H.
  destruct (trim_loop s hd tl) as [hd' tl']. destruct H as [H1 H2].
  destruct (Z.gtb_spec hd' tl') as [Hgt|Hle].
  - rewrite H1 by lia. reflexivity.
  - destruct (H2 Hle) as [He Hn]. rewrite He. fold (between s hd' tl').
    destruct (between s hd' tl'); [congruence | reflexivity].
Qed.

Lemma strchr_none (s : bytes) (c : ascii) : strchr s c = None -> ~ In c s.
Proof.
  induction s as [|x s IH]; cbn [strchr In]; [tauto|].
  destruct (Ascii.eqb_spec x c) as [->|Hne]; [discriminate|].
  destruct (strchr s c); [discriminate|]. intros _ [H|H]; [congruence | now apply IH].
Qed.

Lemma strchr_some (s : bytes) (c : ascii) (i : Z) :
  strchr s c = Some i ->
  exists k r, s = k ++ c :: r /\ ~ In c k /\ i = Z.of_nat (length k).
Proof.
  revert i. induction s as [|x s IH]; intros i; cbn [strchr]; [discriminate|].
  destruct (Ascii.eqb_spec x c) as [->|Hne].
  - intros [= <-]. exists [], s. cbn. tauto.
  - destruct (strchr s c) as [j|]; [|discriminate]. intros [= <-].
    destruct (IH j eq_refl) as (k & r & -> & Hk & ->).
    exists (x :: k), r. cbn [app In length]. split; [reflexivity|].
    split; [intros [H|H]; [congruence | tauto] | lia].
Qed.

Lemma split_first_unique (c : ascii) (k k' v v' : bytes) :
  k ++ c :: v = k' ++ c :: v' -> ~ In c k -> ~ In c k' -> k = k' /\ v = v'.
Proof.
  revert k'. induction k as [|x k IH]; intros [|y k'] He Hk Hk'; cbn [app In] in *.
  - inversion He. auto.
  - inversion He. subst. tauto.
  - inversion He. subst. tauto.
  - inversion He. subst. destruct (IH k') as [-> ->]; tauto.
Qed.

Lemma sub_prefix (k r : bytes) : sub (k ++ r) 0 (Z.of_nat (length k)) = k.
Proof. unfold sub. cbn [Z.to_nat skipn]. rewrite Nat2Z.id. now apply firstn_app_exact. Qed.

Lemma sub_suffix (k r : bytes) :
  sub (k ++ r) (Z.of_nat (length k)) (Z.of_nat (length r)) = r.
Proof.
  unfold sub. rewrite !Nat2Z.id, skipn_app, Nat.sub_diag, skipn_all. cbn [skipn app].
  apply firstn_all.
Qed.

(** The two calls of [copy_trimmed_string] in [parse_header] see the text
    before the first [':'] and the text after it. *)
Lemma parse_header_split (req : http_request_t) (k v : bytes) :
  cstring (k ++ ":"%char :: v) -> ~ In ":"%char k ->
  parse_header req (k ++ ":"%char :: v) =
  match k, v, trim_spaces k, trim_spaces v with
  | _ :: _, _ :: _, (_ :: _) as tk, (_ :: _) as tv =>
      (0, set_headers req (mk_header tk tv :: headers req))
  | _, _, _, _ => (-1, req)
  end.
Proof.
  intros Hc Hk. unfold parse_header.
  destruct (strchr (k ++ ":"%char :: v) ":") as [i|] eqn:Hs.
  2:{ apply strchr_none in Hs. exfalso. apply Hs, in_or_app. right. now left. }
  destruct (strchr_some _ _ _ Hs) as (k' & v' & He & Hk' & ->).
  destruct (split_first_unique _ _ _ _ _ He Hk Hk') as [<- <-]. clear He Hk' Hs.
  set (line := k ++ ":"%char :: v) in *.
  assert (Hd : deref line (Z.of_nat (length k) + 1) = match v with [] => zero | x :: _ => x end).
  { unfold deref, line. replace (Z.to_nat (Z.of_nat (length k) + 1)) with (length k + 1)%nat by lia.
    rewrite app_nth2 by lia. replace (length k + 1 - length k)%nat with 1%nat by lia.
    destruct v; reflexivity. }
  rewrite Hd.
  destruct v as [|x v].
  { rewrite Ascii.eqb_refl. cbn [orb]. destruct k; reflexivity. }
  assert (Hx : x <> zero).
  { intros ->. apply Hc. unfold line. apply in_or_app. right. right. now left. }
  destruct (Ascii.eqb_spec x zero) as [|_]; [contradiction|]. cbn [orb].
  destruct k as [|y k]; [reflexivity|].
  destruct (Z.eqb_spec (Z.of_nat (length (y :: k))) 0) as [H0|_]; [cbn [length] in H0; lia|].
  assert (Hlen : strlen line = Z.of_nat (length (y :: k)) + 1 + Z.of_nat (length (x :: v))).
  { unfold strlen, line. rewrite length_app. cbn [length]. lia. }
  rewrite !copy_trimmed_string_spec; unfold strlen in *; try lia.
  assert (Hbk : between line 0 (Z.of_nat (length (y :: k)) - 1) = y :: k).
  { unfold between. replace (Z.of_nat (length (y :: k)) - 1 - 0 + 1)
      with (Z.of_nat (length (y :: k))) by lia. apply sub_prefix. }
  assert (Hbv : between line (Z.of_nat (length (y :: k)) + 1) (Z.of_nat (length line) - 1) = x :: v).
  { unfold between. rewrite Hlen.
    replace (Z.of_nat (length (y :: k)) + 1 + Z.of_nat (length (x :: v)) - 1 -
             (Z.of_nat (length (y :: k)) + 1) + 1) with (Z.of_nat (length (x :: v))) by lia.
    unfold line. change (y :: k) with ([] ++ y :: k).
    replace ((([] ++ y :: k) ++ ":"%char :: x :: v)) with ((y :: k ++ [":"%char]) ++ x :: v)
      by (cbn [app]; rewrite <- app_assoc; reflexivity).
    replace (Z.of_nat (length ([] ++ y :: k)) + 1) with (Z.of_nat (length (y :: k ++ [":"%char])))
      by (cbn [app length]; rewrite length_app; cbn [length]; lia).
    apply sub_suffix. }
  rewrite Hbk, Hbv.
  destruct (trim_spaces (y :: k)); [reflexivity|].
  destruct (trim_spaces (x :: v)); reflexivity.
Qed.

(** C6: [parse_header] rejects a line exactly when the line has no [':'],
    or its first [':'] is its first or its last character, or the text
    before or after that [':'] is empty once leading and trailing spaces
    (the character 32 only) are removed; a rejected line leaves the request
    as it was, an accepted one puts the entry made of the two trimmed texts
    at the head of the header list. *)
Theorem parse_header_validity (req : http_request_t) (line : bytes) :
  cstring line ->
  (fst (parse_header req line) = -1 <-> header_invalid line) /\
  (fst (parse_header req line) = -1 -> snd (parse_header req line) = req) /\
  (forall k v, line = k ++ ":"%char :: v -> ~ In ":"%char k ->
               fst (parse_header req line) <> -1 ->
               parse_header req line =
               (0, set_headers req (mk_header (trim_spaces k) (trim_spaces v) :: headers req))).
Proof.
  intros Hc.
  destruct (strchr line ":") as [i|] eqn:Hs.
  - destruct (strchr_some _ _ _ Hs) as (k & v & -> & Hk & _).
    pose proof (parse_header_split req k v Hc Hk) as Hp.
    split; [|split].
    + rewrite Hp. split.
      * intros H. right. exists k, v. split; [reflexivity|]. split; [assumption|].
        destruct k; [auto|]. destruct v; [auto|].
        destruct (trim_spaces (a :: k)); [auto|].
        destruct (trim_spaces (a0 :: v)); [auto|]. discriminate H.
      * intros [Hno|(k' & v' & He & Hk' & Hcase)].
        { exfalso. apply Hno, in_or_app. right. now left. }
        destruct (split_first_unique _ _ _ _ _ He Hk Hk') as [<- <-].
        destruct k; [reflexivity|]. destruct v; [reflexivity|].
        destruct Hcase as [H|[H|[H|H]]]; try discriminate H; rewrite H; [reflexivity|].
        destruct (trim_spaces (a :: k)); reflexivity.
    + rewrite Hp. destruct k; [reflexivity|]. destruct v; [reflexivity|].
      destruct (trim_spaces (a :: k)); [reflexivity|].
      destruct (trim_spaces (a0 :: v)); [reflexivity|]. discriminate.
    + intros k' v' He Hk' Hok.
      destruct (split_first_unique _ _ _ _ _ He Hk Hk') as [<- <-].
      rewrite Hp in *. destruct k; [now elim Hok|]. destruct v; [now elim Hok|].
      destruct (trim_spaces (a :: k)); [now elim Hok|].
      destruct (trim_spaces (a0 :: v)); [now elim Hok|]. reflexivity.
  - pose proof (strchr_none _ _ Hs) as Hno.
    unfold parse_header. rewrite Hs. cbn [fst snd]. split; [|split].
    + split; [intros _; now left | reflexivity].
    + reflexivity.
    + intros k v -> _ _. exfalso. apply Hno, in_or_app. right. now left.
Qed.

Lemma parse_header_validity_witness :
  cstring (literal "Content-Length: 10") /\
  parse_header Ex.blank (literal "Content-Length: 10") =
    (0, set_headers Ex.blank [mk_header (literal "Content-Length") (literal "10")]) /\
  snd (parse_header Ex.blank (literal "X:")) = Ex.blank.
Proof.
  assert (H1 : cstring (literal "Content-Length: 10")) by (apply in_literal_cstring; reflexivity).
  assert (H2 : cstring (literal "X:")) by (apply in_literal_cstring; reflexivity).
  split; [exact H1|]. split.
  - refine (proj2 (proj2 (parse_header_validity Ex.blank (literal "Content-Length: 10") H1))
                  (literal "Content-Length") (literal " 10") eq_refl _ _).
    + intros [H|[H|[H|[H|[H|[H|[H|[H|[H|[H|[H|[H|[H|[H|[]]]]]]]]]]]]]]]; discriminate H.
    + vm_compute. discriminate.
  - exact (proj1 (proj2 (parse_header_validity Ex.blank (literal "X:") H2)) eq_refl).
Defined.

(** ** The header list *)

Lemma find_header_app (hs1 hs2 : list http_header_t) (k : bytes) :
  find_header (hs1 ++ hs2) k =
  match find_header hs1 k with Some v => Some v | None => find_header hs2 k end.
Proof.
  induction hs1 as [|h hs1 IH]; [reflexivity|].
  cbn [app find_header]. destruct (bytes_eqb (key h) k); [reflexivity | exact IH].
Qed.

Lemma find_header_absent (hs : list http_header_t) (k : bytes) :
  (forall h, In h hs -> key h <> k) -> find_header hs k = None.
Proof.
  induction hs as [|h hs IH]; intros H; [reflexivity|].
  cbn [find_header]. unfold bytes_eqb.
  destruct (list_eq_dec ascii_dec (key h) k) as [He|_].
  - exfalso. apply (H h); [now left | exact He].
  - apply IH. intros h' Hin. apply H. now right.
Qed.

Lemma parse_header_prepends (req : http_request_t) (line : bytes) :
  fst (parse_header req line) = -1 \/
  exists e, forall r, parse_header r line = (0, set_headers r (e :: headers r)).
Proof.
  unfold parse_header.
  destruct (strchr line ":") as [i|]; [|now left].
  destruct (_ || _); [now left|].
  destruct (copy_trimmed_string line 0 (i - 1)) as [k|]; [|now left].
  destruct (copy_trimmed_string line (i + 1) (strlen line - 1)) as [v|]; [|now left].
  right. exists (mk_header k v). reflexivity.
Qed.

(** C7: when a sequence of header lines is parsed without a rejection, the
    entries of the lines are in the request's list in reverse parse order,
    ahead of the entries that were there; so a lookup that returns the first
    match returns, for a key that occurs in the lines, the value of its
    textually last occurrence. *)
Theorem header_list_order (req req' : http_request_t) (lines : list bytes) :
  parse_headers req lines = (0, req') ->
  exists es,
    Forall2 (fun line e => forall r, parse_header r line = (0, set_headers r (e :: headers r)))
            lines es /\
    req' = set_headers req (rev es ++ headers req) /\
    (forall es1 e es2,
        es = es1 ++ e :: es2 -> (forall e', In e' es2 -> key e' <> key e) ->
        get_request_header req' (key e) = Some (val e)).
Proof.
  revert req. induction lines as [|line rest IH]; intros req Hp; cbn [parse_headers] in Hp.
  - inversion Hp; subst. exists []. split; [constructor|].
    split; [destruct req'; reflexivity|]. intros [|? ?] ? ? H; discriminate H.
  - destruct (parse_header_prepends req line) as [Hfail|[e He]].
    + destruct (parse_header req line) as [ret r1]. cbn [fst] in Hfail. subst ret.
      cbn [Z.eqb] in Hp. discriminate Hp.
    + rewrite He in Hp. cbn [Z.eqb] in Hp.
      destruct (IH _ Hp) as (es & Hall & Hreq & Hlook).
      exists (e :: es). split; [now constructor|].
      assert (Hreq' : req' = set_headers req (rev (e :: es) ++ headers req)).
      { rewrite Hreq. unfold set_headers. cbn [method uri headers content_len body rev].
        now rewrite <- app_assoc. }
      split; [exact Hreq'|].
      intros es1 e0 es2 Hsplit Hlast.
      destruct es1 as [|e1 es1]; cbn [app] in Hsplit; inversion Hsplit; subst.
      * rewrite Hreq'. unfold get_request_header. cbn [set_headers headers rev].
        rewrite <- app_assoc, find_header_app.
        rewrite find_header_absent.
        -- cbn [app find_header]. unfold bytes_eqb.
           destruct (list_eq_dec ascii_dec (key e0) (key e0)); [reflexivity | congruence].
        -- intros h Hin. apply Hlast. now apply in_rev.
      * now apply (Hlook es1 e0 es2).
Qed.

Lemma header_list_order_witness :
  exists req',
    parse_headers Ex.blank [literal "Host: a"; literal "Accept: x"; literal "Host: b"] = (0, req') /\
    headers req' = [mk_header (literal "Host") (literal "b");
                    mk_header (literal "Accept") (literal "x");
                    mk_header (literal "Host") (literal "a")] /\
    get_request_header req' (literal "Host") = Some (literal "b").
Proof.
  eexists. split; [reflexivity|]. split; [reflexivity|].
  destruct (header_list_order Ex.blank _ [literal "Host: a"; literal "Accept: x"; literal "Host: b"]
              eq_refl) as (es & _ & Hreq & Hlook).
  assert (Hes : es = [mk_header (literal "Host") (literal "a");
                      mk_header (literal "Accept") (literal "x");
                      mk_header (literal "Host") (literal "b")]).
  { apply (f_equal headers) in Hreq. cbn [set_headers headers Ex.blank] in Hreq.
    rewrite app_nil_r in Hreq. apply (f_equal (@rev _)) in Hreq.
    rewrite rev_involutive in Hreq. rewrite <- Hreq. reflexivity. }
  apply (Hlook [mk_header (literal "Host") (literal "a"); mk_header (literal "Accept") (literal "x")]
               (mk_header (literal "Host") (literal "b")) []); [exact Hes|].
  intros e' [].
Defined.


(** ** The parser *)

(** One turn of the header loop. *)
Lemma header_loop_step cfg os (ret : Z) (c : http_client_t) :
  header_loop cfg os ret c =
  match req c with
  | None => LDone c
  | Some r =>
      if content_len r =? -1
      then
        let '(n, line, c1) := client_readline cfg c in
        if n >? 0
        then
          if strlen line =? 0 then end_of_headers cfg os ret c1
          else
            let '(ret', r') := parse_header r line in
            if ret' =? -1
            then let '(x, c2) := end_request cfg os c1 BAD_REQUEST in LReturn x c2
            else header_loop cfg os ret' (set_req c1 (Some r'))
        else LDone c1
      else LDone c
  end.
Proof.
  funelim (header_loop cfg os ret c).
  all: try match goal with H : req _ = _ |- _ => rewrite H end.
  all: try match goal with H : content_len _ = -1 |- _ => rewrite H; cbn [Z.eqb Pos.eqb] end.
  all: try match goal with H : client_readline _ _ = _ |- _ => rewrite H end.
  all: try match goal with H : parse_header _ _ = _ |- _ => rewrite H end.
  all: try match goal with |- context [?n >? 0] => destruct (Z.gtb_spec n 0); try lia end.
  all: try match goal with |- context [content_len ?r =? -1] =>
                             destruct (Z.eqb_spec (content_len r) (-1)); try lia end.
  all: try match goal with |- context [strlen ?l =? 0] =>
                             destruct (Z.eqb_spec (strlen l) 0); try lia end.
  all: try match goal with |- context [?x =? -1] =>
                             destruct (Z.eqb_spec x (-1)); try lia end.
  all: try reflexivity.
Qed.

(** *** The parser does not look at the capacity of the input buffer *)

Lemma valid_norm_buf (b : buf_t) : valid (norm_buf b) = valid b.
Proof. unfold valid, norm_buf. cbn [datasize buf]. apply firstn_firstn_le. lia. Qed.

Lemma client_readline_norm cfg (c : http_client_t) :
  client_readline cfg (norm c) =
  let '(n, line, c1) := client_readline cfg c in (n, line, norm c1).
Proof.
  unfold client_readline, norm. cbn [c_in set_in]. rewrite valid_norm_buf.
  cbn [pos norm_buf].
  destruct (find_lf _) as [i|]; [|reflexivity].
  destruct (_ <=? _); reflexivity.
Qed.

Lemma fold_close_fd_set_in (l : list Z) (c : http_client_t) (b : buf_t) :
  fold_left close_fd l (set_in c b) = set_in (fold_left close_fd l c) b.
Proof.
  revert c. induction l as [|fd l IH]; intros c; [reflexivity|]. cbn [fold_left].
  change (close_fd (set_in c b) fd) with (set_in (close_fd c fd) b). apply IH.
Qed.

Lemma end_request_set_in cfg os (c : http_client_t) (b : buf_t) (code_ : Z) :
  end_request cfg os (set_in c b) code_ =
  let '(r, c') := end_request cfg os c code_ in (r, set_in c' b).
Proof. reflexivity. Qed.

Lemma internal_handler_set_in cfg os (c : http_client_t) (b : buf_t) (flag : handler) :
  internal_handler cfg os (set_in c b) flag =
  let '(r, c') := internal_handler cfg os c flag in (r, set_in c' b).
Proof.
  unfold internal_handler. cbn [req set_in].
  destruct (req c) as [r|]; [|reflexivity].
  destruct (open_file cfg os (uri r)) as [[code_|[[[fd size] mt] lm]] fds];
    rewrite fold_close_fd_set_in; [reflexivity|].
  destruct (connection_close r); destruct flag; reflexivity.
Qed.

Lemma after_handler_set_in cfg os (ret : Z) (c : http_client_t) (b : buf_t) :
  after_handler cfg os ret (set_in c b) =
  let '(r, c') := after_handler cfg os ret c in (r, set_in c' b).
Proof.
  unfold after_handler. destruct (negb (ret =? 0)); [apply end_request_set_in|].
  cbn [req set_in]. reflexivity.
Qed.

Lemma handle_get_set_in cfg os (c : http_client_t) (b : buf_t) :
  handle_get cfg os (set_in c b) = let '(r, c') := handle_get cfg os c in (r, set_in c' b).
Proof.
  unfold handle_get.
  change (set_status (enter (set_in c b) H_GET) C_PIPING)
    with (set_in (set_status (enter c H_GET) C_PIPING) b).
  apply internal_handler_set_in.
Qed.

Lemma handle_head_set_in cfg os (c : http_client_t) (b : buf_t) :
  handle_head cfg os (set_in c b) = let '(r, c') := handle_head cfg os c in (r, set_in c' b).
Proof.
  unfold handle_head.
  change (set_status (enter (set_in c b) H_HEAD) C_IDLE)
    with (set_in (set_status (enter c H_HEAD) C_IDLE) b).
  apply internal_handler_set_in.
Qed.

Lemma internal_handler_req cfg os (c : http_client_t) (flag : handler) :
  req (snd (internal_handler cfg os c flag)) = req c.
Proof.
  unfold internal_handler. destruct (req c) as [r|] eqn:Hr; [|exact Hr].
  assert (Hf : forall l c0, req (fold_left close_fd l c0) = req c0).
  { induction l as [|fd l IH]; intros c0; [reflexivity|]. cbn [fold_left]. now rewrite IH. }
  destruct (open_file cfg os (uri r)) as [[code_|[[[fd size] mt] lm]] fds]; cbn [snd].
  - now rewrite Hf.
  - destruct (connection_close r); destruct flag; cbn [snd req set_pipe close_fd
      client_write_string send_header send_response_line set_out]; now rewrite Hf.
Qed.

Lemma end_of_headers_set_in cfg os (ret : Z) (c : http_client_t) (b : buf_t) :
  end_of_headers cfg os ret (set_in c b) =
  map_exit (fun c' => set_in c' b) (end_of_headers cfg os ret c).
Proof.
  unfold end_of_headers.
  replace (method_is (set_in c b) "GET") with (method_is c "GET") by reflexivity.
  destruct (method_is c "GET").
  - rewrite handle_get_set_in. destruct (handle_get cfg os c) as [r1 c1].
    replace (method_is (set_in c1 b) "POST") with (method_is c1 "POST") by reflexivity.
    destruct (method_is c1 "POST").
    + cbn [req set_in]. destruct (req c1) as [r|]; [|reflexivity].
      destruct (get_request_header r _) as [v|]; [|reflexivity].
      destruct (strlen v =? 0); [reflexivity|].
      destruct (negb (all_digits v)); reflexivity.
    + replace (method_is (set_in c1 b) "HEAD") with (method_is c1 "HEAD") by reflexivity.
      destruct (method_is c1 "HEAD").
      * rewrite handle_head_set_in. destruct (handle_head cfg os c1) as [r2 c2].
        rewrite after_handler_set_in. destruct (after_handler cfg os r2 c2). reflexivity.
      * rewrite after_handler_set_in. destruct (after_handler cfg os r1 c1). reflexivity.
  - replace (method_is (set_in c b) "POST") with (method_is c "POST") by reflexivity.
    destruct (method_is c "POST").
    + cbn [req set_in]. destruct (req c) as [r|]; [|reflexivity].
      destruct (get_request_header r _) as [v|]; [|reflexivity].
      destruct (strlen v =? 0); [reflexivity|].
      destruct (negb (all_digits v)); reflexivity.
    + replace (method_is (set_in c b) "HEAD") with (method_is c "HEAD") by reflexivity.
      destruct (method_is c "HEAD").
      * rewrite handle_head_set_in. destruct (handle_head cfg os c) as [r2 c2].
        rewrite after_handler_set_in. destruct (after_handler cfg os r2 c2). reflexivity.
      * rewrite after_handler_set_in. destruct (after_handler cfg os ret c). reflexivity.
Qed.

Lemma set_in_same (c : http_client_t) : set_in c (c_in c) = c.
Proof. destruct c; reflexivity. Qed.

Lemma end_of_headers_norm cfg os (ret : Z) (c : http_client_t) :
  end_of_headers cfg os ret (norm c) = map_exit norm (end_of_headers cfg os ret c).
Proof.
  unfold norm at 1. rewrite end_of_headers_set_in.
  rewrite <- (set_in_same c) at 2. rewrite end_of_headers_set_in.
  destruct (end_of_headers cfg os ret c); reflexivity.
Qed.

Lemma end_request_norm cfg os (c : http_client_t) (code_ : Z) :
  end_request cfg os (norm c) code_ =
  let '(r, c') := end_request cfg os c code_ in (r, norm c').
Proof. reflexivity. Qed.

Lemma after_handler_norm cfg os (ret : Z) (c : http_client_t) :
  after_handler cfg os ret (norm c) =
  let '(r, c') := after_handler cfg os ret c in (r, norm c').
Proof.
  unfold after_handler. destruct (negb (ret =? 0)); [reflexivity|].
  cbn [req norm set_in]. reflexivity.
Qed.

(** Induction along the header loop: each turn leaves fewer unread bytes. *)
Lemma unread_induction (P : http_client_t -> Prop) :
  (forall c, (forall c', (unread_len c' < unread_len c)%nat -> P c') -> P c) ->
  forall c, P c.
Proof.
  intros Hstep c.
  assert (H : forall n c, (unread_len c < n)%nat -> P c).
  { induction n as [|n IH]; intros c0 Hlt; [lia|].
    apply Hstep. intros c' Hc'. apply IH. lia. }
  apply (H (S (unread_len c))). lia.
Qed.

Lemma unread_len_set_req (c : http_client_t) (r : option http_request_t) :
  unread_len (set_req c r) = unread_len c.
Proof. reflexivity. Qed.

Lemma header_loop_norm cfg os (ret : Z) (c : http_client_t) :
  header_loop cfg os ret (norm c) = map_exit norm (header_loop cfg os ret c).
Proof.
  revert ret. pattern c. apply unread_induction. clear c. intros c IH ret.
  rewrite (header_loop_step cfg os ret (norm c)), (header_loop_step cfg os ret c).
  cbn [req norm set_in]. destruct (req c) as [r|]; [|reflexivity].
  destruct (content_len r =? -1); [|reflexivity].
  fold (norm c). rewrite client_readline_norm.
  destruct (client_readline cfg c) as [[n line] c1] eqn:Hr.
  destruct (Z.gtb_spec n 0) as [Hn|Hn]; [|reflexivity].
  destruct (strlen line =? 0); [apply end_of_headers_norm|].
  destruct (parse_header r line) as [ret' r'].
  destruct (ret' =? -1); [reflexivity|].
  change (set_req (norm c1) (Some r')) with (norm (set_req c1 (Some r'))).
  apply IH. rewrite unread_len_set_req.
  apply (client_readline_consumes cfg c c1 n line Hr). lia.
Qed.

Lemma body_phase_norm cfg os (c : http_client_t) :
  body_phase cfg os (norm c) = let '(r, c') := body_phase cfg os c in (r, norm c').
Proof.
  unfold body_phase. cbn [req norm set_in c_in norm_buf datasize pos].
  destruct (req c) as [r|]; [|reflexivity].
  destruct (content_len r >? 0); [|reflexivity].
  destruct (_ >=? _); [|reflexivity].
  unfold handle_post.
  match goal with |- after_handler _ _ _ ?a = let '(_, _) := after_handler _ _ _ ?b in _ =>
    change a with (norm b) end.
  apply after_handler_norm.
Qed.

Lemma headers_and_body_norm cfg os (ret : Z) (c : http_client_t) :
  headers_and_body cfg os ret (norm c) =
  let '(r, c') := headers_and_body cfg os ret c in (r, norm c').
Proof.
  unfold headers_and_body. rewrite header_loop_norm.
  destruct (header_loop cfg os ret c) as [x c'|c']; cbn [map_exit]; [reflexivity|].
  apply body_phase_norm.
Qed.

(** The parser on the observed connection is the observation of the parser
    on the connection. *)
Lemma http_parse_norm cfg os (c : http_client_t) :
  http_parse cfg os (norm c) = observe (http_parse cfg os c).
Proof.
  unfold http_parse, observe. cbn [req norm set_in]. fold (norm c).
  destruct (req c) as [r|].
  - rewrite headers_and_body_norm. destruct (headers_and_body cfg os 0 c). reflexivity.
  - rewrite client_readline_norm.
    destruct (client_readline cfg c) as [[n line] c1].
    destruct (strlen line =? 0); [reflexivity|].
    destruct (n =? 0); [reflexivity|].
    destruct (n <? 0); [reflexivity|].
    destruct (parse_request_line _ _ line) as [ret r'].
    destruct (ret >? 0); [reflexivity|].
    change (set_req (set_req (norm c1) (Some (set_content_len new_request (-1)))) (Some r'))
      with (norm (set_req (set_req c1 (Some (set_content_len new_request (-1)))) (Some r'))).
    rewrite headers_and_body_norm.
    destruct (headers_and_body cfg os ret _). reflexivity.
Qed.

(** *** Re-entering the parser *)

Lemma parse_header_ret (r : http_request_t) (line : bytes) :
  fst (parse_header r line) = 0 \/ fst (parse_header r line) = -1.
Proof.
  unfold parse_header.
  destruct (strchr line ":") as [i|]; [|now right].
  destruct (_ || _); [now right|].
  destruct (copy_trimmed_string line 0 (i - 1)); [|now right].
  destruct (copy_trimmed_string line (i + 1) (strlen line - 1)); [now left | now right].
Qed.

Lemma parse_request_line_ret (ver : bytes) (r : http_request_t) (line : bytes) :
  0 <= fst (parse_request_line ver r line).
Proof.
  unfold parse_request_line.
  destruct (sscanf_3s line) as [[[n m] u] v].
  unfold BAD_REQUEST, METHOD_NOT_ALLOWED, HTTP_VERSION_NOT_SUPPORTED.
  destruct (n <? 3); [cbn [fst]; lia|].
  destruct (_ && _); [cbn [fst]; lia|].
  destruct (negb _); cbn [fst]; lia.
Qed.

Lemma atoi_nonneg (s : bytes) : all_digits s = true -> 0 <= atoi s.
Proof.
  unfold atoi. assert (H : forall n, 0 <= n -> all_digits s = true ->
                                     0 <= fold_left (fun n x => 10 * n + (code x - 48)) s n).
  { induction s as [|x s IH]; intros n Hn Hd; cbn [fold_left]; [exact Hn|].
    cbn [all_digits] in Hd. apply andb_prop in Hd. destruct Hd as [Hx Hs].
    apply negb_true_iff, orb_false_elim in Hx. destruct Hx as [H1 H2].
    apply IH; [|exact Hs]. apply Z.ltb_ge in H1. lia. }
  apply H. lia.
Qed.

Lemma end_request_ret cfg os (c : http_client_t) (code_ : Z) :
  fst (end_request cfg os c code_) = -1.
Proof. reflexivity. Qed.

Lemma after_handler_ends cfg os (ret : Z) (c : http_client_t) :
  fst (after_handler cfg os ret c) <> 0 \/ req (snd (after_handler cfg os ret c)) = None.
Proof.
  unfold after_handler. destruct (negb (ret =? 0)); [left; cbn; lia | right; reflexivity].
Qed.

(** When the header section ends with a [return], the request is over. *)
Lemma end_of_headers_return cfg os (ret x : Z) (c cx : http_client_t) :
  end_of_headers cfg os ret c = LReturn x cx -> x <> 0 \/ req cx = None.
Proof.
  unfold end_of_headers.
  destruct (if method_is c "GET" then handle_get cfg os c else (ret, c)) as [r1 c1].
  destruct (method_is c1 "POST").
  - destruct (req c1) as [r|]; [|discriminate].
    destruct (get_request_header r _) as [v|].
    + destruct (strlen v =? 0); [intros [= <- _]; left; discriminate|].
      destruct (negb (all_digits v)); [|discriminate].
      intros [= <- _]. left. discriminate.
    + intros [= <- _]. left. discriminate.
  - destruct (if method_is c1 "HEAD" then handle_head cfg os c1 else (r1, c1)) as [r2 c2].
    pose proof (after_handler_ends cfg os r2 c2) as H.
    destruct (after_handler cfg os r2 c2) as [x' c']. intros [= <- <-]. exact H.
Qed.

(** When the header section ends with the loop left, a body is expected. *)
Lemma end_of_headers_done cfg os (ret : Z) (c cd : http_client_t) :
  end_of_headers cfg os ret c = LDone cd ->
  req cd = None \/ exists r, req cd = Some r /\ 0 <= content_len r.
Proof.
  unfold end_of_headers.
  destruct (if method_is c "GET" then handle_get cfg os c else (ret, c)) as [r1 c1].
  destruct (method_is c1 "POST").
  - destruct (req c1) as [r|] eqn:Hr; [|intros [= <-]; now left].
    destruct (get_request_header r _) as [v|].
    + destruct (strlen v =? 0); [discriminate|].
      destruct (all_digits v) eqn:Hd; cbn [negb].
      * intros [= <-]. right. eexists. split; [reflexivity|]. cbn. now apply atoi_nonneg.
      * destruct (end_request cfg os c1 BAD_REQUEST). discriminate.
    + destruct (end_request cfg os c1 LENGTH_REQUIRED). discriminate.
  - destruct (if method_is c1 "HEAD" then handle_head cfg os c1 else (r1, c1)) as [r2 c2].
    destruct (after_handler cfg os r2 c2). discriminate.
Qed.

(** [body_phase] returns 0 with a request in flight only by waiting. *)
Lemma body_phase_waits cfg os (c c' : http_client_t) :
  body_phase cfg os c = (0, c') -> req c' <> None -> c' = c.
Proof.
  unfold body_phase. destruct (req c) as [r|]; [|now intros [= <-]].
  destruct (content_len r >? 0); [|now intros [= <-]].
  destruct (_ >=? _); [|now intros [= <-]].
  unfold handle_post.
  match goal with |- after_handler _ _ _ ?a = _ -> _ =>
    pose proof (after_handler_ends cfg os NOT_IMPLEMENTED a) as H;
    destruct (after_handler cfg os NOT_IMPLEMENTED a) as [x cx] end.
  intros [= -> ->] Hreq. cbn [fst snd] in H. destruct H; [lia | contradiction].
Qed.

Lemma valid_feed (c : http_client_t) (e : bytes) :
  in_ok c -> valid (c_in (feed c e)) = valid (c_in c) ++ e.
Proof.
  intros [_ Hd]. unfold feed, valid at 1. cbn [c_in set_in datasize buf].
  apply firstn_all2. rewrite length_app. lia.
Qed.

Lemma in_ok_feed (c : http_client_t) (e : bytes) : in_ok c -> in_ok (feed c e).
Proof.
  intros H. pose proof (valid_feed c e H) as Hv. destruct H as [Hp Hd].
  unfold in_ok. rewrite Hv, length_app. unfold feed. cbn [c_in set_in datasize pos]. lia.
Qed.

Lemma find_lf_app (l e : bytes) (i : nat) :
  find_lf l = Some i -> find_lf (l ++ e) = Some i /\ firstn i (l ++ e) = firstn i l.
Proof.
  revert i. induction l as [|x l IH]; intros i; cbn [find_lf app]; [discriminate|].
  destruct (Ascii.eqb x LF); [intros [= <-]; auto|].
  destruct (find_lf l) as [j|]; [|discriminate]. intros [= <-].
  destruct (IH j eq_refl) as [-> Hf]. split; [reflexivity|]. cbn [firstn]. now rewrite Hf.
Qed.

Lemma unread_feed (c : http_client_t) (e : bytes) :
  in_ok c ->
  skipn (Z.to_nat (pos (c_in (feed c e)))) (valid (c_in (feed c e))) =
  skipn (Z.to_nat (pos (c_in c))) (valid (c_in c)) ++ e.
Proof.
  intros H. rewrite valid_feed by assumption. destruct H as [Hp Hd].
  unfold feed. cbn [c_in set_in pos]. rewrite skipn_app.
  replace (Z.to_nat (pos (c_in c)) - length (valid (c_in c)))%nat with 0%nat by lia.
  reflexivity.
Qed.

(** A line that is complete stays the next line when more bytes arrive. *)
Lemma client_readline_feed cfg (c c1 : http_client_t) (e : bytes) (n : Z) (line : bytes) :
  in_ok c -> client_readline cfg c = (n, line, c1) -> n <> 0 ->
  client_readline cfg (feed c e) = (n, line, feed c1 e) /\ in_ok c1.
Proof.
  intros Hok. unfold client_readline. rewrite unread_feed by assumption.
  destruct (find_lf (skipn _ (valid (c_in c)))) as [i|] eqn:Hi; [|intros [= <- _ _]; lia].
  destruct (find_lf_app _ e _ Hi) as [-> ->].
  destruct (_ <=? _).
  - intros [= <- <- <-] _. split; [reflexivity | exact Hok].
  - intros [= <- <- <-] _. split; [reflexivity|].
    apply find_lf_bound in Hi. rewrite length_skipn in Hi.
    destruct Hok as [Hp Hd]. unfold in_ok, valid in *.
    cbn [c_in set_in set_pos pos datasize buf]. lia.
Qed.

(** Without a complete line nothing is read. *)
Lemma client_readline_zero cfg (c c1 : http_client_t) (n : Z) (line : bytes) :
  client_readline cfg c = (n, line, c1) -> n <= 0 -> c1 = c /\ (n = 0 -> line = []).
Proof.
  unfold client_readline. destruct (find_lf _) as [i|].
  - destruct (_ <=? _); [intros [= <- _ <-] _; split; [reflexivity | lia]|].
    intros [= <- _ _]. lia.
  - intros [= <- <- <-] _. auto.
Qed.

Lemma in_ok_set_req (c : http_client_t) (r : option http_request_t) :
  in_ok c -> in_ok (set_req c r).
Proof. exact (fun H => H). Qed.

Lemma end_of_headers_in cfg os (ret : Z) (c cd : http_client_t) :
  end_of_headers cfg os ret c = LDone cd -> c_in cd = c_in c.
Proof.
  intros H. pose proof (end_of_headers_set_in cfg os ret c (c_in c)) as Hs.
  rewrite set_in_same, H in Hs. cbn [map_exit] in Hs.
  inversion Hs as [Hc]. rewrite Hc. reflexivity.
Qed.

(** Re-entry after the request line: if the header loop and the body check
    stop for want of input at [c'], taking them up at [c'] with more bytes
    is taking them up at [c] with these bytes. *)
Lemma headers_and_body_resume cfg os (e : bytes) (c : http_client_t) :
  forall c', in_ok c ->
  headers_and_body cfg os 0 c = (0, c') -> req c' <> None ->
  headers_and_body cfg os 0 (feed c' e) = headers_and_body cfg os 0 (feed c e).
Proof.
  pattern c. apply unread_induction. clear c. intros c IH c' Hok Hrun Hreq.
  unfold headers_and_body in Hrun |- *.
  rewrite header_loop_step in Hrun. rewrite (header_loop_step cfg os 0 (feed c e)).
  cbn [req feed set_in].
  destruct (req c) as [r|] eqn:Hr.
  2:{ apply body_phase_waits in Hrun; [|assumption]. subst c'.
      rewrite header_loop_step. cbn [req feed set_in]. rewrite Hr. reflexivity. }
  destruct (Z.eqb_spec (content_len r) (-1)) as [Hcl|Hcl].
  2:{ apply body_phase_waits in Hrun; [|assumption]. subst c'.
      rewrite header_loop_step. cbn [req feed set_in]. rewrite Hr.
      destruct (Z.eqb_spec (content_len r) (-1)); [contradiction | reflexivity]. }
  fold (feed c e).
  destruct (client_readline cfg c) as [[n line] c1] eqn:Hline.
  destruct (Z.gtb_spec n 0) as [Hn|Hn].
  2:{ destruct (client_readline_zero cfg c c1 n line Hline Hn) as [-> _].
      apply body_phase_waits in Hrun; [|assumption]. subst c'.
      rewrite header_loop_step. cbn [req feed set_in]. rewrite Hr.
      destruct (Z.eqb_spec (content_len r) (-1)); [|contradiction]. reflexivity. }
  destruct (client_readline_feed cfg c c1 e n line Hok Hline ltac:(lia)) as [-> Hok1].
  destruct (Z.gtb_spec n 0) as [_|]; [|lia].
  destruct (strlen line =? 0).
  - unfold feed at 2. rewrite end_of_headers_set_in.
    destruct (end_of_headers cfg os 0 c1) as [x cx|cd] eqn:Hend; cbn [map_exit].
    + inversion Hrun; subst x cx.
      apply end_of_headers_return in Hend. destruct Hend; [lia | contradiction].
    + apply body_phase_waits in Hrun; [|assumption]. subst c'.
      pose proof (end_of_headers_in cfg os 0 c1 cd Hend) as Hin.
      apply end_of_headers_done in Hend.
      destruct Hend as [Hnone|(r0 & Hr0 & Hpos)]; [contradiction|].
      rewrite header_loop_step. cbn [req feed set_in]. rewrite Hr0.
      destruct (Z.eqb_spec (content_len r0) (-1)); [lia|].
      unfold feed. rewrite Hin. reflexivity.
  - destruct (parse_header r line) as [ret' r'] eqn:Hp.
    pose proof (parse_header_ret r line) as Hret. rewrite Hp in Hret. cbn [fst] in Hret.
    destruct (Z.eqb_spec ret' (-1)) as [->|Hne].
    + inversion Hrun.
    + destruct Hret as [->|]; [|contradiction].
      change (set_req (feed c1 e) (Some r')) with (feed (set_req c1 (Some r')) e).
      apply IH; try assumption.
      rewrite unread_len_set_req.
      apply (client_readline_consumes cfg c c1 n line Hline). lia.
Qed.

(** Re-entry of [http_parse]: when a call returns 0 for want of input,
    leaving [c'], the next call on [c'] with more bytes does what a single
    call on [c] with these bytes does. *)
Lemma http_parse_resume cfg os (e : bytes) (c c' : http_client_t) :
  in_ok c -> http_parse cfg os c = (0, c') -> waiting c c' ->
  http_parse cfg os (feed c' e) = http_parse cfg os (feed c e).
Proof.
  intros Hok Hrun [Hreq| ->]; [|reflexivity].
  unfold http_parse in *. cbn [req feed set_in]. fold (feed c e).
  destruct (req c') as [r'|] eqn:Hr'; [|contradiction].
  destruct (req c) as [r|] eqn:Hr.
  - apply headers_and_body_resume; [assumption | assumption | congruence].
  - destruct (client_readline cfg c) as [[n line] c1] eqn:Hline.
    destruct (Z.eqb_spec (strlen line) 0) as [Hl|Hl].
    { inversion Hrun; subst c1.
      destruct (Z_gt_le_dec n 0) as [Hn|Hn].
      - destruct (client_readline_consumes cfg c c' n line Hline Hn) as [_ Hq]. congruence.
      - destruct (client_readline_zero cfg c c' n line Hline Hn) as [-> _]. congruence. }
    destruct (Z.eqb_spec n 0) as [->|Hn0].
    { destruct (client_readline_zero cfg c c1 0 line Hline ltac:(lia)) as [_ Hempty].
      rewrite Hempty in Hl by reflexivity. now elim Hl. }
    destruct (client_readline_feed cfg c c1 e n line Hok Hline Hn0) as [-> Hok1].
    destruct (Z.eqb_spec (strlen line) 0) as [|_]; [contradiction|].
    destruct (Z.eqb_spec n 0) as [|_]; [contradiction|].
    destruct (n <? 0); [inversion Hrun|].
    pose proof (parse_request_line_ret (http_version cfg) (set_content_len new_request (-1)) line)
      as Hret.
    destruct (parse_request_line _ _ line) as [ret r0]. cbn [fst] in Hret.
    destruct (Z.gtb_spec ret 0) as [Hpos|Hle]; [inversion Hrun|].
    assert (ret = 0) by lia. subst ret.
    change (set_req (set_req (feed c1 e) (Some (set_content_len new_request (-1)))) (Some r0))
      with (feed (set_req (set_req c1 (Some (set_content_len new_request (-1)))) (Some r0)) e).
    apply headers_and_body_resume; [assumption | assumption | congruence].
Qed.

(** *** [io_recv] takes everything that has arrived *)

Lemma shiftr1_mono (x y : Z) : x <= y -> Z.shiftr x 1 <= Z.shiftr y 1.
Proof.
  intros H. rewrite !Z.shiftr_div_pow2 by lia. apply Z.div_le_mono; [reflexivity | exact H].
Qed.

Lemma shiftr1_double (x : Z) : 2 * Z.shiftr x 1 <= x.
Proof.
  rewrite Z.shiftr_div_pow2 by lia. change (2 ^ 1) with 2.
  apply Z.mul_div_le. lia.
Qed.

Lemma valid_store (b : buf_t) (data : bytes) :
  allocated b -> 0 <= datasize b ->
  datasize b + Z.of_nat (length data) <= bufsize b ->
  firstn (Z.to_nat (datasize b + Z.of_nat (length data))) (store (buf b) (datasize b) data)
  = valid b ++ data.
Proof.
  unfold allocated, valid, store. intros Ha H0 Hfit.
  replace (Z.to_nat (datasize b + Z.of_nat (length data)))
    with (length (firstn (Z.to_nat (datasize b)) (buf b) ++ data))
    by (rewrite length_app, length_firstn; lia).
  rewrite app_assoc. apply firstn_app_exact. reflexivity.
Qed.

Lemma recv_body_ready BUFSIZE (b : buf_t) (n : Z) (data : bytes) :
  4 <= BUFSIZE -> recv_ready BUFSIZE b ->
  0 < n <= bufsize b - datasize b - 1 -> Z.of_nat (length data) = n ->
  recv_ready BUFSIZE (recv_body BUFSIZE b n data) /\
  valid (recv_body BUFSIZE b n data) = valid b ++ data /\
  datasize (recv_body BUFSIZE b n data) = datasize b + n /\
  pos (recv_body BUFSIZE b n data) = pos b.
Proof.
  intros HB (Ha & H0 & Hcap & Hfree & Hbound) Hn Hd.
  pose proof (valid_store b data Ha H0 ltac:(lia)) as Hv. rewrite Hd in Hv.
  pose proof (shiftr1_nonneg (bufsize b) ltac:(lia)) as Hs.
  pose proof (shiftr1_mono BUFSIZE (bufsize b) Hcap) as Hm.
  pose proof (shiftr1_double (bufsize b)) as Hdbl.
  pose proof (shiftr1_double BUFSIZE) as HdblB.
  assert (Hlen : length (store (buf b) (datasize b) data) = length (buf b)).
  { apply length_store; unfold allocated in Ha; lia. }
  unfold recv_body, full. cbn [pos datasize bufsize buf].
  destruct (Z.gtb_spec (datasize b + n + Z.shiftr BUFSIZE 1) (bufsize b)) as [Hfull|Hroom];
    cbn [pos datasize bufsize buf].
  - split; [|split; [|split; reflexivity]].
    + unfold recv_ready, allocated. cbn [pos datasize bufsize buf].
      rewrite length_realloc. repeat split; lia.
    + unfold valid. cbn [datasize buf]. unfold realloc.
      rewrite firstn_app, firstn_firstn_le by lia. rewrite Hv.
      replace (Z.to_nat (datasize b + n) - _)%nat with 0%nat.
      * cbn [firstn]. apply app_nil_r.
      * rewrite length_firstn, Hlen. unfold allocated in Ha. lia.
  - split; [|split; [|split; reflexivity]].
    + unfold recv_ready, allocated. cbn [pos datasize bufsize buf].
      rewrite Hlen. unfold allocated in Ha. repeat split; lia.
    + unfold valid. cbn [datasize buf]. exact Hv.
Qed.

(** The loop of [io_recv] on segments that have arrived, with nothing more
    to come for now: every byte is stored, in order, after the bytes the
    buffer held. *)
Lemma io_recv_drains BUFSIZE (segs : list bytes) (b : buf_t) :
  4 <= BUFSIZE -> recv_ready BUFSIZE b ->
  Forall (fun seg => seg <> []) segs ->
  3 * (datasize b + total_length segs + BUFSIZE) < 2 ^ 64 ->
  exists b' s',
    io_recv BUFSIZE (arrival segs) b = (datasize b', b', s') /\
    recv_ready BUFSIZE b' /\
    valid b' = valid b ++ concat segs /\
    datasize b' = datasize b + total_length segs /\
    pos b' = pos b.
Proof.
  intros HB Hready Hne Hsize.
  destruct (recv_loop_invariant BUFSIZE
              (fun s b' => recv_ready BUFSIZE b' /\ rx_end s = RxWouldBlock /\
                           Forall (fun seg => seg <> []) (rx s) /\
                           valid b' ++ concat (rx s) = valid b ++ concat segs /\
                           datasize b' + total_length (rx s) = datasize b + total_length segs /\
                           pos b' = pos b))
    with (s := arrival segs) (bp := b)
    as (s1 & data & n & err & b' & s' & Hloop & HP & Hn & Hlast).
  - intros s b0 n err data s' (Hr & He & Hall & Hv & Hd & Hp) Hrecv Hpos.
    unfold recv in Hrecv. destruct (rx s) as [|seg rest] eqn:Hrx.
    { destruct (rx_end s); inversion Hrecv; subst; lia. }
    inversion Hall as [|? ? Hseg Hrest]; subst.
    assert (Hlen : 0 < Z.of_nat (length seg)) by (destruct seg; [congruence | cbn; lia]).
    destruct Hr as (Ha & H0 & Hcap & Hfree & Hbound).
    pose proof (shiftr1_double BUFSIZE) as HdblB.
    assert (HsB : 2 <= Z.shiftr BUFSIZE 1).
    { rewrite Z.shiftr_div_pow2 by lia. change (2 ^ 1) with 2.
      apply Z.div_le_lower_bound; lia. }
    assert (Htot : 0 <= total_length rest) by (unfold total_length; lia).
    assert (Hseglen : total_length (seg :: rest) = Z.of_nat (length seg) + total_length rest).
    { unfold total_length. cbn [concat]. rewrite length_app. lia. }
    rewrite to_size_t_small in Hrecv by lia.
    set (k := Z.min (bufsize b0 - datasize b0 - 1) (Z.of_nat (length seg))) in *.
    inversion Hrecv; subst n err data s'. clear Hrecv.
    assert (Hk : 0 < k <= bufsize b0 - datasize b0 - 1) by lia.
    assert (Hdata : Z.of_nat (length (firstn (Z.to_nat k) seg)) = k)
      by (rewrite length_firstn; lia).
    destruct (recv_body_ready BUFSIZE b0 k (firstn (Z.to_nat k) seg) HB
                (conj Ha (conj H0 (conj Hcap (conj Hfree Hbound)))) Hk Hdata)
      as (Hr' & Hv' & Hd' & Hp').
    split; [exact Hr'|]. cbn [rx rx_end]. split; [exact He|].
    rewrite Hv', Hd', Hp'. cbn [concat] in Hv.
    destruct (Z.ltb_spec k (Z.of_nat (length seg))) as [Hlt|Hge].
    + split; [|split; [|split; [|exact Hp]]].
      * constructor; [|exact Hrest].
        intros Hnil. apply (f_equal (@length ascii)) in Hnil.
        rewrite length_skipn in Hnil. cbn in Hnil. lia.
      * cbn [concat]. rewrite <- Hv, <- !app_assoc. f_equal. rewrite app_assoc.
        now rewrite firstn_skipn.
      * rewrite <- Hd, Hseglen. unfold total_length. cbn [concat].
        rewrite length_app, length_skipn. lia.
    + split; [exact Hrest|]. split; [|split; [|exact Hp]].
      * rewrite <- Hv, <- app_assoc. f_equal. f_equal. apply firstn_all2. lia.
      * rewrite <- Hd, Hseglen. lia.
  - cbn [arrival rx rx_end]. repeat split; try assumption; try reflexivity; apply Hready.
  - destruct HP as (Hr & He & Hall & Hv & Hd & Hp).
    assert (Hrx : rx s1 = []).
    { destruct (rx s1) as [|seg rest] eqn:Hrx; [reflexivity|]. exfalso.
      unfold recv in Hlast. rewrite Hrx in Hlast.
      inversion Hall as [|? ? Hseg Hrest]; subst.
      assert (Hlen : 0 < Z.of_nat (length seg)) by (destruct seg; [congruence | cbn; lia]).
      destruct Hr as (Ha & H0 & Hcap & Hfree & Hbound).
      pose proof (shiftr1_double BUFSIZE) as HdblB.
      assert (HsB : 2 <= Z.shiftr BUFSIZE 1).
      { rewrite Z.shiftr_div_pow2 by lia. change (2 ^ 1) with 2.
        apply Z.div_le_lower_bound; lia. }
      assert (Htot : 0 <= total_length rest) by (unfold total_length; lia).
      assert (Hseglen : total_length (seg :: rest) = Z.of_nat (length seg) + total_length rest).
      { unfold total_length. cbn [concat]. rewrite length_app. lia. }
      rewrite to_size_t_small in Hlast by lia.
      inversion Hlast. lia. }
    unfold recv in Hlast. rewrite Hrx, He in Hlast. inversion Hlast; subst n err data s'.
    exists b', s1. unfold io_recv. rewrite Hloop. cbn.
    rewrite Hrx in Hv, Hd. cbn [concat] in Hv. rewrite app_nil_r in Hv.
    unfold total_length at 1 in Hd. cbn in Hd.
    repeat split; try assumption; try apply Hr; lia.
Qed.

(** *** The parser moves the read cursor and nothing else of the buffer *)

Lemma same_block_refl (b : buf_t) : same_block b b.
Proof. unfold same_block. auto. Qed.

Lemma same_block_trans (b1 b2 b3 : buf_t) :
  same_block b1 b2 -> same_block b2 b3 -> same_block b1 b3.
Proof. unfold same_block. intros (H1 & H2 & H3) (H4 & H5 & H6). repeat split; congruence. Qed.

Lemma client_readline_block cfg (c c1 : http_client_t) (n : Z) (line : bytes) :
  client_readline cfg c = (n, line, c1) -> same_block (c_in c) (c_in c1).
Proof.
  unfold client_readline. destruct (find_lf _); [|intros [= _ _ <-]; apply same_block_refl].
  destruct (_ <=? _); intros [= _ _ <-]; [apply same_block_refl|].
  unfold same_block. auto.
Qed.

Lemma after_handler_in cfg os (ret : Z) (c : http_client_t) :
  c_in (snd (after_handler cfg os ret c)) = c_in c.
Proof. unfold after_handler. destruct (negb _); reflexivity. Qed.

Lemma end_of_headers_exit_in cfg os (ret : Z) (c : http_client_t) :
  c_in (exit_client (end_of_headers cfg os ret c)) = c_in c.
Proof.
  pose proof (end_of_headers_set_in cfg os ret c (c_in c)) as Hs.
  rewrite set_in_same in Hs.
  destruct (end_of_headers cfg os ret c) as [x cx|cd]; cbn [map_exit exit_client] in *;
    inversion Hs as [Hc]; rewrite Hc; reflexivity.
Qed.

Lemma header_loop_block cfg os (ret : Z) (c : http_client_t) :
  same_block (c_in c) (c_in (exit_client (header_loop cfg os ret c))).
Proof.
  revert ret. pattern c. apply unread_induction. clear c. intros c IH ret.
  rewrite header_loop_step.
  destruct (req c) as [r|]; [|apply same_block_refl].
  destruct (content_len r =? -1); [|apply same_block_refl].
  destruct (client_readline cfg c) as [[n line] c1] eqn:Hline.
  pose proof (client_readline_block cfg c c1 n line Hline) as Hb.
  destruct (Z.gtb_spec n 0) as [Hn|Hn]; [|exact Hb].
  destruct (strlen line =? 0).
  - rewrite end_of_headers_exit_in. exact Hb.
  - destruct (parse_header r line) as [ret' r'].
    destruct (ret' =? -1); [exact Hb|].
    eapply same_block_trans; [exact Hb|].
    apply (IH (set_req c1 (Some r'))).
    rewrite unread_len_set_req.
    apply (client_readline_consumes cfg c c1 n line Hline). lia.
Qed.

Lemma body_phase_block cfg os (c : http_client_t) :
  same_block (c_in c) (c_in (snd (body_phase cfg os c))).
Proof.
  unfold body_phase. destruct (req c) as [r|]; [|apply same_block_refl].
  destruct (content_len r >? 0); [|apply same_block_refl].
  destruct (_ >=? _); [|apply same_block_refl].
  unfold handle_post. rewrite after_handler_in. unfold same_block. auto.
Qed.

Lemma headers_and_body_block cfg os (ret : Z) (c : http_client_t) :
  same_block (c_in c) (c_in (snd (headers_and_body cfg os ret c))).
Proof.
  unfold headers_and_body. pose proof (header_loop_block cfg os ret c) as H.
  destruct (header_loop cfg os ret c) as [x cx|cd]; cbn [exit_client snd] in *; [exact H|].
  eapply same_block_trans; [exact H | apply body_phase_block].
Qed.

Lemma http_parse_block cfg os (c : http_client_t) :
  same_block (c_in c) (c_in (snd (http_parse cfg os c))).
Proof.
  unfold http_parse. destruct (req c) as [r|]; [apply headers_and_body_block|].
  destruct (client_readline cfg c) as [[n line] c1] eqn:Hline.
  pose proof (client_readline_block cfg c c1 n line Hline) as Hb.
  destruct (strlen line =? 0); [exact Hb|].
  destruct (n =? 0); [exact Hb|].
  destruct (n <? 0); [exact Hb|].
  destruct (parse_request_line _ _ line) as [ret r0].
  destruct (ret >? 0); [exact Hb|].
  eapply same_block_trans; [exact Hb|].
  apply (headers_and_body_block cfg os ret
           (set_req (set_req c1 (Some (set_content_len new_request (-1)))) (Some r0))).
Qed.

Lemma recv_ready_block BUFSIZE (b b' : buf_t) :
  same_block b b' -> recv_ready BUFSIZE b -> recv_ready BUFSIZE b'.
Proof.
  unfold same_block, recv_ready, allocated. intros (H1 & H2 & H3). rewrite H1, H2, H3. auto.
Qed.

Lemma feed_feed (c : http_client_t) (e1 e2 : bytes) :
  in_ok c -> feed (feed c e1) e2 = feed c (e1 ++ e2).
Proof.
  intros Hok. unfold feed at 1. rewrite valid_feed by assumption.
  unfold feed. cbn [c_in set_in datasize pos]. unfold set_in. cbn [req c_out pipe status c_closed handled].
  rewrite <- app_assoc, length_app.
  replace (datasize (c_in c) + Z.of_nat (length e1) + Z.of_nat (length e2))
    with (datasize (c_in c) + Z.of_nat (length e1 + length e2)) by lia.
  reflexivity.
Qed.

Lemma feed_norm (c : http_client_t) (e : bytes) : feed (norm c) e = feed c e.
Proof. unfold feed, norm. cbn [c_in set_in]. rewrite valid_norm_buf. reflexivity. Qed.

(** *** Events one after the other against all the bytes at once *)

Lemma event_ok_nonempty (segments : list bytes) : event_ok segments -> concat segments <> [].
Proof.
  intros [Hne Hall]. destruct segments as [|seg rest]; [congruence|].
  inversion Hall; subst. cbn [concat]. destruct seg; [congruence | discriminate].
Qed.

Lemma on_readable_feed cfg os (segments : list bytes) (c : http_client_t) :
  4 <= BUFSIZE cfg -> recv_ready (BUFSIZE cfg) (c_in c) -> event_ok segments ->
  3 * (datasize (c_in c) + total_length segments + BUFSIZE cfg) < 2 ^ 64 ->
  exists r c' s',
    on_readable cfg os (arrival segments) c = (r, c', s') /\
    observe (r, c') = http_parse cfg os (feed (norm c) (concat segments)) /\
    recv_ready (BUFSIZE cfg) (c_in c') /\
    datasize (c_in c') = datasize (c_in c) + total_length segments.
Proof.
  intros HB Hready Hev Hsize.
  destruct (io_recv_drains (BUFSIZE cfg) segments (c_in c) HB Hready (proj2 Hev) Hsize)
    as (b' & s' & Hrecv & Hready' & Hv & Hd & Hp).
  pose proof (event_ok_nonempty segments Hev) as Hne.
  assert (Hlen : 0 < total_length segments).
  { unfold total_length. destruct (concat segments); [congruence | cbn; lia]. }
  unfold on_readable. rewrite Hrecv.
  destruct Hready as (_ & H0 & _).
  destruct (Z.leb_spec (datasize b') 0) as [Hle|_]; [lia|].
  pose proof (http_parse_norm cfg os (set_in c b')) as Hnorm.
  pose proof (http_parse_block cfg os (set_in c b')) as Hblock.
  destruct (http_parse cfg os (set_in c b')) as [r c'] eqn:Hparse.
  exists r, c', s'. split; [reflexivity|]. split; [|split].
  - rewrite <- Hnorm. f_equal.
    unfold norm, feed. cbn [c_in set_in]. rewrite valid_norm_buf.
    unfold norm_buf. cbn [datasize pos]. rewrite Hv, Hd, Hp. reflexivity.
  - cbn [snd c_in set_in] in Hblock. eapply recv_ready_block; eassumption.
  - cbn [snd c_in set_in] in Hblock. destruct Hblock as (_ & _ & ->). exact Hd.
Qed.

Lemma serve_is_one_call cfg os (c0 : http_client_t) (w : bytes) :
  4 <= BUFSIZE cfg -> in_ok c0 -> prefix_waits cfg os c0 w ->
  3 * (Z.of_nat (length w) + BUFSIZE cfg) < 2 ^ 64 ->
  forall (events : list (list bytes)) (c : http_client_t) (p : bytes),
    events <> [] -> Forall event_ok events ->
    p ++ concat (concat events) = w ->
    recv_ready (BUFSIZE cfg) (c_in c) -> datasize (c_in c) = Z.of_nat (length p) ->
    http_parse cfg os (feed c0 p) = (0, norm c) -> waiting (feed c0 p) (norm c) ->
    observe (serve cfg os events c) = http_parse cfg os (feed c0 w).
Proof.
  intros HB Hok0 Hwaits Hsize events.
  induction events as [|ev rest IH]; intros c p Hne Hall Hw Hready Hd Hrun Hwait;
    [congruence|].
  pose proof (Forall_inv Hall) as Hev. pose proof (Forall_inv_tail Hall) as Hrest.
  cbn [concat] in Hw.
  assert (Hlenw : Z.of_nat (length w) =
                  Z.of_nat (length p) + total_length ev
                  + Z.of_nat (length (concat (concat rest)))).
  { rewrite <- Hw. unfold total_length. rewrite concat_app, !length_app. lia. }
  rewrite concat_app in Hw.
  destruct (on_readable_feed cfg os ev c HB Hready Hev ltac:(lia))
    as (r & c' & s' & Hon & Hobs & Hready' & Hd').
  rewrite (http_parse_resume cfg os (concat ev) (feed c0 p) (norm c)
             (in_ok_feed c0 p Hok0) Hrun Hwait) in Hobs.
  rewrite feed_feed in Hobs by assumption.
  cbn [serve]. rewrite Hon.
  destruct rest as [|ev2 rest].
  - cbn [concat] in Hw. rewrite app_nil_r in Hw. rewrite Hw in Hobs.
    rewrite <- Hobs. destruct (r =? 0) eqn:Hr; [|reflexivity].
    apply Z.eqb_eq in Hr. subst r. reflexivity.
  - assert (Hq : concat (concat (ev2 :: rest)) <> []).
    { pose proof (Forall_inv Hrest) as Hev2. cbn [concat]. rewrite concat_app.
      pose proof (event_ok_nonempty ev2 Hev2) as Hn.
      destruct (concat ev2); [congruence | discriminate]. }
    destruct (Hwaits (p ++ concat ev) (concat (concat (ev2 :: rest))))
      as (c'' & Hrun' & Hwait'); [now rewrite <- app_assoc | exact Hq |].
    rewrite Hrun' in Hobs. unfold observe in Hobs. cbn [fst snd] in Hobs.
    inversion Hobs as [[Hr Hc]]. cbn [Z.eqb].
    apply (IH c' (p ++ concat ev)); try assumption.
    + discriminate.
    + now rewrite <- app_assoc.
    + rewrite Hd', Hd, length_app. unfold total_length. lia.
    + rewrite Hc. exact Hrun'.
    + rewrite Hc. exact Hwait'.
Qed.

(** *** A well-formed request, line by line *)

Lemma find_lf_line (l : bytes) (t : bool) (rest : bytes) :
  ~ In LF l ->
  find_lf (l ++ eol t ++ rest) = Some (length l + if t then 1 else 0)%nat /\
  firstn (length l + if t then 1 else 0) (l ++ eol t ++ rest) = l ++ if t then [CR] else [].
Proof.
  induction l as [|x l IH]; intros Hno.
  - destruct t; cbn; auto.
  - cbn [In] in Hno. destruct (IH ltac:(tauto)) as [Hf Hn].
    cbn [app find_lf length Nat.add firstn].
    destruct (Ascii.eqb_spec x LF) as [->|_]; [tauto|].
    rewrite Hf, Hn. auto.
Qed.

Lemma strip_cr_line (l : bytes) (t : bool) :
  last l zero <> CR -> strip_cr (l ++ if t then [CR] else []) = l.
Proof.
  intros Hlast. unfold strip_cr. destruct t.
  - rewrite rev_app_distr. cbn [rev app]. rewrite Ascii.eqb_refl. apply rev_involutive.
  - rewrite app_nil_r. destruct (rev l) as [|x r] eqn:Hrev; [reflexivity|].
    destruct (Ascii.eqb_spec x CR) as [->|_]; [|reflexivity].
    exfalso. apply Hlast.
    rewrite <- (rev_involutive l), Hrev. cbn [rev]. apply last_last.
Qed.

Lemma c_str_plain (l : bytes) : ~ In zero l -> c_str l = l.
Proof.
  induction l as [|x l IH]; intros Hno; [reflexivity|].
  cbn [In c_str] in *. destruct (Ascii.eqb_spec x zero) as [->|_]; [tauto|].
  rewrite IH; tauto.
Qed.

Lemma unread_at_end (c : http_client_t) :
  in_ok c -> at_end c -> skipn (Z.to_nat (pos (c_in c))) (valid (c_in c)) = [].
Proof.
  intros [_ Hd] He. unfold at_end in He. apply skipn_all2. lia.
Qed.

(** Reading a complete line that has just arrived. *)
Lemma client_readline_line cfg (c : http_client_t) (l : bytes) (t : bool) :
  in_ok c -> at_end c -> plain_line cfg l ->
  client_readline cfg (feed c (l ++ eol t)) =
  (Z.of_nat (length (l ++ eol t)), l, advance c (l ++ eol t)).
Proof.
  intros Hok He (Hlf & Hnul & Hlast & Hlen).
  unfold client_readline. rewrite unread_feed, unread_at_end by assumption. cbn [app].
  destruct (find_lf_line l t [] Hlf) as [Hf Hn]. rewrite app_nil_r in Hf, Hn.
  rewrite Hf, Hn, strip_cr_line by assumption.
  destruct (Z.leb_spec (MAXBUF cfg) (Z.of_nat (length l))) as [|_]; [lia|].
  rewrite c_str_plain by assumption.
  assert (Hl : Z.of_nat (length l + if t then 1 else 0) + 1 = Z.of_nat (length (l ++ eol t))).
  { rewrite length_app. destruct t; cbn [eol length]; lia. }
  rewrite Hl. reflexivity.
Qed.

Lemma in_ok_advance (c : http_client_t) (e : bytes) :
  in_ok c -> at_end c -> in_ok (advance c e) /\ at_end (advance c e).
Proof.
  intros [Hp Hd] He. unfold in_ok, at_end, advance, valid in *.
  cbn [c_in set_in pos datasize buf]. rewrite firstn_all2; rewrite length_app; lia.
Qed.

(** An incomplete line leaves the parser where it is. *)
Lemma http_parse_partial_line cfg os (c : http_client_t) (u : bytes) :
  in_ok c -> at_end c -> ~ In LF u ->
  req c = None \/ (exists r, req c = Some r /\ content_len r = -1) ->
  http_parse cfg os (feed c u) = (0, feed c u).
Proof.
  intros Hok He Hu Hreq.
  assert (Hnone : forall l, ~ In LF l -> find_lf l = None).
  { induction l as [|x l IH]; intros Hl; [reflexivity|]. cbn [find_lf In] in *.
    destruct (Ascii.eqb_spec x LF) as [->|_]; [tauto|]. rewrite IH; tauto. }
  assert (Hread : client_readline cfg (feed c u) = (0, [], feed c u)).
  { unfold client_readline. rewrite unread_feed, unread_at_end by assumption.
    cbn [app]. now rewrite Hnone. }
  unfold http_parse. cbn [req feed set_in]. fold (feed c u).
  destruct Hreq as [Hr|(r & Hr & Hcl)]; rewrite Hr.
  - rewrite Hread. reflexivity.
  - unfold headers_and_body. rewrite header_loop_step. cbn [req feed set_in]. fold (feed c u).
    rewrite Hr, Hcl, Hread. cbn [Z.eqb Pos.eqb Z.gtb Z.compare].
    unfold body_phase. cbn [req feed set_in]. rewrite Hr, Hcl. reflexivity.
Qed.

Lemma headers_and_body_idle cfg os (ret : Z) (c : http_client_t) (r : http_request_t) :
  in_ok c -> at_end c -> req c = Some r -> content_len r <= 0 ->
  headers_and_body cfg os ret c = (0, c).
Proof.
  intros Hok He Hr Hcl. unfold headers_and_body. rewrite header_loop_step, Hr.
  assert (Hread : client_readline cfg c = (0, [], c)).
  { unfold client_readline. now rewrite unread_at_end. }
  assert (Hbody : body_phase cfg os c = (0, c)).
  { unfold body_phase. rewrite Hr. destruct (Z.gtb_spec (content_len r) 0); [lia | reflexivity]. }
  destruct (content_len r =? -1); [|exact Hbody].
  rewrite Hread. cbn [Z.gtb Z.compare]. exact Hbody.
Qed.

Lemma parse_request_line_keeps (ver : bytes) (r r0 : http_request_t) (line : bytes) :
  parse_request_line ver r line = (0, r0) ->
  line <> [] /\ content_len r0 = content_len r /\ headers r0 = headers r.
Proof.
  unfold parse_request_line. intros H. split.
  - intros ->. cbn in H. inversion H.
  - destruct (sscanf_3s line) as [[[n m] u] v].
    assert (Hk : content_len (store_opt u set_uri (store_opt m set_method r)) = content_len r
                 /\ headers (store_opt u set_uri (store_opt m set_method r)) = headers r).
    { destruct u, m; cbn; auto. }
    destruct (n <? 3); [inversion H|].
    destruct (_ && _); [inversion H|].
    destruct (negb _); inversion H. subst r0. exact Hk.
Qed.

Lemma parse_header_keeps (r r' : http_request_t) (line : bytes) :
  parse_header r line = (0, r') ->
  line <> [] /\ content_len r' = content_len r /\ method r' = method r.
Proof.
  unfold parse_header. intros H. split.
  - intros ->. cbn in H. inversion H.
  - destruct (strchr line ":") as [i|]; [|inversion H].
    destruct (_ || _); [inversion H|].
    destruct (copy_trimmed_string line 0 (i - 1)); [|inversion H].
    destruct (copy_trimmed_string line (i + 1) (strlen line - 1)); inversion H.
    auto.
Qed.

Lemma strlen_nonempty (l : bytes) : l <> [] -> (strlen l =? 0) = false.
Proof. intros H. unfold strlen. destruct l; [congruence|]. cbn [length]. apply Z.eqb_neq. lia. Qed.

(** The request line in one piece. *)
Lemma http_parse_request_line cfg os (c : http_client_t) (rl : bytes) (t : bool)
      (r0 : http_request_t) :
  in_ok c -> at_end c -> req c = None -> plain_line cfg rl ->
  parse_request_line (http_version cfg) (set_content_len new_request (-1)) rl = (0, r0) ->
  http_parse cfg os (feed c (rl ++ eol t)) = (0, set_req (advance c (rl ++ eol t)) (Some r0)).
Proof.
  intros Hok He Hr Hplain Hparse.
  destruct (parse_request_line_keeps _ _ _ _ Hparse) as (Hne & Hcl & _).
  destruct (in_ok_advance c (rl ++ eol t) Hok He) as [Hok' He'].
  unfold http_parse. cbn [req feed set_in]. fold (feed c (rl ++ eol t)). rewrite Hr.
  rewrite client_readline_line by assumption.
  rewrite strlen_nonempty by assumption.
  destruct (Z.eqb_spec (Z.of_nat (length (rl ++ eol t))) 0) as [H0|_].
  { rewrite length_app in H0. destruct t; cbn in H0; lia. }
  destruct (Z.ltb_spec (Z.of_nat (length (rl ++ eol t))) 0) as [|_]; [lia|].
  rewrite Hparse. cbn [Z.gtb Z.compare].
  apply (headers_and_body_idle cfg os 0 _ r0); try assumption; try reflexivity.
  rewrite Hcl. cbn. lia.
Qed.

(** A header line in one piece. *)
Lemma http_parse_header_line cfg os (c : http_client_t) (h : bytes) (t : bool)
      (r r' : http_request_t) :
  in_ok c -> at_end c -> req c = Some r -> content_len r = -1 -> plain_line cfg h ->
  parse_header r h = (0, r') ->
  http_parse cfg os (feed c (h ++ eol t)) = (0, set_req (advance c (h ++ eol t)) (Some r')).
Proof.
  intros Hok He Hr Hcl Hplain Hparse.
  destruct (parse_header_keeps _ _ _ Hparse) as (Hne & Hcl' & _).
  destruct (in_ok_advance c (h ++ eol t) Hok He) as [Hok' He'].
  unfold http_parse. cbn [req feed set_in]. fold (feed c (h ++ eol t)). rewrite Hr.
  unfold headers_and_body at 1. rewrite header_loop_step.
  cbn [req feed set_in]. fold (feed c (h ++ eol t)). rewrite Hr, Hcl. cbn [Z.eqb Pos.eqb].
  rewrite client_readline_line by assumption.
  destruct (Z.gtb_spec (Z.of_nat (length (h ++ eol t))) 0) as [_|H0].
  2:{ rewrite length_app in H0. destruct t; cbn in H0; lia. }
  rewrite strlen_nonempty by assumption. rewrite Hparse. cbn [Z.eqb].
  apply (headers_and_body_idle cfg os 0 _ r'); try assumption; try reflexivity.
  rewrite Hcl', Hcl. lia.
Qed.

Lemma post_is_not_get (m : bytes) :
  strcicmp m (literal "POST") = 0 -> strcicmp m (literal "GET") <> 0.
Proof.
  destruct m as [|x m]; [vm_compute; discriminate|].
  cbn [strcicmp literal list_ascii_of_string].
  change (code (tolower "P")) with 112. change (code (tolower "G")) with 103.
  destruct (Z.eqb_spec (code (tolower x) - 112) 0) as [H|H]; [|intros; contradiction].
  intros _. destruct (Z.eqb_spec (code (tolower x) - 103) 0); lia.
Qed.

(** The blank line that ends the headers of a POST request. *)
Lemma http_parse_post_blank cfg os (c : http_client_t) (t : bool)
      (r : http_request_t) (b : bytes) :
  in_ok c -> at_end c -> req c = Some r -> content_len r = -1 -> 0 < MAXBUF cfg ->
  strcicmp (method r) (literal "POST") = 0 ->
  get_request_header r (literal "Content-Length") = Some b ->
  b <> [] -> all_digits b = true ->
  http_parse cfg os (feed c (eol t)) =
  (0, set_req (advance c (eol t)) (Some (set_content_len r (atoi b)))).
Proof.
  intros Hok He Hr Hcl Hmax Hpost Hget Hb Hdig.
  destruct (in_ok_advance c (eol t) Hok He) as [Hok' He'].
  assert (Hplain : plain_line cfg []).
  { unfold plain_line. cbn [In last length Z.of_nat].
    split; [tauto|]. split; [tauto|]. split; [discriminate | lia]. }
  pose proof (client_readline_line cfg c [] t Hok He Hplain) as Hread. cbn [app] in Hread.
  unfold http_parse. cbn [req feed set_in]. fold (feed c (eol t)). rewrite Hr.
  unfold headers_and_body at 1. rewrite header_loop_step.
  cbn [req feed set_in]. fold (feed c (eol t)). rewrite Hr, Hcl. cbn [Z.eqb Pos.eqb].
  rewrite Hread.
  destruct (Z.gtb_spec (Z.of_nat (length (eol t))) 0) as [_|H0].
  2:{ destruct t; cbn in H0; lia. }
  cbn [strlen length Z.of_nat Z.eqb].
  unfold end_of_headers, method_is. cbn [req advance set_in]. rewrite Hr.
  destruct (Z.eqb_spec (strcicmp (method r) (literal "GET")) 0) as [Hg|_].
  { now apply post_is_not_get in Hpost. }
  cbn [req advance set_in]. rewrite Hr, Hpost. cbn [Z.eqb].
  rewrite Hget, strlen_nonempty, Hdig by assumption. cbn [negb].
  unfold body_phase. cbn [req set_req advance set_in c_in datasize pos content_len set_content_len].
  destruct (Z.gtb_spec (atoi b) 0) as [Hpos|Hz]; [|reflexivity].
  unfold at_end in He. rewrite He.
  destruct (Z.geb_spec (datasize (c_in c) + Z.of_nat (length (eol t))
                        - (datasize (c_in c) + Z.of_nat (length (eol t)))) (atoi b));
    [lia | reflexivity].
Qed.

(** A body that is not all there. *)
Lemma http_parse_partial_body cfg os (c : http_client_t) (u : bytes) (r : http_request_t) :
  in_ok c -> at_end c -> req c = Some r ->
  Z.of_nat (length u) < content_len r ->
  http_parse cfg os (feed c u) = (0, feed c u).
Proof.
  intros Hok He Hr Hlen.
  unfold http_parse. cbn [req feed set_in]. fold (feed c u). rewrite Hr.
  unfold headers_and_body. rewrite header_loop_step.
  cbn [req feed set_in]. fold (feed c u). rewrite Hr.
  destruct (Z.eqb_spec (content_len r) (-1)); [lia|].
  unfold body_phase. cbn [req feed set_in c_in datasize pos]. rewrite Hr.
  destruct (Z.gtb_spec (content_len r) 0); [|lia].
  unfold at_end in He. rewrite He.
  destruct (Z.geb_spec (datasize (c_in c) + Z.of_nat (length u) - datasize (c_in c))
                       (content_len r)); [lia | reflexivity].
Qed.

Lemma proper_prefix_no_lf (l : bytes) (t : bool) (p u : bytes) :
  ~ In LF l -> l ++ eol t = p ++ u -> u <> [] -> ~ In LF p.
Proof.
  intros Hl He Hu Hin.
  destruct (exists_last Hu) as (u' & a & ->).
  assert (Hx : l ++ eol t = (l ++ if t then [CR] else []) ++ [LF]).
  { destruct t; cbn [eol]; [now rewrite <- app_assoc | now rewrite app_nil_r]. }
  rewrite Hx, app_assoc in He. apply app_inj_tail in He. destruct He as [He _].
  assert (Hin' : In LF (l ++ if t then [CR] else [])).
  { rewrite He. apply in_or_app. now left. }
  apply in_app_or in Hin'. destruct Hin' as [H|H]; [contradiction|].
  destruct t; cbn in H; [destruct H as [H|[]]; discriminate H | contradiction].
Qed.

Lemma split_at_piece (a rest p q : bytes) :
  a ++ rest = p ++ q ->
  (exists u, a = p ++ u /\ u <> []) \/ (exists p1, p = a ++ p1 /\ rest = p1 ++ q).
Proof.
  intros H. apply app_eq_app in H. destruct H as (l & [[Ha Hq]|[Hp Hr]]).
  - destruct l as [|x l].
    + right. exists []. rewrite app_nil_r in Ha. cbn [app] in Hq. rewrite app_nil_r. auto.
    + left. exists (x :: l). split; [exact Ha | discriminate].
  - right. exists l. auto.
Qed.

(** The header section of a well-formed request, received up to any point
    short of its end, leaves the request in flight. *)
Lemma headers_wait cfg os (hs : list (bytes * bool)) :
  forall (c : http_client_t) (r rn : http_request_t) (tb : bool) (body_ p q : bytes),
    in_ok c -> at_end c -> req c = Some r -> content_len r = -1 -> 0 < MAXBUF cfg ->
    Forall (fun h => plain_line cfg (fst h)) hs ->
    parse_headers r (map fst hs) = (0, rn) ->
    (if strcicmp (method rn) (literal "POST") =? 0
     then exists b, get_request_header rn (literal "Content-Length") = Some b /\
                    b <> [] /\ all_digits b = true /\ atoi b = Z.of_nat (length body_)
     else body_ = []) ->
    wire hs ++ eol tb ++ body_ = p ++ q -> q <> [] ->
    exists c', http_parse cfg os (feed c p) = (0, c') /\ req c' <> None.
Proof.
  induction hs as [|[h t] hs IH];
    intros c r rn tb body_ p q Hok He Hr Hcl Hmax Hplain Hparse Hbody Hw Hq.
  - cbn [wire map concat app] in Hw. cbn [map parse_headers] in Hparse.
    inversion Hparse; subst rn.
    destruct (split_at_piece _ _ _ _ Hw) as [(u & Hu & Hne)|(p1 & -> & Hb)].
    + exists (feed c p). split; [|cbn [req feed set_in]; congruence].
      apply http_parse_partial_line; try assumption.
      * apply (proper_prefix_no_lf [] tb p u); [tauto | exact Hu | exact Hne].
      * right. exists r. auto.
    + destruct (Z.eqb_spec (strcicmp (method r) (literal "POST")) 0) as [Hpost|Hnp].
      2:{ rewrite Hbody in Hb. destruct p1; [|discriminate]. cbn [app] in Hb. congruence. }
      destruct Hbody as (b & Hget & Hb0 & Hdig & Hlen).
      pose proof (http_parse_post_blank cfg os c tb r b Hok He Hr Hcl Hmax Hpost Hget Hb0 Hdig)
        as Hblank.
      destruct (in_ok_advance c (eol tb) Hok He) as [Hok' He'].
      set (c1 := set_req (advance c (eol tb)) (Some (set_content_len r (atoi b)))) in *.
      rewrite <- (feed_feed c (eol tb) p1 Hok).
      assert (Hw1 : waiting (feed c (eol tb)) c1) by (left; discriminate).
      rewrite <- (http_parse_resume cfg os p1 (feed c (eol tb)) c1
                    (in_ok_feed c (eol tb) Hok) Hblank Hw1).
      exists (feed c1 p1). split; [|discriminate].
      apply (http_parse_partial_body cfg os c1 p1 (set_content_len r (atoi b)));
        try assumption; try reflexivity.
      cbn [content_len set_content_len]. rewrite Hlen, Hb, length_app.
      destruct q; [congruence | cbn [length]; lia].
  - cbn [wire map concat fst snd] in Hw. fold (wire hs) in Hw. rewrite <- app_assoc in Hw.
    cbn [map fst parse_headers] in Hparse.
    destruct (parse_header r h) as [ret r1] eqn:Hph.
    pose proof (parse_header_ret r h) as Hret. rewrite Hph in Hret. cbn [fst] in Hret.
    destruct (Z.eqb_spec ret (-1)) as [->|Hne1]; [inversion Hparse|].
    destruct Hret as [->|]; [|contradiction].
    pose proof (Forall_inv Hplain) as Hh. cbn [fst] in Hh.
    pose proof (Forall_inv_tail Hplain) as Hrest.
    destruct (split_at_piece _ _ _ _ Hw) as [(u & Hu & Hne)|(p1 & -> & Hb)].
    + exists (feed c p). split; [|cbn [req feed set_in]; congruence].
      apply http_parse_partial_line; try assumption.
      * apply (proper_prefix_no_lf h t p u); [apply Hh | exact Hu | exact Hne].
      * right. exists r. auto.
    + pose proof (http_parse_header_line cfg os c h t r r1 Hok He Hr Hcl Hh Hph) as Hline.
      destruct (in_ok_advance c (h ++ eol t) Hok He) as [Hok' He'].
      destruct (parse_header_keeps _ _ _ Hph) as (_ & Hcl1 & _).
      set (c1 := set_req (advance c (h ++ eol t)) (Some r1)) in *.
      rewrite <- (feed_feed c (h ++ eol t) p1 Hok).
      assert (Hw1 : waiting (feed c (h ++ eol t)) c1) by (left; discriminate).
      rewrite <- (http_parse_resume cfg os p1 (feed c (h ++ eol t)) c1
                    (in_ok_feed c (h ++ eol t) Hok) Hline Hw1).
      apply (IH c1 r1 rn tb body_ p1 q); try assumption; try reflexivity.
      rewrite Hcl1. exact Hcl.
Qed.

(** A well-formed request, received up to any point short of its end by a
    connection with no request in flight, leaves the parser waiting. *)
Lemma well_formed_prefix_waits cfg os (c0 : http_client_t) (w : bytes) :
  in_ok c0 -> at_end c0 -> req c0 = None -> well_formed cfg w ->
  prefix_waits cfg os c0 w.
Proof.
  intros Hok He Hr (rl & t0 & hs & tb & body_ & r0 & rn & -> & Hrl & Hhs & Hmax & Hp0 & Hps & Hbody)
         p q Hw Hq.
  destruct (split_at_piece _ _ _ _ Hw) as [(u & Hu & Hne)|(p1 & -> & Hb)].
  - exists (feed c0 p). split; [|now right].
    apply http_parse_partial_line; try assumption.
    + apply (proper_prefix_no_lf rl t0 p u); [apply Hrl | exact Hu | exact Hne].
    + now left.
  - pose proof (http_parse_request_line cfg os c0 rl t0 r0 Hok He Hr Hrl Hp0) as Hline.
    destruct (in_ok_advance c0 (rl ++ eol t0) Hok He) as [Hok' He'].
    destruct (parse_request_line_keeps _ _ _ _ Hp0) as (_ & Hcl & _).
    set (c1 := set_req (advance c0 (rl ++ eol t0)) (Some r0)) in *.
    rewrite <- (feed_feed c0 (rl ++ eol t0) p1 Hok).
    assert (Hw1 : waiting (feed c0 (rl ++ eol t0)) c1) by (left; discriminate).
    rewrite <- (http_parse_resume cfg os p1 (feed c0 (rl ++ eol t0)) c1
                  (in_ok_feed c0 (rl ++ eol t0) Hok) Hline Hw1).
    destruct (headers_wait cfg os hs c1 r0 rn tb body_ p1 q) as (c' & Hrun & Hreq);
      try assumption; try reflexivity.
    exists c'. split; [exact Hrun | now left].
Qed.

Lemma plain_lineb_sound cfg (l : bytes) : plain_lineb cfg l = true -> plain_line cfg l.
Proof.
  unfold plain_lineb, plain_line. intros H.
  apply andb_prop in H. destruct H as [H Hlen].
  apply andb_prop in H. destruct H as [H Hlast].
  apply andb_prop in H. destruct H as [Hlf Hnul].
  rewrite forallb_forall in Hlf, Hnul.
  split; [|split; [|split]].
  - intros Hin. specialize (Hlf _ Hin). now rewrite Ascii.eqb_refl in Hlf.
  - intros Hin. specialize (Hnul _ Hin). now rewrite Ascii.eqb_refl in Hnul.
  - intros He. rewrite He, Ascii.eqb_refl in Hlast. discriminate.
  - now apply Z.ltb_lt.
Qed.

Lemma recv_ready_init BUFSIZE : 4 <= BUFSIZE -> recv_ready BUFSIZE (init_buf BUFSIZE).
Proof.
  intros HB. unfold recv_ready, allocated, init_buf. cbn [buf bufsize datasize].
  rewrite repeat_length. pose proof (shiftr1_nonneg BUFSIZE ltac:(lia)). repeat split; lia.
Qed.

Lemma well_formed_nonempty cfg (w : bytes) : well_formed cfg w -> w <> [].
Proof.
  intros (rl & t0 & hs & tb & body_ & r0 & rn & -> & _) H.
  apply (f_equal (@length ascii)) in H. rewrite !length_app in H.
  destruct t0; cbn in H; lia.
Qed.

(** C1: a well-formed request may reach the connection in any number of
    readiness events, each bringing any number of non-empty segments: the
    connection ends in the state, and [http_parse] with the result, of the
    request arriving whole in one event.  The state compared is the request
    in flight, the bytes received and the read cursor, the output, the pipe,
    the status, the descriptors closed, and the handlers entered with the
    request each was entered on (method, uri, headers, content length and
    body); the capacity of the input buffer is left out.  Sizes are those
    of an [int]. *)
Theorem fragmentation_invariance cfg os (w : bytes) (events : list (list bytes)) :
  4 <= BUFSIZE cfg -> 3 * (Z.of_nat (length w) + BUFSIZE cfg) < 2 ^ 31 ->
  well_formed cfg w ->
  concat (concat events) = w -> Forall event_ok events ->
  observe (serve cfg os events (new_client cfg)) =
  observe (serve cfg os [[w]] (new_client cfg)).
Proof.
  intros HB Hsize Hwf Hcat Hev.
  pose proof (well_formed_nonempty cfg w Hwf) as Hne.
  set (c0 := norm (new_client cfg)).
  assert (Hok0 : in_ok c0) by (unfold in_ok; cbn; lia).
  assert (Hend0 : at_end c0) by reflexivity.
  pose proof (well_formed_prefix_waits cfg os c0 w Hok0 Hend0 eq_refl Hwf) as Hwaits.
  assert (Hsize' : 3 * (Z.of_nat (length w) + BUFSIZE cfg) < 2 ^ 64).
  { eapply Z.lt_trans; [exact Hsize | reflexivity]. }
  assert (Hone : forall evs, evs <> [] -> Forall event_ok evs -> concat (concat evs) = w ->
                 observe (serve cfg os evs (new_client cfg)) =
                 http_parse cfg os (feed c0 w)).
  { intros evs Hn Hall Hc.
    apply (serve_is_one_call cfg os c0 w HB Hok0 Hwaits Hsize' evs
             (new_client cfg) []); try assumption.
    - apply recv_ready_init, HB.
    - reflexivity.
    - now right. }
  assert (H1 : events <> []) by (intros ->; cbn in Hcat; congruence).
  assert (H2 : Forall event_ok [[w]]).
  { constructor; [|constructor]. split; [discriminate|]. constructor; [exact Hne | constructor]. }
  assert (H3 : concat (concat [[w]]) = w) by (cbn [concat app]; apply app_nil_r).
  assert (H4 : [[w]] <> []) by discriminate.
  rewrite (Hone events H1 Hev Hcat), (Hone [[w]] H4 H2 H3). reflexivity.
Qed.

Lemma fragmentation_invariance_witness :
  well_formed Ex.cfg (Ex.post_request "5" "hello") /\
  observe (serve Ex.cfg Ex.os
             [[literal "P"; literal "OST /cgi HT"];
              [literal "TP/1.1" ++ [CR]];
              [[LF] ++ literal "Content-Le"; literal "ngth: 5" ++ CRLF ++ [CR]];
              [[LF] ++ literal "he"];
              [literal "l"; literal "lo"]]
             (new_client Ex.cfg)) =
  observe (serve Ex.cfg Ex.os [[Ex.post_request "5" "hello"]] (new_client Ex.cfg)) /\
  fst (serve Ex.cfg Ex.os [[Ex.post_request "5" "hello"]] (new_client Ex.cfg)) = -1 /\
  map fst (handled (snd (serve Ex.cfg Ex.os [[Ex.post_request "5" "hello"]] (new_client Ex.cfg))))
  = [H_POST].
Proof.
  assert (Hwf : well_formed Ex.cfg (Ex.post_request "5" "hello")).
  { exists (literal "POST /cgi HTTP/1.1"), true, [(literal "Content-Length: 5", true)], true,
      (literal "hello").
    eexists. eexists.
    split; [reflexivity|].
    split; [apply plain_lineb_sound; reflexivity|].
    split; [constructor; [apply plain_lineb_sound; reflexivity | constructor]|].
    split; [reflexivity|].
    split; [vm_compute; reflexivity|].
    split; [vm_compute; reflexivity|].
    cbn. exists (literal "5"). repeat split. discriminate. }
  split; [exact Hwf|]. split; [|split; vm_compute; reflexivity].
  apply fragmentation_invariance.
  - vm_compute. discriminate.
  - vm_compute. reflexivity.
  - exact Hwf.
  - reflexivity.
  - repeat constructor; discriminate.
Defined.

(** *** The body of a POST request *)

(** With the headers parsed, [http_parse] goes straight to the body. *)
Lemma http_parse_body cfg os (c : http_client_t) (r : http_request_t) :
  req c = Some r -> content_len r <> -1 ->
  http_parse cfg os c = body_phase cfg os c.
Proof.
  intros Hr Hcl. unfold http_parse, headers_and_body. rewrite Hr, header_loop_step, Hr.
  destruct (Z.eqb_spec (content_len r) (-1)); [contradiction | reflexivity].
Qed.

(** X23: with a positive length [n] announced: short of [n] unread bytes nothing
    happens; with [n] unread bytes or more, the body is the view of the
    input buffer at the read cursor, the cursor moves by [n], and the POST
    handler runs and answers 501. *)
Lemma post_body_wait_then_dispatch cfg os (c : http_client_t) (r : http_request_t) :
  req c = Some r -> 0 < content_len r ->
  (datasize (c_in c) - pos (c_in c) < content_len r -> http_parse cfg os c = (0, c)) /\
  (content_len r <= datasize (c_in c) - pos (c_in c) ->
   http_parse cfg os c =
   end_request cfg os
     (enter (set_in (set_req c (Some (set_body r (Some (pos (c_in c))))))
                    (set_pos (c_in c) (pos (c_in c) + content_len r)))
            H_POST)
     NOT_IMPLEMENTED) /\
  handle_post c = (NOT_IMPLEMENTED, enter c H_POST).
Proof.
  intros Hr Hn. rewrite (http_parse_body cfg os c r Hr) by lia.
  unfold body_phase. rewrite Hr. destruct (Z.gtb_spec (content_len r) 0); [|lia].
  split; [|split; [|reflexivity]]; intros Hlen.
  - destruct (Z.geb_spec (datasize (c_in c) - pos (c_in c)) (content_len r)); [lia | reflexivity].
  - destruct (Z.geb_spec (datasize (c_in c) - pos (c_in c)) (content_len r)); [|lia].
    reflexivity.
Qed.

(** X24: with the length 0 announced, [http_parse] returns 0 and changes nothing,
    whatever the input buffer holds. *)
Lemma post_zero_length_stuck cfg os (c : http_client_t) (r : http_request_t) :
  req c = Some r -> content_len r = 0 -> http_parse cfg os c = (0, c).
Proof.
  intros Hr Hn. rewrite (http_parse_body cfg os c r Hr) by lia.
  unfold body_phase. rewrite Hr, Hn. reflexivity.
Qed.

(** C5 fails for a body of length 0.  The request
    ["POST /cgi HTTP/1.1\r\nContent-Length: 0\r\n\r\n"] is read to its end
    and stays in flight with [content_len = 0]: 0 is returned, no handler is
    entered and nothing is written.  A request that follows on the same
    connection is received and never read.  With [Content-Length: 5] and
    five bytes the POST handler is entered and 501 is written. *)
Lemma post_zero_length_never_dispatched :
  (let '(r, c) := serve Ex.cfg Ex.os [[Ex.post_request "0" ""]] (new_client Ex.cfg) in
   r = 0 /\ option_map content_len (req c) = Some 0 /\
   pos (c_in c) = datasize (c_in c) /\ handled c = [] /\ c_out c = []) /\
  (let '(r, c) := serve Ex.cfg Ex.os [[Ex.post_request "0" ""]; [Ex.get_request]]
                    (new_client Ex.cfg) in
   r = 0 /\ option_map content_len (req c) = Some 0 /\
   unread (c_in c) = Ex.get_request /\ handled c = [] /\ c_out c = []) /\
  (let '(r, c) := serve Ex.cfg Ex.os [[Ex.post_request "5" "hello"]] (new_client Ex.cfg) in
   r = -1 /\ map fst (handled c) = [H_POST] /\
   firstn 12 (c_out c) = literal "HTTP/1.1 501").
Proof. vm_compute. repeat split; reflexivity. Qed.

(** * Further properties of the code *)

(** ** io.c: receiving *)

Lemma unread_valid (b : buf_t) :
  0 <= pos b -> unread b = skipn (Z.to_nat (pos b)) (valid b).
Proof.
  intros Hp. unfold unread, valid, sub. rewrite skipn_firstn_comm. f_equal. lia.
Qed.

Lemma length_valid (b : buf_t) :
  allocated b -> 0 <= datasize b <= bufsize b -> Z.of_nat (length (valid b)) = datasize b.
Proof.
  unfold allocated, valid. intros Ha Hd. rewrite length_firstn. lia.
Qed.

Lemma total_length_cons (seg : bytes) (rest : list bytes) :
  total_length (seg :: rest) = Z.of_nat (length seg) + total_length rest.
Proof. unfold total_length. cbn [concat]. rewrite length_app. lia. Qed.

Lemma shiftr1_ge2 (x : Z) : 4 <= x -> 2 <= Z.shiftr x 1.
Proof.
  intros H. rewrite Z.shiftr_div_pow2 by lia. change (2 ^ 1) with 2.
  apply Z.div_le_lower_bound; lia.
Qed.

(** The loop of [io_recv] on any socket: the segments queued are stored in
    order after the bytes the buffer held, and the loop ends on the read
    that finds the queue empty. *)
Lemma recv_loop_drains BUFSIZE (s : sock_t) (b : buf_t) :
  4 <= BUFSIZE -> recv_ready BUFSIZE b ->
  Forall (fun seg => seg <> []) (rx s) ->
  3 * (datasize b + total_length (rx s) + BUFSIZE) < 2 ^ 64 ->
  exists b',
    recv_loop BUFSIZE s b =
      (match rx_end s with RxClosed => 0 | _ => -1 end,
       match rx_end s with RxClosed => ENONE | RxWouldBlock => EAGAIN | RxError => EOTHER end,
       b', drained s) /\
    recv_ready BUFSIZE b' /\
    valid b' = valid b ++ concat (rx s) /\
    datasize b' = datasize b + total_length (rx s) /\
    pos b' = pos b.
Proof.
  intros HB Hready Hne Hsize.
  destruct (recv_loop_invariant BUFSIZE
              (fun s1 b' => recv_ready BUFSIZE b' /\ drained s1 = drained s /\
                            Forall (fun seg => seg <> []) (rx s1) /\
                            valid b' ++ concat (rx s1) = valid b ++ concat (rx s) /\
                            datasize b' + total_length (rx s1) =
                              datasize b + total_length (rx s) /\
                            pos b' = pos b))
    with (s := s) (bp := b)
    as (s1 & data & n & err & b' & s' & Hloop & HP & Hn & Hlast).
  - intros s0 b0 n err data s' (Hr & He & Hall & Hv & Hd & Hp) Hrecv Hpos.
    unfold recv in Hrecv. destruct (rx s0) as [|seg rest] eqn:Hrx.
    { destruct (rx_end s0); inversion Hrecv; subst; lia. }
    inversion Hall as [|? ? Hseg Hrest]; subst.
    assert (Hlen : 0 < Z.of_nat (length seg)) by (destruct seg; [congruence | cbn; lia]).
    destruct Hr as (Ha & H0 & Hcap & Hfree & Hbound).
    pose proof (shiftr1_ge2 BUFSIZE HB) as HsB.
    assert (Htot : 0 <= total_length rest) by (unfold total_length; lia).
    pose proof (total_length_cons seg rest) as Hseglen.
    rewrite to_size_t_small in Hrecv by lia.
    set (k := Z.min (bufsize b0 - datasize b0 - 1) (Z.of_nat (length seg))) in *.
    inversion Hrecv; subst n err data s'. clear Hrecv.
    assert (Hk : 0 < k <= bufsize b0 - datasize b0 - 1) by lia.
    assert (Hdata : Z.of_nat (length (firstn (Z.to_nat k) seg)) = k)
      by (rewrite length_firstn; lia).
    destruct (recv_body_ready BUFSIZE b0 k (firstn (Z.to_nat k) seg) HB
                (conj Ha (conj H0 (conj Hcap (conj Hfree Hbound)))) Hk Hdata)
      as (Hr' & Hv' & Hd' & Hp').
    split; [exact Hr'|].
    split; [unfold drained in *; cbn [rx_end tx sent]; exact He|].
    rewrite Hv', Hd', Hp'. cbn [concat] in Hv. cbn [rx].
    destruct (Z.ltb_spec k (Z.of_nat (length seg))) as [Hlt|Hge].
    + split; [|split; [|split; [|exact Hp]]].
      * constructor; [|exact Hrest].
        intros Hnil. apply (f_equal (@length ascii)) in Hnil.
        rewrite length_skipn in Hnil. cbn in Hnil. lia.
      * cbn [concat]. rewrite <- Hv, <- !app_assoc. f_equal. rewrite app_assoc.
        now rewrite firstn_skipn.
      * rewrite <- Hd, Hseglen. rewrite total_length_cons, length_skipn. lia.
    + split; [exact Hrest|]. split; [|split; [|exact Hp]].
      * rewrite <- Hv, <- app_assoc. f_equal. f_equal. apply firstn_all2. lia.
      * rewrite <- Hd, Hseglen. lia.
  - repeat split; try assumption; try reflexivity; apply Hready.
  - destruct HP as (Hr & He & Hall & Hv & Hd & Hp).
    assert (Hrx : rx s1 = []).
    { destruct (rx s1) as [|seg rest] eqn:Hrx; [reflexivity|]. exfalso.
      unfold recv in Hlast. rewrite Hrx in Hlast.
      inversion Hall as [|? ? Hseg Hrest]; subst.
      assert (Hlen : 0 < Z.of_nat (length seg)) by (destruct seg; [congruence | cbn; lia]).
      destruct Hr as (Ha & H0 & Hcap & Hfree & Hbound).
      pose proof (shiftr1_ge2 BUFSIZE HB) as HsB.
      assert (Htot : 0 <= total_length rest) by (unfold total_length; lia).
      pose proof (total_length_cons seg rest) as Hseglen.
      rewrite to_size_t_small in Hlast by lia.
      inversion Hlast. lia. }
    assert (Hs1 : s1 = drained s).
    { rewrite <- He. destruct s1 as [r e t x]. cbn in Hrx. subst r. reflexivity. }
    assert (Hend : rx_end s1 = rx_end s) by (rewrite Hs1; reflexivity).
    unfold recv in Hlast. rewrite Hrx, Hend in Hlast.
    exists b'. rewrite Hloop.
    rewrite Hrx in Hv, Hd. cbn [concat] in Hv. rewrite app_nil_r in Hv.
    unfold total_length at 1 in Hd. cbn [concat length] in Hd.
    split; [|repeat split; try assumption; try apply Hr; lia].
    destruct (rx_end s); inversion Hlast; subst; reflexivity.
Qed.

(** X1: [io_recv] on a buffer it has kept ready ([recv_ready]: a block of
    [bufsize] bytes, at least half of [BUFSIZE] free, no larger than three
    times the data and [BUFSIZE]), with [BUFSIZE >= 4], the read cursor
    within the data, no empty segment queued and sizes within [int]
    ([3 * (datasize + queued + BUFSIZE) < 2 ^ 31]), stores every
    segment queued on the socket, in order, after the bytes the buffer held
    and leaves the read cursor alone; the buffer is ready again and its
    capacity an [int].  What it returns is decided by what
    ends the queue: [datasize], the bytes the buffer holds in all and not
    those of this call, when the socket would block; 0 when the peer has
    closed, also when bytes were stored by this very call; -1 when [recv]
    failed. *)
Theorem io_recv_outcome BUFSIZE (s : sock_t) (b : buf_t) :
  4 <= BUFSIZE -> recv_ready BUFSIZE b -> 0 <= pos b <= datasize b ->
  Forall (fun seg => seg <> []) (rx s) ->
  3 * (datasize b + total_length (rx s) + BUFSIZE) < 2 ^ 31 ->
  let '(n, b', s') := io_recv BUFSIZE s b in
  n = match rx_end s with
      | RxWouldBlock => datasize b + total_length (rx s)
      | RxClosed => 0
      | RxError => -1
      end /\
  s' = drained s /\
  datasize b' = datasize b + total_length (rx s) /\
  pos b' = pos b /\
  unread b' = unread b ++ concat (rx s) /\
  recv_ready BUFSIZE b' /\
  bufsize b' <= INT_MAX.
Proof.
  intros HB Hready Hpos Hne Hsize31.
  assert (Hsize : 3 * (datasize b + total_length (rx s) + BUFSIZE) < 2 ^ 64).
  { eapply Z.lt_trans; [exact Hsize31 | reflexivity]. }
  destruct (recv_loop_drains BUFSIZE s b HB Hready Hne Hsize)
    as (b' & Hloop & Hr' & Hv & Hd & Hp).
  assert (Hint : bufsize b' <= INT_MAX).
  { destruct Hr' as (_ & _ & _ & _ & Hbound). rewrite Hd in Hbound.
    assert (H31 : 2 ^ 31 = INT_MAX + 1) by reflexivity. lia. }
  unfold io_recv. rewrite Hloop.
  assert (Hun : unread b' = unread b ++ concat (rx s)).
  { rewrite !unread_valid by lia. rewrite Hv, Hp, skipn_app.
    destruct Hready as (Ha & H0 & Hcap & Hfree & Hbound).
    pose proof (shiftr1_nonneg BUFSIZE ltac:(lia)) as Hs.
    pose proof (length_valid b Ha ltac:(lia)) as Hlen.
    replace (Z.to_nat (pos b) - length (valid b))%nat with 0%nat by lia.
    reflexivity. }
  destruct (rx_end s);
    cbv [errno_eqb negb andb Z.eqb Z.ltb Z.compare];
    (split; [try reflexivity; lia|]);
    (split; [reflexivity|]); (split; [exact Hd|]); (split; [exact Hp|]);
    (split; [exact Hun|]); (split; [exact Hr' | exact Hint]).
Qed.

Lemma io_recv_outcome_witness :
  let s := mk_sock [literal "hello"; literal "wo"] RxClosed [] [] in
  let '(n, b', s') := io_recv 8 s (init_buf 8) in
  n = 0 /\
  s' = drained s /\
  datasize b' = 7 /\
  pos b' = 0 /\
  unread b' = literal "hellowo" /\
  recv_ready 8 b' /\
  bufsize b' <= INT_MAX.
Proof.
  apply (io_recv_outcome 8 (mk_sock [literal "hello"; literal "wo"] RxClosed [] [])
           (init_buf 8)).
  - lia.
  - unfold recv_ready, allocated. vm_compute. repeat split; discriminate.
  - vm_compute. split; discriminate.
  - repeat constructor; discriminate.
  - vm_compute. reflexivity.
Defined.

(** X2: with one free byte left ([datasize = bufsize - 1]) [io_recv] asks
    [recv] for 0 bytes; whatever is queued on the socket, nothing is read
    and 0 is returned, the value that stands for a closed connection. *)
Theorem io_recv_no_room BUFSIZE (s : sock_t) (bp : buf_t) :
  datasize bp = bufsize bp - 1 -> rx s <> [] ->
  fst (fst (io_recv BUFSIZE s bp)) = 0 /\ snd (fst (io_recv BUFSIZE s bp)) = bp /\
  concat (rx (snd (io_recv BUFSIZE s bp))) = concat (rx s).
Proof.
  intros Hd Hrx. unfold io_recv. rewrite recv_loop_step.
  replace (bufsize bp - datasize bp - 1) with 0 by lia.
  unfold recv. destruct (rx s) as [|seg rest]; [congruence|].
  change (to_size_t 0) with 0.
  assert (Hk : Z.min 0 (Z.of_nat (length seg)) = 0) by lia.
  cbv zeta. rewrite Hk. cbn [Z.gtb Z.compare Z.eqb fst snd Z.to_nat firstn skipn].
  destruct (Z.ltb_spec 0 (Z.of_nat (length seg))) as [Hlt|Hge]; cbn [rx fst snd];
    repeat split; try reflexivity.
  destruct seg; [reflexivity | cbn in Hge; lia].
Qed.

Lemma io_recv_no_room_witness :
  fst (fst (io_recv 8 Ex.sock (mk_buf (literal "abcdefgh") 8 7 0))) = 0 /\
  snd (fst (io_recv 8 Ex.sock (mk_buf (literal "abcdefgh") 8 7 0))) =
    mk_buf (literal "abcdefgh") 8 7 0 /\
  concat (rx (snd (io_recv 8 Ex.sock (mk_buf (literal "abcdefgh") 8 7 0)))) = concat (rx Ex.sock).
Proof.
  apply (io_recv_no_room 8 Ex.sock (mk_buf (literal "abcdefgh") 8 7 0)).
  - reflexivity.
  - discriminate.
Defined.

(** ** io.c: sending *)

Lemma length_unread (bp : buf_t) :
  buf_inv bp -> allocated bp -> Z.of_nat (length (unread bp)) = datasize bp - pos bp.
Proof.
  unfold buf_inv, allocated, unread, sub. intros (H0 & H1 & H2) Ha.
  rewrite length_firstn, length_skipn. lia.
Qed.

(** The [while] loop of [io_send], one iteration unfolded. *)
Lemma send_loop_step (s : sock_t) (bp : buf_t) (bytes_sent : Z) :
  send_loop s bp bytes_sent =
  if pos bp <? datasize bp
  then
    let '(nbytes, err, s') := send s (sub (buf bp) (pos bp) (datasize bp - pos bp))
                                   (datasize bp - pos bp) in
    if nbytes <? 0
    then if errno_eqb err EAGAIN || errno_eqb err EWOULDBLOCK
         then (inr bytes_sent, bp, s')
         else (inl (-1), bp, s')
    else send_loop s' (mk_buf (buf bp) (bufsize bp) (datasize bp) (pos bp + nbytes))
                   (bytes_sent + nbytes)
  else (inr bytes_sent, bp, s).
Proof.
  funelim (send_loop s bp bytes_sent).
  - destruct (Z.ltb_spec (pos bp) (datasize bp)); [lia | reflexivity].
  - rewrite Heq. destruct (Z.ltb_spec (pos bp) (datasize bp)); [|lia].
    destruct (Z.ltb_spec nbytes 0); [reflexivity | lia].
  - rewrite Heq. destruct (Z.ltb_spec (pos bp) (datasize bp)); [|lia].
    destruct (Z.ltb_spec nbytes 0); [lia | reflexivity].
Qed.

(** What one call of [send] does to the socket. *)
Lemma send_cases (s s' : sock_t) (data : bytes) (len n : Z) (err : errno_t) :
  send s data len = (n, err, s') -> 0 <= len < 2 ^ 64 ->
  (n = -1 /\ sent s' = sent s) \/
  (0 <= n <= len /\ sent s' = sent s ++ firstn (Z.to_nat n) data).
Proof.
  unfold send. intros H Hlen.
  destruct (tx s) as [|[room| |] rest]; inversion H; subst; cbn [sent]; auto.
  right. rewrite to_size_t_small by lia. split; [lia | reflexivity].
Qed.

(** The loop of [io_send]: what has left the buffer has reached the socket,
    in order; only [pos] moves. *)
Lemma send_loop_conserves (s : sock_t) (bp : buf_t) (acc : Z) :
  buf_inv bp -> allocated bp -> datasize bp < 2 ^ 64 ->
  let '(res, bp', s') := send_loop s bp acc in
  sent s' ++ unread bp' = sent s ++ unread bp /\
  buf bp' = buf bp /\ bufsize bp' = bufsize bp /\ datasize bp' = datasize bp /\
  pos bp <= pos bp' <= datasize bp /\
  Z.of_nat (length (sent s')) = Z.of_nat (length (sent s)) + (pos bp' - pos bp) /\
  match res with
  | inl r => r = -1
  | inr n => n = acc + (pos bp' - pos bp)
  end.
Proof.
  funelim (send_loop s bp acc); intros Hi Ha Hmax.
  - unfold buf_inv in Hi. repeat split; try reflexivity; lia.
  - destruct Hi as (Hp0 & Hp1 & Hp2).
    destruct (send_cases _ _ _ _ _ _ Heq ltac:(lia)) as [[_ Hs]|[Hn _]]; [|lia].
    destruct (_ || _); rewrite Hs; repeat split; try reflexivity; lia.
  - pose proof Hi as (Hp0 & Hp1 & Hp2).
    destruct (send_cases _ _ _ _ _ _ Heq ltac:(lia)) as [[Hn _]|[Hn Hs]]; [lia|].
    set (bp1 := mk_buf (buf bp) (bufsize bp) (datasize bp) (pos bp + nbytes)) in *.
    assert (Hi1 : buf_inv bp1) by (unfold buf_inv, bp1; cbn [pos datasize bufsize]; lia).
    assert (Ha1 : allocated bp1) by exact Ha.
    match goal with IH : buf_inv _ -> _ |- _ => specialize (IH Hi1 Ha1 Hmax) end.
    destruct (send_loop s' bp1 (bytes_sent + nbytes)) as [[res bp'] s''].
    destruct H as (Hc & Hb & Hbs & Hd & Hp & Hl & Hres).
    cbn [pos datasize bufsize buf bp1] in *.
    pose proof (length_unread bp Hi Ha) as Hlen.
    split; [|repeat split; try assumption; try lia].
    + rewrite Hc, Hs, <- app_assoc. f_equal.
      unfold unread, bp1. cbn [pos datasize buf].
      replace (datasize bp - (pos bp + nbytes)) with (datasize bp - pos bp - nbytes) by lia.
      apply sub_split; lia.
    + rewrite Hl, Hs, length_app, length_firstn. fold (unread bp). lia.
    + destruct res; lia.
Qed.

(** X3: [io_send] loses no byte and sends none twice: the bytes the socket
    has been given, followed by the bytes left unread in the buffer, are
    what they were before the call, whether the loop ran to the end, met a
    full queue or failed, and whether or not the buffer was shrunk.  A
    result [n >= 0] is the number of bytes handed to the socket; the other
    result is -1. *)
Theorem io_send_conserves BUFSIZE (s : sock_t) (bp : buf_t) :
  buf_inv bp -> allocated bp -> datasize bp < 2 ^ 64 ->
  let '(n, bp', s') := io_send BUFSIZE s bp in
  sent s' ++ unread bp' = sent s ++ unread bp /\
  (n = -1 \/
   0 <= n /\ Z.of_nat (length (sent s')) = Z.of_nat (length (sent s)) + n /\
   sent s' = sent s ++ firstn (Z.to_nat n) (unread bp)).
Proof.
  intros Hi Ha Hmax.
  pose proof (send_loop_conserves s bp 0 Hi Ha Hmax) as H.
  unfold io_send. destruct (send_loop s bp 0) as [[[r|n] bp'] s'].
  - destruct H as (Hc & _ & _ & _ & _ & _ & ->). auto.
  - destruct H as (Hc & Hb & Hbs & Hd & Hp & Hl & Hn).
    assert (Hi' : buf_inv bp') by (unfold buf_inv in *; lia).
    assert (Ha' : allocated bp') by (unfold allocated in *; congruence).
    assert (Hu : unread (if empty BUFSIZE bp' then io_shrink bp' else bp') = unread bp').
    { destruct (empty BUFSIZE bp'); [apply io_shrink_unread; assumption | reflexivity]. }
    rewrite Hu. split; [exact Hc|]. right.
    split; [lia|]. split; [lia|].
    assert (Hlen : length (sent s') = (length (sent s) + Z.to_nat n)%nat) by lia.
    apply (f_equal (firstn (length (sent s')))) in Hc.
    rewrite firstn_app, firstn_all, Nat.sub_diag in Hc. cbn [firstn] in Hc.
    rewrite app_nil_r in Hc. rewrite Hc, Hlen, firstn_app.
    rewrite firstn_all2 by lia. f_equal. f_equal. lia.
Qed.

Lemma io_send_conserves_witness :
  let '(n, bp', s') := io_send 8 Ex.sock Ex.half_read in
  sent s' ++ unread bp' = sent Ex.sock ++ unread Ex.half_read /\
  (n = -1 \/
   0 <= n /\ Z.of_nat (length (sent s')) = Z.of_nat (length (sent Ex.sock)) + n /\
   sent s' = sent Ex.sock ++ firstn (Z.to_nat n) (unread Ex.half_read)).
Proof.
  apply (io_send_conserves 8 Ex.sock Ex.half_read).
  - unfold buf_inv. vm_compute. repeat split; discriminate.
  - reflexivity.
  - vm_compute. reflexivity.
Defined.



(** X5: a buffer fresh from [init_buf] satisfies the capacity invariant,
    owns a block of [bufsize] bytes, holds nothing unread, and is neither
    [full] nor [empty]: neither [io_recv] nor [io_send] resizes it before
    data arrives. *)
Theorem init_buf_state BUFSIZE :
  0 <= BUFSIZE ->
  buf_inv (init_buf BUFSIZE) /\ allocated (init_buf BUFSIZE) /\
  unread (init_buf BUFSIZE) = [] /\
  full BUFSIZE (init_buf BUFSIZE) = false /\ empty BUFSIZE (init_buf BUFSIZE) = false /\
  (0 < BUFSIZE -> datasize (init_buf BUFSIZE) < bufsize (init_buf BUFSIZE)).
Proof.
  intros HB. pose proof (shiftr1_nonneg BUFSIZE HB) as Hs.
  unfold buf_inv, allocated, unread, full, empty, init_buf. cbn [pos datasize bufsize buf].
  rewrite repeat_length.
  repeat split; lia.
Qed.

Lemma init_buf_state_witness :
  buf_inv (init_buf 8) /\ allocated (init_buf 8) /\
  unread (init_buf 8) = [] /\
  full 8 (init_buf 8) = false /\ empty 8 (init_buf 8) = false /\
  (0 < 8 -> datasize (init_buf 8) < bufsize (init_buf 8)).
Proof. apply (init_buf_state 8). lia. Defined.

(** ** io.c: the pipe *)

(** X6: a step of [io_pipe] that returns 0 loses no byte and sends none
    twice: the bytes the socket has been given, then the bytes read and not
    sent yet, then the rest of the file, are what they were before the step,
    whatever part of the data [send] took. *)
Theorem io_pipe_conserves BUFSIZE (w : pipe_env) (pp : pipe_t) :
  0 < BUFSIZE < 2 ^ 64 -> 0 <= p_offset pp -> p_datasize pp < 2 ^ 64 ->
  let '(ret, pp', w') := io_pipe BUFSIZE w pp in
  ret = 0 ->
  sent (dst w') ++ pending pp' ++ content (src w') =
    sent (dst w) ++ pending pp ++ content (src w) /\
  0 <= p_offset pp' <= p_datasize pp' /\ p_datasize pp' < 2 ^ 64.
Proof.
  intros HB Ho Hd. unfold io_pipe.
  destruct (Z.leb_spec (p_datasize pp) (p_offset pp)) as [Hle|Hlt].
  - unfold read. destruct (is_closed w (from_fd pp) || io_error (src w)).
    { cbn. intros; lia. }
    set (data := firstn (Z.to_nat BUFSIZE) (content (src w))).
    assert (Hr : 0 <= Z.of_nat (length data) <= BUFSIZE).
    { unfold data. rewrite length_firstn. lia. }
    destruct (Z.eqb_spec (Z.of_nat (length data)) (-1)) as [|_]; [lia|].
    destruct (Z.eqb_spec (Z.of_nat (length data)) 0) as [|Hpos]; [intros; lia|].
    cbn [from_fd p_buf p_offset p_datasize]. unfold pipe_send. cbn [dst src closed trace].
    rewrite Z.sub_0_r, sub_store_prefix.
    destruct (send (dst w) data (Z.of_nat (length data))) as [[n err] s'] eqn:Hsend.
    destruct (send_cases _ _ _ _ _ _ Hsend ltac:(lia)) as [[-> _]|[Hn Hs]];
      [cbn; intros; lia|].
    destruct (Z.eqb_spec n (-1)) as [|_]; [lia|]. intros _.
    cbn [dst src sent content p_offset p_datasize p_buf pending].
    unfold pending. cbn [p_offset p_datasize p_buf].
    replace (sub (p_buf pp) (p_offset pp) (p_datasize pp - p_offset pp)) with (@nil ascii).
    2:{ unfold sub. replace (Z.to_nat (p_datasize pp - p_offset pp)) with 0%nat by lia.
        reflexivity. }
    split; [|lia].
    rewrite Hs, <- app_assoc. f_equal. cbn [app].
    pose proof (sub_split (store (p_buf pp) 0 data) 0 n (Z.of_nat (length data))
                  ltac:(lia) ltac:(lia)) as Hsplit.
    rewrite sub_store_prefix in Hsplit. cbn [Z.add] in Hsplit.
    rewrite Z.add_0_l, app_assoc, Hsplit. apply firstn_skipn.
  - unfold pipe_send.
    destruct (send (dst w) (sub (p_buf pp) (p_offset pp) (p_datasize pp - p_offset pp))
                (p_datasize pp - p_offset pp)) as [[n err] s'] eqn:Hsend.
    destruct (send_cases _ _ _ _ _ _ Hsend ltac:(lia)) as [[-> _]|[Hn Hs]];
      [cbn; intros; lia|].
    destruct (Z.eqb_spec n (-1)) as [|_]; [lia|]. intros _.
    cbn [dst src sent content p_offset p_datasize p_buf]. unfold pending.
    cbn [p_offset p_datasize p_buf].
    split; [|lia].
    rewrite Hs, <- app_assoc. f_equal. rewrite app_assoc. f_equal.
    replace (p_datasize pp - (p_offset pp + n)) with (p_datasize pp - p_offset pp - n) by lia.
    apply sub_split; lia.
Qed.

Lemma io_pipe_conserves_witness :
  let '(ret, pp', w') := io_pipe 8 Ex.env (init_pipe 8 7) in
  ret = 0 /\
  sent (dst w') = literal "012" /\ pending pp' = literal "34567" /\
  content (src w') = literal "89" /\
  sent (dst w') ++ pending pp' ++ content (src w') =
    sent (dst Ex.env) ++ pending (init_pipe 8 7) ++ content (src Ex.env).
Proof.
  pose proof (io_pipe_conserves 8 Ex.env (init_pipe 8 7)) as H.
  destruct (io_pipe 8 Ex.env (init_pipe 8 7)) as [[ret pp'] w'] eqn:E.
  vm_compute in E. inversion E; subst ret pp' w'. clear E.
  destruct H as [Hc _].
  - lia.
  - vm_compute. discriminate.
  - vm_compute. reflexivity.
  - reflexivity.
  - split; [reflexivity|]. split; [reflexivity|]. split; [reflexivity|].
    split; [reflexivity | exact Hc].
Defined.

(** X7: a socket whose queue is full ([send] fails with [EAGAIN]) ends the
    pipe: [io_pipe] does not look at [errno], closes the file, takes its
    descriptor out of the read set and returns -1, the bytes it holds
    unsent.  [io_send], on the same socket, stops its loop, keeps the
    bytes and returns 0. *)
Theorem would_block_ends_pipe BUFSIZE (w : pipe_env) (pp : pipe_t) (bp : buf_t)
        (rest : list tx_event) :
  tx (dst w) = TxWouldBlock :: rest ->
  p_offset pp < p_datasize pp -> pos bp < datasize bp ->
  (let '(ret, pp', w') := io_pipe BUFSIZE w pp in
   ret = -1 /\ pp' = pp /\ sent (dst w') = sent (dst w) /\
   is_closed w' (from_fd pp) = true /\ ~ In (from_fd pp) (read_fds_cpy w')) /\
  (let '(n, bp', s') := io_send BUFSIZE (dst w) bp in
   n = 0 /\ sent s' = sent (dst w) /\
   bp' = if empty BUFSIZE bp then io_shrink bp else bp).
Proof.
  intros Htx Hpp Hbp. split.
  - unfold io_pipe. destruct (Z.leb_spec (p_datasize pp) (p_offset pp)); [lia|].
    unfold pipe_send, send. rewrite Htx. cbn [Z.eqb].
    repeat split.
    + cbn. rewrite Z.eqb_refl. reflexivity.
    + cbn [remove_read_fd read_fds_cpy close]. intros Hin.
      apply filter_In in Hin. destruct Hin as [_ Hin].
      rewrite Z.eqb_refl in Hin. discriminate.
  - unfold io_send. rewrite send_loop_step.
    destruct (Z.ltb_spec (pos bp) (datasize bp)); [|lia].
    unfold send. rewrite Htx. cbn [Z.ltb Z.compare errno_eqb orb sent].
    repeat split.
Qed.

Lemma would_block_ends_pipe_witness :
  let w := mk_env (mk_file (literal "6789") false)
                  (mk_sock [] RxWouldBlock [TxWouldBlock; TxAccept 9] (literal "012"))
                  [] [7] [] in
  let pp := mk_pipe 7 (literal "012345") 3 6 in
  (let '(ret, pp', w') := io_pipe 8 w pp in
   ret = -1 /\ pp' = pp /\ sent (dst w') = sent (dst w) /\
   is_closed w' (from_fd pp) = true /\ ~ In (from_fd pp) (read_fds_cpy w')) /\
  (let '(n, bp', s') := io_send 8 (dst w) Ex.half_read in
   n = 0 /\ sent s' = sent (dst w) /\
   bp' = if empty 8 Ex.half_read then io_shrink Ex.half_read else Ex.half_read).
Proof.
  apply (would_block_ends_pipe 8
           (mk_env (mk_file (literal "6789") false)
                   (mk_sock [] RxWouldBlock [TxWouldBlock; TxAccept 9] (literal "012"))
                   [] [7] [])
           (mk_pipe 7 (literal "012345") 3 6) Ex.half_read [TxAccept 9]).
  - reflexivity.
  - reflexivity.
  - reflexivity.
Defined.

(** ** io.c: the [select] context *)

Lemma FD_ISSET_filter (f : Z -> bool) (fd : Z) (s : Select.fd_set) :
  Select.FD_ISSET fd (filter f s) = Select.FD_ISSET fd s && f fd.
Proof.
  unfold Select.FD_ISSET. induction s as [|x s IH]; [reflexivity|].
  cbn [filter existsb]. destruct (f x) eqn:Hx; cbn [existsb]; rewrite IH.
  - destruct (Z.eqb_spec fd x) as [->|_]; [now rewrite Hx | reflexivity].
  - destruct (Z.eqb_spec fd x) as [->|_]; [|reflexivity].
    rewrite Hx. cbn [orb]. now rewrite andb_false_r.
Qed.

Lemma FD_ISSET_In (fd : Z) (s : Select.fd_set) : Select.FD_ISSET fd s = true <-> In fd s.
Proof.
  unfold Select.FD_ISSET. rewrite existsb_exists. split.
  - intros (x & Hin & Heq). apply Z.eqb_eq in Heq. now subst.
  - intros Hin. exists fd. split; [exact Hin | apply Z.eqb_refl].
Qed.

Lemma perform_bounded (c : Select.select_context) (k : Select.call) :
  Select.bounded c -> Select.bounded (Select.perform c k).
Proof.
  unfold Select.bounded. intros Hb.
  destruct k as [|fd|fd|fd|fd|[|readable writable]]; cbn; intros x Hx.
  - tauto.
  - destruct (Z.gtb_spec fd (Select.fd_max c));
      destruct Hx as [[->|Hx]|Hx]; try lia; specialize (Hb x); intuition lia.
  - apply Hb. unfold Select.FD_CLR in Hx. rewrite filter_In in Hx. tauto.
  - destruct (Z.gtb_spec fd (Select.fd_max c));
      destruct Hx as [Hx|[->|Hx]]; try lia; specialize (Hb x); intuition lia.
  - apply Hb. unfold Select.FD_CLR in Hx. rewrite filter_In in Hx. tauto.
  - apply Hb. exact Hx.
  - apply Hb. exact Hx.
Qed.

Lemma fold_perform_bounded (calls : list Select.call) (c : Select.select_context) :
  Select.bounded c -> Select.bounded (fold_left Select.perform calls c).
Proof.
  revert c. induction calls as [|k calls IH]; intros c Hb; [exact Hb|].
  cbn [fold_left]. apply IH, perform_bounded, Hb.
Qed.

Lemma fold_perform_fd_max (calls : list Select.call) (c : Select.select_context) :
  Select.fd_max (fold_left Select.perform calls c) =
  fold_left Z.max (Select.added calls) (Select.fd_max c).
Proof.
  revert c. induction calls as [|k calls IH]; intros c; [reflexivity|].
  cbn [fold_left Select.added flat_map]. rewrite IH, fold_left_app. f_equal.
  destruct k as [|fd|fd|fd|fd|[|readable writable]]; cbn; try reflexivity.
  - destruct (Z.gtb_spec fd (Select.fd_max c)); lia.
  - destruct (Z.gtb_spec fd (Select.fd_max c)); lia.
Qed.

(** X8: after any succession of calls on the context no registered
    descriptor is above [fd_max], so that [io_select] hands [select] sets
    that lie below [fd_max + 1] and every registered descriptor is
    examined.  When [select] returns without failure, [test_read_fd] holds
    of a descriptor exactly when it is in the read set the callers have
    built and is readable, and likewise [test_write_fd].  When [select]
    fails, [io_select] returns -1 and the sets it tests are the copies as
    they were made: [test_read_fd] and [test_write_fd] hold of every
    registered descriptor, ready or not. *)
Theorem io_select_examines_registered (calls : list Select.call)
        (o : Select.select_outcome) (fd : Z) :
  let c := Select.after calls in
  let c' := snd (Select.io_select o c) in
  Select.bounded c /\
  match o with
  | Select.SelectReturns readable writable =>
      0 <= fst (Select.io_select o c) /\
      Select.test_read_fd fd c' = Select.FD_ISSET fd (Select.read_fds_cpy c) && readable fd /\
      Select.test_write_fd fd c' = Select.FD_ISSET fd (Select.write_fds_cpy c) && writable fd
  | Select.SelectFails =>
      fst (Select.io_select o c) = -1 /\
      Select.test_read_fd fd c' = Select.FD_ISSET fd (Select.read_fds_cpy c) /\
      Select.test_write_fd fd c' = Select.FD_ISSET fd (Select.write_fds_cpy c)
  end.
Proof.
  cbv zeta.
  assert (Hb : Select.bounded (Select.after calls)).
  { apply fold_perform_bounded. intros x [[]|[]]. }
  split; [exact Hb|].
  destruct o as [|readable writable]; [repeat split|].
  unfold Select.io_select, Select.select, Select.test_read_fd, Select.test_write_fd.
  cbn [fst snd Select.read_fds Select.write_fds]. rewrite !FD_ISSET_filter.
  split; [lia|]. split.
  - destruct (Select.FD_ISSET fd (Select.read_fds_cpy (Select.after calls))) eqn:Hin;
      [|reflexivity].
    apply FD_ISSET_In in Hin. specialize (Hb fd (or_introl Hin)).
    destruct (Z.ltb_spec fd (Select.fd_max (Select.after calls) + 1)); [reflexivity | lia].
  - destruct (Select.FD_ISSET fd (Select.write_fds_cpy (Select.after calls))) eqn:Hin;
      [|reflexivity].
    apply FD_ISSET_In in Hin. specialize (Hb fd (or_intror Hin)).
    destruct (Z.ltb_spec fd (Select.fd_max (Select.after calls) + 1)); [reflexivity | lia].
Qed.

(** X9: [fd_max] is the largest descriptor ever added to a set, or 0: it is
    raised by [add_read_fd] and [add_write_fd] and lowered by nothing,
    neither by the removal of a descriptor nor by [init_select_context]. *)
Theorem fd_max_never_lowered (calls : list Select.call) (k : Select.call) :
  Select.fd_max (Select.after calls) = fold_left Z.max (Select.added calls) 0 /\
  Select.fd_max (Select.after calls) <= Select.fd_max (Select.after (calls ++ [k])).
Proof.
  split; [apply fold_perform_fd_max|].
  unfold Select.after. rewrite !fold_perform_fd_max.
  unfold Select.added. rewrite flat_map_app, fold_left_app.
  cbn [Select.context Select.fd_max].
  set (m := fold_left Z.max _ 0). clearbody m.
  destruct k; cbn; lia.
Qed.

(** ** request_handler.c *)

Lemma deref_app_right (p e : bytes) (k : nat) :
  deref (p ++ e) (Z.of_nat (length p + k)) = nth k e zero.
Proof. unfold deref. rewrite Nat2Z.id. apply app_nth2_plus. Qed.

Lemma is_separator_false (x : ascii) (e : bytes) :
  no_separator e -> In x e -> Ascii.eqb x "." || Ascii.eqb x "/" = false.
Proof.
  intros [Hd Hs] Hin.
  destruct (Ascii.eqb_spec x "."%char) as [->|_]; [tauto|].
  destruct (Ascii.eqb_spec x "/"%char) as [->|_]; [tauto | reflexivity].
Qed.

(** The loop of [get_mimetype] walks back over characters that are neither
    dots nor slashes and stops on the first that is. *)
Lemma mimetype_scan_stops (p e : bytes) (c : ascii) (k : nat) :
  Ascii.eqb c "." || Ascii.eqb c "/" = true -> no_separator e -> (k <= length e)%nat ->
  mimetype_scan (p ++ c :: e) (length p + k) = length p.
Proof.
  intros Hc He. induction k as [|k IH]; intros Hk.
  - rewrite Nat.add_0_r. destruct (length p) as [|j] eqn:Hp; [reflexivity|].
    cbn [mimetype_scan]. rewrite <- Hp.
    replace (Z.of_nat (length p)) with (Z.of_nat (length p + 0)) by (f_equal; lia).
    rewrite deref_app_right. cbn [nth]. now rewrite Hc.
  - rewrite Nat.add_succ_r. cbn [mimetype_scan].
    replace (Z.of_nat (S (length p + k))) with (Z.of_nat (length p + S k)) by (f_equal; lia).
    rewrite deref_app_right. cbn [nth].
    rewrite (is_separator_false (nth k e zero) e He) by (apply nth_In; lia).
    apply IH. lia.
Qed.

Lemma mimetype_scan_start (e : bytes) (k : nat) :
  no_separator e -> (k < length e)%nat -> mimetype_scan e k = 0%nat.
Proof.
  intros He. induction k as [|k IH]; intros Hk; [reflexivity|].
  cbn [mimetype_scan]. unfold deref. rewrite Nat2Z.id.
  rewrite (is_separator_false (nth (S k) e zero) e He) by (apply nth_In; lia).
  apply IH. lia.
Qed.

(** X10: [get_mimetype] decides by the text after the last dot of the path,
    through the table of the five extensions, provided no slash follows
    that dot; a path whose last component has no dot, and a path without
    dot or slash, are [application/octet-stream]. *)
Theorem get_mimetype_by_extension (p e : bytes) :
  no_separator e ->
  get_mimetype (p ++ "."%char :: e) = mimetype_of_extension e /\
  get_mimetype (p ++ "/"%char :: e) = literal "application/octet-stream" /\
  (e <> [] -> get_mimetype e = literal "application/octet-stream").
Proof.
  intros He. split; [|split].
  - unfold get_mimetype.
    replace (length (p ++ "."%char :: e) - 1)%nat with (length p + length e)%nat
      by (rewrite length_app; cbn [length]; lia).
    rewrite (mimetype_scan_stops p e "."%char (length e)) by (auto; reflexivity).
    replace (Z.of_nat (length p)) with (Z.of_nat (length p + 0)) by (f_equal; lia).
    rewrite deref_app_right. cbn [nth]. rewrite Ascii.eqb_refl.
    replace (skipn (length p + 1) (p ++ "."%char :: e)) with e; [reflexivity|].
    rewrite skipn_app, skipn_all2 by lia.
    replace (length p + 1 - length p)%nat with 1%nat by lia. reflexivity.
  - unfold get_mimetype.
    replace (length (p ++ "/"%char :: e) - 1)%nat with (length p + length e)%nat
      by (rewrite length_app; cbn [length]; lia).
    rewrite (mimetype_scan_stops p e "/"%char (length e)) by (auto; reflexivity).
    replace (Z.of_nat (length p)) with (Z.of_nat (length p + 0)) by (f_equal; lia).
    rewrite deref_app_right. cbn [nth]. reflexivity.
  - intros Hne. unfold get_mimetype.
    assert (Hlen : (0 < length e)%nat) by (destruct e; [congruence | cbn; lia]).
    rewrite (mimetype_scan_start e (length e - 1) He) by lia.
    unfold deref. cbn [Z.of_nat Z.to_nat].
    destruct e as [|x e']; [congruence|]. cbn [nth].
    destruct (Ascii.eqb_spec x "."%char) as [->|_]; [|reflexivity].
    destruct He as [Hd _]. cbn [In] in Hd. tauto.
Qed.

Lemma get_mimetype_by_extension_witness :
  get_mimetype (literal "/srv/www.d/index" ++ "."%char :: literal "HTML") =
    mimetype_of_extension (literal "HTML") /\
  get_mimetype (literal "/srv/www.d" ++ "/"%char :: literal "HTML") =
    literal "application/octet-stream" /\
  (literal "HTML" <> [] -> get_mimetype (literal "HTML") = literal "application/octet-stream").
Proof.
  apply (get_mimetype_by_extension (literal "/srv/www.d/index") (literal "HTML")).
  split; intros H; cbn in H; repeat destruct H as [H|H]; try discriminate; exact H.
Defined.

(** X11: a URI that names a directory is served as the [index.html] of that
    directory, joined with a slash unless the path ends in one: [open_file]
    gives the same result for the directory as for that file, provided the
    file is not a directory itself. *)
Theorem open_file_directory_index cfg os (uri_ root : bytes) (mtime : Z) :
  os_realpath os (www_folder cfg) = Some root ->
  os_stat os (root ++ uri_) = Some (true, mtime) ->
  let index := if Ascii.eqb (deref (root ++ uri_) (strlen (root ++ uri_) - 1)) "/"
               then uri_ ++ literal "index.html"
               else uri_ ++ literal "/index.html" in
  (forall m, os_stat os (root ++ index) <> Some (true, m)) ->
  open_file cfg os uri_ = open_file cfg os index.
Proof.
  intros Hroot Hstat index Hfile. unfold open_file. rewrite Hroot, Hstat.
  assert (Hpath : (if Ascii.eqb (deref (root ++ uri_) (strlen (root ++ uri_) - 1)) "/"
                   then (root ++ uri_) ++ literal "index.html"
                   else (root ++ uri_) ++ literal "/index.html") = root ++ index).
  { unfold index. destruct (Ascii.eqb _ _); now rewrite app_assoc. }
  rewrite Hpath.
  destruct (os_stat os (root ++ index)) as [[[|] m]|] eqn:Hs; try reflexivity.
  exfalso. exact (Hfile m eq_refl).
Qed.

Lemma open_file_directory_index_witness :
  open_file Ex.cfg Ex.os (literal "/") = open_file Ex.cfg Ex.os (literal "/index.html").
Proof.
  apply (open_file_directory_index Ex.cfg Ex.os (literal "/") (literal "/srv/www") 0).
  - reflexivity.
  - reflexivity.
  - intros m. vm_compute. discriminate.
Defined.

Lemma fold_close_fd_fields (l : list Z) (c : http_client_t) :
  req (fold_left close_fd l c) = req c /\
  c_out (fold_left close_fd l c) = c_out c /\
  pipe (fold_left close_fd l c) = pipe c /\
  status (fold_left close_fd l c) = status c /\
  c_closed (fold_left close_fd l c) = rev l ++ c_closed c.
Proof.
  revert c. induction l as [|fd l IH]; intros c; [repeat split|].
  cbn [fold_left]. destruct (IH (close_fd c fd)) as (H1 & H2 & H3 & H4 & H5).
  rewrite H1, H2, H3, H4, H5. cbn [rev]. rewrite <- app_assoc. repeat split.
Qed.

Lemma open_file_status cfg os (uri_ : bytes) (code_ : Z) (fds : list Z) :
  open_file cfg os uri_ = (inl code_, fds) ->
  code_ = NOT_FOUND \/ code_ = INTERNAL_SERVER_ERROR.
Proof.
  unfold open_file.
  destruct (os_realpath os (www_folder cfg)) as [root|]; [|intros [= <- _]; auto].
  destruct (os_stat os (root ++ uri_)) as [[is_dir mtime]|]; [|intros [= <- _]; auto].
  destruct (if is_dir then _ else _) as [[d m]|]; [|intros [= <- _]; auto].
  destruct (os_open os _) as [fd|]; [|intros [= <- _]; auto].
  destruct (os_lseek_end os fd) as [size|]; [|intros [= <- _]; auto].
  destruct (os_lseek_set os fd); [discriminate | intros [= <- _]; auto].
Qed.

Lemma open_file_success cfg os (uri_ : bytes) (res : Z * Z * bytes * bytes) (fds : list Z) :
  open_file cfg os uri_ = (inr res, fds) -> fds = [].
Proof.
  unfold open_file.
  destruct (os_realpath os (www_folder cfg)) as [root|]; [|discriminate].
  destruct (os_stat os (root ++ uri_)) as [[is_dir mtime]|]; [|discriminate].
  destruct (if is_dir then _ else _) as [[d m]|]; [|discriminate].
  destruct (os_open os _) as [fd|]; [|discriminate].
  destruct (os_lseek_end os fd) as [size|]; [|discriminate].
  destruct (os_lseek_set os fd); [intros [= _ <-]; reflexivity | discriminate].
Qed.

(** X12: the answer to HEAD is the answer to GET without the body:
    [handle_head] returns what [handle_get] returns and writes the same
    bytes to the output buffer. *)
Theorem head_answers_as_get cfg os (c : http_client_t) :
  fst (handle_head cfg os c) = fst (handle_get cfg os c) /\
  c_out (snd (handle_head cfg os c)) = c_out (snd (handle_get cfg os c)).
Proof.
  unfold handle_head, handle_get, internal_handler.
  cbn [req set_status enter].
  destruct (req c) as [r|]; [|split; reflexivity].
  destruct (open_file cfg os (uri r)) as [[code_|[[[fd size] mt] lm]] fds].
  - cbn [fst snd].
    split; [reflexivity|].
    destruct (fold_close_fd_fields fds (set_status (enter c H_HEAD) C_IDLE)) as (_ & -> & _).
    destruct (fold_close_fd_fields fds (set_status (enter c H_GET) C_PIPING)) as (_ & -> & _).
    reflexivity.
  - destruct (connection_close r); cbn [fst snd c_out close_fd set_pipe];
      unfold client_write_string, send_header, send_response_line, client_write_string;
      cbn [c_out set_out];
      destruct (fold_close_fd_fields fds (set_status (enter c H_HEAD) C_IDLE)) as (_ & -> & _);
      destruct (fold_close_fd_fields fds (set_status (enter c H_GET) C_PIPING)) as (_ & -> & _);
      split; reflexivity.
Qed.

(** X13: when the file cannot be served, [handle_get] and [handle_head]
    return 404 or 500, write nothing and attach no pipe; [handle_get] has
    set the status to [C_PIPING] before it tried the file, and leaves it
    so. *)
Theorem handler_failure cfg os (c : http_client_t) (r : http_request_t) :
  req c = Some r ->
  (fst (handle_get cfg os c) <> 0 ->
   (fst (handle_get cfg os c) = NOT_FOUND \/
    fst (handle_get cfg os c) = INTERNAL_SERVER_ERROR) /\
   c_out (snd (handle_get cfg os c)) = c_out c /\
   pipe (snd (handle_get cfg os c)) = pipe c /\
   status (snd (handle_get cfg os c)) = C_PIPING) /\
  (fst (handle_head cfg os c) <> 0 ->
   (fst (handle_head cfg os c) = NOT_FOUND \/
    fst (handle_head cfg os c) = INTERNAL_SERVER_ERROR) /\
   c_out (snd (handle_head cfg os c)) = c_out c /\
   pipe (snd (handle_head cfg os c)) = pipe c /\
   status (snd (handle_head cfg os c)) = C_IDLE).
Proof.
  intros Hr. unfold handle_get, handle_head, internal_handler.
  cbn [req set_status enter]. rewrite Hr.
  destruct (open_file cfg os (uri r)) as [[code_|[[[fd size] mt] lm]] fds] eqn:Hopen.
  - pose proof (open_file_status cfg os (uri r) code_ fds Hopen) as Hcode.
    cbn [fst snd].
    destruct (fold_close_fd_fields fds (set_status (enter c H_GET) C_PIPING))
      as (_ & -> & -> & -> & _).
    destruct (fold_close_fd_fields fds (set_status (enter c H_HEAD) C_IDLE))
      as (_ & -> & -> & -> & _).
    split; intros _; repeat split; assumption.
  - split; intros H; exfalso; apply H; reflexivity.
Qed.

Lemma handler_failure_witness :
  let c := set_req (new_client Ex.cfg)
             (Some (mk_request (literal "GET") (literal "/missing") [] (-1) None)) in
  fst (handle_get Ex.cfg Ex.os c) = NOT_FOUND /\
  c_out (snd (handle_get Ex.cfg Ex.os c)) = c_out c /\
  pipe (snd (handle_get Ex.cfg Ex.os c)) = pipe c /\
  status (snd (handle_get Ex.cfg Ex.os c)) = C_PIPING.
Proof.
  cbv zeta.
  destruct (handler_failure Ex.cfg Ex.os
              (set_req (new_client Ex.cfg)
                 (Some (mk_request (literal "GET") (literal "/missing") [] (-1) None)))
              (mk_request (literal "GET") (literal "/missing") [] (-1) None) eq_refl)
    as [Hget _].
  destruct Hget as (_ & Hout & Hpipe & Hstatus); [vm_compute; discriminate|].
  split; [vm_compute; reflexivity|]. split; [exact Hout|]. split; [exact Hpipe | exact Hstatus].
Defined.

(** X14: when the file can be served, the descriptor [open_file] returned
    has one owner: [handle_get] hands it to a fresh pipe, whose scratch
    buffer is empty so that its first step reads the file, and closes
    nothing; [handle_head] closes it and leaves the pipe of the connection
    alone. *)
Theorem handler_success cfg os (c : http_client_t) (r : http_request_t) :
  req c = Some r ->
  (fst (handle_get cfg os c) = 0 ->
   exists fd size mt lm,
     open_file cfg os (uri r) = (inr (fd, size, mt, lm), []) /\
     pipe (snd (handle_get cfg os c)) = Some (init_pipe (BUFSIZE cfg) fd) /\
     p_datasize (init_pipe (BUFSIZE cfg) fd) <= p_offset (init_pipe (BUFSIZE cfg) fd) /\
     c_closed (snd (handle_get cfg os c)) = c_closed c /\
     status (snd (handle_get cfg os c)) = C_PIPING) /\
  (fst (handle_head cfg os c) = 0 ->
   exists fd size mt lm,
     open_file cfg os (uri r) = (inr (fd, size, mt, lm), []) /\
     pipe (snd (handle_head cfg os c)) = pipe c /\
     c_closed (snd (handle_head cfg os c)) = fd :: c_closed c /\
     status (snd (handle_head cfg os c)) = C_IDLE).
Proof.
  intros Hr. unfold handle_get, handle_head, internal_handler.
  cbn [req set_status enter]. rewrite Hr.
  destruct (open_file cfg os (uri r)) as [[code_|[[[fd size] mt] lm]] fds] eqn:Hopen.
  - pose proof (open_file_status cfg os (uri r) code_ fds Hopen) as Hcode.
    cbn [fst snd].
    split; intros ->; destruct Hcode; discriminate.
  - pose proof (open_file_success cfg os (uri r) _ fds Hopen) as ->.
    cbn [fold_left].
    split; intros _; exists fd, size, mt, lm; (split; [reflexivity|]);
      destruct (connection_close r); cbn; repeat split; reflexivity.
Qed.

Lemma handler_success_witness :
  let r := mk_request (literal "GET") (literal "/index.html") [] (-1) None in
  let c := set_req (new_client Ex.cfg) (Some r) in
  exists fd size mt lm,
    open_file Ex.cfg Ex.os (uri r) = (inr (fd, size, mt, lm), []) /\
    pipe (snd (handle_get Ex.cfg Ex.os c)) = Some (init_pipe (BUFSIZE Ex.cfg) fd) /\
    p_datasize (init_pipe (BUFSIZE Ex.cfg) fd) <= p_offset (init_pipe (BUFSIZE Ex.cfg) fd) /\
    c_closed (snd (handle_get Ex.cfg Ex.os c)) = c_closed c /\
    status (snd (handle_get Ex.cfg Ex.os c)) = C_PIPING.
Proof.
  cbv zeta.
  destruct (handler_success Ex.cfg Ex.os
              (set_req (new_client Ex.cfg)
                 (Some (mk_request (literal "GET") (literal "/index.html") [] (-1) None)))
              (mk_request (literal "GET") (literal "/index.html") [] (-1) None) eq_refl)
    as [Hget _].
  apply Hget. vm_compute. reflexivity.
Defined.

(** ** http_parser.c *)

Lemma plain_line_nil cfg : 0 < MAXBUF cfg -> plain_line cfg [].
Proof.
  intros Hmax. unfold plain_line. cbn [In last length Z.of_nat].
  split; [tauto|]. split; [tauto|]. split; [discriminate | lia].
Qed.

Lemma eol_length (t : bool) : 0 < Z.of_nat (length (eol t)).
Proof. destruct t; cbn; lia. Qed.

(** The blank line that ends the headers, in one piece. *)
Lemma http_parse_blank cfg os (c : http_client_t) (t : bool) (r : http_request_t) :
  in_ok c -> at_end c -> req c = Some r -> content_len r = -1 -> 0 < MAXBUF cfg ->
  http_parse cfg os (feed c (eol t)) = headers_end cfg os (advance c (eol t)).
Proof.
  intros Hok He Hr Hcl Hmax.
  pose proof (client_readline_line cfg c [] t Hok He (plain_line_nil cfg Hmax)) as Hread.
  cbn [app] in Hread.
  unfold http_parse. cbn [req feed set_in]. fold (feed c (eol t)). rewrite Hr.
  unfold headers_and_body at 1. rewrite header_loop_step.
  cbn [req feed set_in]. fold (feed c (eol t)). rewrite Hr, Hcl. cbn [Z.eqb Pos.eqb].
  rewrite Hread.
  pose proof (eol_length t) as Hlen.
  destruct (Z.gtb_spec (Z.of_nat (length (eol t))) 0) as [_|H0]; [|lia].
  cbn [strlen length Z.of_nat Z.eqb]. reflexivity.
Qed.

Lemma set_req_same (c : http_client_t) (r : http_request_t) :
  req c = Some r -> set_req c (Some r) = c.
Proof. destruct c. cbn. intros ->. reflexivity. Qed.

Lemma valid_advance (c : http_client_t) (e : bytes) :
  in_ok c -> valid (c_in (advance c e)) = valid (c_in c) ++ e.
Proof.
  intros [Hp Hd]. unfold valid, advance. cbn [c_in set_in datasize buf].
  apply firstn_all2. fold (valid (c_in c)). rewrite length_app. lia.
Qed.

Lemma advance_advance (c : http_client_t) (e1 e2 : bytes) :
  in_ok c -> advance (advance c e1) e2 = advance c (e1 ++ e2).
Proof.
  intros Hok. pose proof (valid_advance c e1 Hok) as Hv.
  unfold advance at 1. rewrite Hv. unfold advance.
  cbn [c_in set_in datasize pos]. unfold set_in. cbn [req c_out pipe status c_closed handled].
  rewrite length_app, <- app_assoc. f_equal. f_equal; lia.
Qed.

Lemma feed_advance_nil (c : http_client_t) (e : bytes) :
  in_ok c -> feed (advance c []) e = feed c e.
Proof.
  intros Hok. pose proof (valid_advance c [] Hok) as Hv. rewrite app_nil_r in Hv.
  unfold feed at 1. rewrite Hv. unfold advance, feed.
  cbn [c_in set_in datasize pos length Z.of_nat]. unfold set_in.
  cbn [req c_out pipe status c_closed handled].
  f_equal. f_equal; lia.
Qed.

(** The header lines of a request, in one piece with what follows them:
    the parser goes on from the request with the headers added. *)
Lemma http_parse_header_lines cfg os (hs : list (bytes * bool)) :
  forall (c : http_client_t) (r rn : http_request_t) (rest : bytes),
    in_ok c -> at_end c -> req c = Some r -> content_len r = -1 ->
    Forall (fun h => plain_line cfg (fst h)) hs ->
    parse_headers r (map fst hs) = (0, rn) ->
    http_parse cfg os (feed c (wire hs ++ rest)) =
    http_parse cfg os (feed (set_req (advance c (wire hs)) (Some rn)) rest).
Proof.
  induction hs as [|[h t] hs IH]; intros c r rn rest Hok He Hr Hcl Hplain Hparse.
  - cbn [map parse_headers] in Hparse. inversion Hparse; subst rn.
    cbn [wire map concat app].
    change (set_req (advance c []) (Some r)) with (advance (set_req c (Some r)) []).
    rewrite feed_advance_nil by (apply in_ok_set_req; exact Hok).
    now rewrite set_req_same.
  - cbn [map fst parse_headers] in Hparse.
    destruct (parse_header r h) as [ret r1] eqn:Hph.
    pose proof (parse_header_ret r h) as Hret. rewrite Hph in Hret. cbn [fst] in Hret.
    destruct (Z.eqb_spec ret (-1)) as [->|Hne1]; [inversion Hparse|].
    destruct Hret as [->|]; [|contradiction].
    pose proof (Forall_inv Hplain) as Hh. cbn [fst] in Hh.
    pose proof (Forall_inv_tail Hplain) as Hrest.
    pose proof (http_parse_header_line cfg os c h t r r1 Hok He Hr Hcl Hh Hph) as Hline.
    destruct (in_ok_advance c (h ++ eol t) Hok He) as [Hok' He'].
    destruct (parse_header_keeps _ _ _ Hph) as (_ & Hcl1 & _).
    assert (Hw1 : waiting (feed c (h ++ eol t))
                    (set_req (advance c (h ++ eol t)) (Some r1))) by (left; discriminate).
    pose proof (http_parse_resume cfg os (wire hs ++ rest) (feed c (h ++ eol t))
                  (set_req (advance c (h ++ eol t)) (Some r1))
                  (in_ok_feed c (h ++ eol t) Hok) Hline Hw1) as Hres.
    assert (Hwire : wire ((h, t) :: hs) = (h ++ eol t) ++ wire hs) by reflexivity.
    rewrite Hwire, <- app_assoc, <- (feed_feed c (h ++ eol t) (wire hs ++ rest) Hok).
    rewrite <- Hres.
    rewrite (IH (set_req (advance c (h ++ eol t)) (Some r1)) r1 rn rest);
      try assumption; try reflexivity.
    + change (advance (set_req (advance c (h ++ eol t)) (Some r1)) (wire hs))
        with (set_req (advance (advance c (h ++ eol t)) (wire hs)) (Some r1)).
      rewrite advance_advance by exact Hok. reflexivity.
    + rewrite Hcl1. exact Hcl.
Qed.

(** A request line and a header section the parser accepts, in one piece:
    [http_parse] reaches the end of the headers with the request line and
    every header line parsed into the request and the read cursor behind
    the blank line. *)
Lemma http_parse_head cfg os (c0 : http_client_t) (rl : bytes) (t0 : bool)
      (hs : list (bytes * bool)) (tb : bool) (r0 rn : http_request_t) :
  in_ok c0 -> at_end c0 -> req c0 = None -> 0 < MAXBUF cfg ->
  plain_line cfg rl -> Forall (fun h => plain_line cfg (fst h)) hs ->
  parse_request_line (http_version cfg) (set_content_len new_request (-1)) rl = (0, r0) ->
  parse_headers r0 (map fst hs) = (0, rn) ->
  http_parse cfg os (feed c0 (head_wire rl t0 hs tb)) =
  headers_end cfg os (set_req (advance c0 (head_wire rl t0 hs tb)) (Some rn)).
Proof.
  intros Hok He Hr Hmax Hrl Hhs Hp0 Hps.
  pose proof (http_parse_request_line cfg os c0 rl t0 r0 Hok He Hr Hrl Hp0) as Hline.
  destruct (in_ok_advance c0 (rl ++ eol t0) Hok He) as [Hok1 He1].
  destruct (parse_request_line_keeps _ _ _ _ Hp0) as (_ & Hcl & _).
  set (c1 := set_req (advance c0 (rl ++ eol t0)) (Some r0)) in *.
  assert (Hw1 : waiting (feed c0 (rl ++ eol t0)) c1) by (left; discriminate).
  pose proof (http_parse_resume cfg os (wire hs ++ eol tb) (feed c0 (rl ++ eol t0)) c1
                (in_ok_feed c0 (rl ++ eol t0) Hok) Hline Hw1) as Hres.
  unfold head_wire.
  rewrite <- (feed_feed c0 (rl ++ eol t0) (wire hs ++ eol tb) Hok), <- Hres.
  assert (Hcl0 : content_len r0 = -1) by (rewrite Hcl; reflexivity).
  rewrite (http_parse_header_lines cfg os hs c1 r0 rn (eol tb)); try assumption;
    try reflexivity.
  destruct (in_ok_advance c1 (wire hs) Hok1 He1) as [Hok2 He2].
  assert (Hcln : content_len rn = -1).
  { clear - Hps Hcl0. revert r0 Hps Hcl0.
    induction (map fst hs) as [|l ls IH]; intros r0 Hps Hcl0.
    - cbn in Hps. inversion Hps; subst. exact Hcl0.
    - cbn [parse_headers] in Hps. destruct (parse_header r0 l) as [ret r1] eqn:Hph.
      pose proof (parse_header_ret r0 l) as Hret. rewrite Hph in Hret. cbn [fst] in Hret.
      destruct (Z.eqb_spec ret (-1)) as [->|Hne]; [inversion Hps|].
      destruct Hret as [->|]; [|contradiction].
      destruct (parse_header_keeps _ _ _ Hph) as (_ & Hk & _).
      apply (IH r1 Hps). rewrite Hk. exact Hcl0. }
  rewrite (http_parse_blank cfg os (set_req (advance c1 (wire hs)) (Some rn)) tb rn);
    try assumption; try reflexivity.
  f_equal.
  change (advance (set_req (advance c1 (wire hs)) (Some rn)) (eol tb))
    with (set_req (advance (advance (advance c0 (rl ++ eol t0)) (wire hs)) (eol tb)) (Some rn)).
  rewrite !advance_advance by assumption. rewrite <- app_assoc. reflexivity.
Qed.

Lemma get_is_not_head (m : bytes) :
  strcicmp m (literal "GET") = 0 -> strcicmp m (literal "HEAD") <> 0.
Proof.
  destruct m as [|x m]; [vm_compute; discriminate|].
  cbn [strcicmp literal list_ascii_of_string].
  change (code (tolower "G")) with 103. change (code (tolower "H")) with 104.
  destruct (Z.eqb_spec (code (tolower x) - 103) 0) as [H|H]; [|intros; contradiction].
  intros _. destruct (Z.eqb_spec (code (tolower x) - 104) 0); lia.
Qed.

Lemma parse_request_line_method (ver : bytes) (r r0 : http_request_t) (line : bytes) :
  parse_request_line ver r line = (0, r0) ->
  strcicmp (method r0) (literal "GET") = 0 \/
  strcicmp (method r0) (literal "HEAD") = 0 \/
  strcicmp (method r0) (literal "POST") = 0.
Proof.
  unfold parse_request_line.
  destruct (sscanf_3s line) as [[[n m] u] v].
  destruct (n <? 3); [discriminate|].
  set (q := store_opt u set_uri (store_opt m set_method r)).
  destruct (Z.eqb_spec (strcicmp (method q) (literal "GET")) 0) as [Hg|_];
    [cbn [negb andb]; destruct (negb _); [discriminate | intros [= <-]; auto]|].
  destruct (Z.eqb_spec (strcicmp (method q) (literal "HEAD")) 0) as [Hh|_];
    [cbn [negb andb]; destruct (negb _); [discriminate | intros [= <-]; auto]|].
  destruct (Z.eqb_spec (strcicmp (method q) (literal "POST")) 0) as [Hp|_];
    [cbn [negb andb]; destruct (negb _); [discriminate | intros [= <-]; auto]|].
  cbn [negb andb]. discriminate.
Qed.

Lemma parse_headers_keeps (lines : list bytes) :
  forall r rn, parse_headers r lines = (0, rn) ->
  content_len rn = content_len r /\ method rn = method r.
Proof.
  induction lines as [|l ls IH]; intros r rn Hps.
  - cbn in Hps. inversion Hps; subst. auto.
  - cbn [parse_headers] in Hps. destruct (parse_header r l) as [ret r1] eqn:Hph.
    pose proof (parse_header_ret r l) as Hret. rewrite Hph in Hret. cbn [fst] in Hret.
    destruct (Z.eqb_spec ret (-1)) as [->|Hne]; [inversion Hps|].
    destruct Hret as [->|]; [|contradiction].
    destruct (parse_header_keeps _ _ _ Hph) as (_ & Hk & Hm).
    destruct (IH r1 rn Hps) as [Hc Hm']. split; congruence.
Qed.

Lemma handle_get_req cfg os (c : http_client_t) : req (snd (handle_get cfg os c)) = req c.
Proof. unfold handle_get. now rewrite internal_handler_req. Qed.

Lemma handle_head_req cfg os (c : http_client_t) : req (snd (handle_head cfg os c)) = req c.
Proof. unfold handle_head. now rewrite internal_handler_req. Qed.

Lemma internal_handler_handled cfg os (c : http_client_t) (flag : handler) :
  handled (snd (internal_handler cfg os c flag)) = handled c.
Proof.
  unfold internal_handler. destruct (req c) as [r|]; [|reflexivity].
  destruct (open_file cfg os (uri r)) as [[code_|[[[fd size] mt] lm]] fds].
  - cbn [snd]. generalize c. induction fds as [|fd fds IH]; intros c'; [reflexivity|].
    cbn [fold_left]. now rewrite IH.
  - assert (Hf : forall c', handled (fold_left close_fd fds c') = handled c').
    { induction fds as [|x fds IH]; intros c'; [reflexivity|]. cbn [fold_left]. now rewrite IH. }
    destruct (connection_close r), flag; cbn; apply Hf.
Qed.

Lemma after_handler_fields cfg os (ret : Z) (c : http_client_t) :
  req (snd (after_handler cfg os ret c)) = None /\
  handled (snd (after_handler cfg os ret c)) = handled c /\
  c_in (snd (after_handler cfg os ret c)) = c_in c /\
  (fst (after_handler cfg os ret c) = 0 \/ fst (after_handler cfg os ret c) = -1).
Proof.
  unfold after_handler. destruct (negb (ret =? 0)).
  - cbn. auto.
  - cbn [fst snd req set_req handled c_in]. repeat split.
    destruct (req c) as [r|]; [destruct (connection_close r)|]; auto.
Qed.

(** X15: a GET or HEAD request whose request line and header lines the
    parser accepts, arriving in one piece on a connection with nothing in
    flight, reaches its handler once the blank line is read: [http_parse]
    is [handle_get], or [handle_head], on the request built from the request
    line and all the header lines, with the read cursor behind the blank
    line, followed by the code that ends the request.  The handler is
    entered once, and the request is released. *)
Theorem get_head_dispatch cfg os (c0 : http_client_t) (rl : bytes) (t0 : bool)
        (hs : list (bytes * bool)) (tb : bool) (r0 rn : http_request_t) :
  in_ok c0 -> at_end c0 -> req c0 = None -> 0 < MAXBUF cfg ->
  plain_line cfg rl -> Forall (fun h => plain_line cfg (fst h)) hs ->
  parse_request_line (http_version cfg) (set_content_len new_request (-1)) rl = (0, r0) ->
  parse_headers r0 (map fst hs) = (0, rn) ->
  strcicmp (method rn) (literal "POST") <> 0 ->
  let c := set_req (advance c0 (head_wire rl t0 hs tb)) (Some rn) in
  let get := strcicmp (method rn) (literal "GET") =? 0 in
  http_parse cfg os (feed c0 (head_wire rl t0 hs tb)) =
    (let '(ret, c') := if get then handle_get cfg os c else handle_head cfg os c in
     after_handler cfg os ret c') /\
  req (snd (http_parse cfg os (feed c0 (head_wire rl t0 hs tb)))) = None /\
  handled (snd (http_parse cfg os (feed c0 (head_wire rl t0 hs tb)))) =
    handled c0 ++ [(if get then H_GET else H_HEAD, rn)] /\
  c_in (snd (http_parse cfg os (feed c0 (head_wire rl t0 hs tb)))) = c_in c.
Proof.
  intros Hok He Hr Hmax Hrl Hhs Hp0 Hps Hnp c get.
  pose proof (http_parse_head cfg os c0 rl t0 hs tb r0 rn Hok He Hr Hmax Hrl Hhs Hp0 Hps)
    as Hhead.
  fold c in Hhead.
  destruct (parse_headers_keeps _ _ _ Hps) as [_ Hm].
  pose proof (parse_request_line_method _ _ _ _ Hp0) as Hallowed. rewrite <- Hm in Hallowed.
  assert (Hreq : req c = Some rn) by reflexivity.
  assert (Hend : headers_end cfg os c =
                 (let '(ret, c') := if get then handle_get cfg os c else handle_head cfg os c in
                  after_handler cfg os ret c')).
  { unfold headers_end, end_of_headers, method_is, get. rewrite Hreq.
    destruct (Z.eqb_spec (strcicmp (method rn) (literal "GET")) 0) as [Hg|Hng].
    - pose proof (handle_get_req cfg os c) as Hq.
      destruct (handle_get cfg os c) as [ret c2]. cbn [snd] in Hq. rewrite Hq, Hreq.
      destruct (Z.eqb_spec (strcicmp (method rn) (literal "POST")) 0) as [|_]; [contradiction|].
      destruct (Z.eqb_spec (strcicmp (method rn) (literal "HEAD")) 0) as [Hh|_].
      { now apply get_is_not_head in Hg. }
      destruct (after_handler cfg os ret c2). reflexivity.
    - rewrite Hreq.
      destruct (Z.eqb_spec (strcicmp (method rn) (literal "POST")) 0) as [|_]; [contradiction|].
      destruct (Z.eqb_spec (strcicmp (method rn) (literal "HEAD")) 0) as [_|Hnh]; [|tauto].
      destruct (handle_head cfg os c) as [ret c2].
      destruct (after_handler cfg os ret c2). reflexivity. }
  rewrite Hhead, Hend.
  split; [reflexivity|].
  assert (Hi : forall x f, c_in (snd (internal_handler cfg os x f)) = c_in x).
  { intros x f. pose proof (internal_handler_set_in cfg os x (c_in x) f) as Hs.
    rewrite set_in_same in Hs.
    destruct (internal_handler cfg os x f) as [q cq]. inversion Hs as [Hc].
    cbn [snd]. rewrite Hc at 1. reflexivity. }
  assert (Hh : handled (snd (if get then handle_get cfg os c else handle_head cfg os c)) =
               handled c0 ++ [(if get then H_GET else H_HEAD, rn)] /\
               c_in (snd (if get then handle_get cfg os c else handle_head cfg os c)) = c_in c).
  { destruct get; unfold handle_get, handle_head;
      rewrite internal_handler_handled, Hi; split; reflexivity. }
  destruct (if get then handle_get cfg os c else handle_head cfg os c) as [ret c'].
  cbn [snd] in Hh. destruct Hh as [Hhd Hin].
  destruct (after_handler_fields cfg os ret c') as (Hq & Hhd' & Hin' & _).
  rewrite Hq, Hhd', Hin', Hhd, Hin. repeat split.
Qed.

Lemma new_client_ready cfg :
  in_ok (new_client cfg) /\ at_end (new_client cfg) /\ req (new_client cfg) = None.
Proof.
  unfold in_ok, at_end, new_client, init_buf, valid. cbn [c_in req pos datasize buf].
  cbn [Z.to_nat firstn length Z.of_nat]. repeat split; lia.
Qed.

Lemma get_head_dispatch_witness :
  let rl := literal "GET /index.html HTTP/1.1" in
  let hs := [(literal "Host: liso", true)] in
  let rn := mk_request (literal "GET") (literal "/index.html")
              [mk_header (literal "Host") (literal "liso")] (-1) None in
  let c0 := new_client Ex.cfg in
  let c := set_req (advance c0 (head_wire rl true hs true)) (Some rn) in
  let get := strcicmp (method rn) (literal "GET") =? 0 in
  http_parse Ex.cfg Ex.os (feed c0 (head_wire rl true hs true)) =
    (let '(ret, c') := if get then handle_get Ex.cfg Ex.os c else handle_head Ex.cfg Ex.os c in
     after_handler Ex.cfg Ex.os ret c') /\
  req (snd (http_parse Ex.cfg Ex.os (feed c0 (head_wire rl true hs true)))) = None /\
  handled (snd (http_parse Ex.cfg Ex.os (feed c0 (head_wire rl true hs true)))) =
    handled c0 ++ [(if get then H_GET else H_HEAD, rn)] /\
  c_in (snd (http_parse Ex.cfg Ex.os (feed c0 (head_wire rl true hs true)))) = c_in c.
Proof.
  destruct (new_client_ready Ex.cfg) as (Hok & He & Hr).
  apply (get_head_dispatch Ex.cfg Ex.os (new_client Ex.cfg)
           (literal "GET /index.html HTTP/1.1") true [(literal "Host: liso", true)] true
           (mk_request (literal "GET") (literal "/index.html") [] (-1) None)
           (mk_request (literal "GET") (literal "/index.html")
              [mk_header (literal "Host") (literal "liso")] (-1) None)).
  - exact Hok.
  - exact He.
  - exact Hr.
  - reflexivity.
  - apply plain_lineb_sound. reflexivity.
  - constructor; [apply plain_lineb_sound; reflexivity | constructor].
  - vm_compute. reflexivity.
  - vm_compute. reflexivity.
  - vm_compute. discriminate.
Defined.

(** X16: a POST request must announce the length of its body.  When the
    blank line of a POST request is read and the request has no
    [Content-Length] header, [http_parse] ends the request with 411; when
    the value of the header has a character that is not a digit, with 400.
    No handler is entered. *)
Theorem post_needs_content_length cfg os (c0 : http_client_t) (rl : bytes) (t0 : bool)
        (hs : list (bytes * bool)) (tb : bool) (r0 rn : http_request_t) :
  in_ok c0 -> at_end c0 -> req c0 = None -> 0 < MAXBUF cfg ->
  plain_line cfg rl -> Forall (fun h => plain_line cfg (fst h)) hs ->
  parse_request_line (http_version cfg) (set_content_len new_request (-1)) rl = (0, r0) ->
  parse_headers r0 (map fst hs) = (0, rn) ->
  strcicmp (method rn) (literal "POST") = 0 ->
  let c := set_req (advance c0 (head_wire rl t0 hs tb)) (Some rn) in
  (get_request_header rn (literal "Content-Length") = None ->
   http_parse cfg os (feed c0 (head_wire rl t0 hs tb)) = end_request cfg os c LENGTH_REQUIRED) /\
  (forall b, get_request_header rn (literal "Content-Length") = Some b ->
             all_digits b = false ->
   http_parse cfg os (feed c0 (head_wire rl t0 hs tb)) = end_request cfg os c BAD_REQUEST) /\
  handled c = handled c0.
Proof.
  intros Hok He Hr Hmax Hrl Hhs Hp0 Hps Hpost c.
  pose proof (http_parse_head cfg os c0 rl t0 hs tb r0 rn Hok He Hr Hmax Hrl Hhs Hp0 Hps)
    as Hhead.
  fold c in Hhead. rewrite Hhead.
  assert (Hreq : req c = Some rn) by reflexivity.
  assert (Hng : (strcicmp (method rn) (literal "GET") =? 0) = false).
  { apply Z.eqb_neq. now apply post_is_not_get. }
  unfold headers_end, end_of_headers, method_is. rewrite Hreq, Hng, Hreq, Hpost.
  cbn [Z.eqb].
  split; [|split; [|reflexivity]].
  - intros ->. reflexivity.
  - intros b -> Hd.
    assert (Hb : b <> []) by (intros ->; discriminate).
    rewrite strlen_nonempty, Hd by assumption. reflexivity.
Qed.

Lemma post_needs_content_length_witness :
  let rl := literal "POST /cgi HTTP/1.1" in
  let hs := [(literal "Content-Length: 1x", true)] in
  let rn := mk_request (literal "POST") (literal "/cgi")
              [mk_header (literal "Content-Length") (literal "1x")] (-1) None in
  let c0 := new_client Ex.cfg in
  let c := set_req (advance c0 (head_wire rl true hs false)) (Some rn) in
  http_parse Ex.cfg Ex.os (feed c0 (head_wire rl true hs false)) =
    end_request Ex.cfg Ex.os c BAD_REQUEST.
Proof.
  destruct (new_client_ready Ex.cfg) as (Hok & He & Hr).
  destruct (post_needs_content_length Ex.cfg Ex.os (new_client Ex.cfg)
              (literal "POST /cgi HTTP/1.1") true [(literal "Content-Length: 1x", true)] false
              (mk_request (literal "POST") (literal "/cgi") [] (-1) None)
              (mk_request (literal "POST") (literal "/cgi")
                 [mk_header (literal "Content-Length") (literal "1x")] (-1) None))
    as (_ & Hbad & _).
  - exact Hok.
  - exact He.
  - exact Hr.
  - reflexivity.
  - apply plain_lineb_sound. reflexivity.
  - constructor; [apply plain_lineb_sound; reflexivity | constructor].
  - vm_compute. reflexivity.
  - vm_compute. reflexivity.
  - vm_compute. reflexivity.
  - apply (Hbad (literal "1x")); vm_compute; reflexivity.
Defined.

(** X17: the first line of a request.  A blank line where a request line is
    expected is consumed and nothing else happens: 0 is returned and no
    request is created.  A line [parse_request_line] rejects ends the
    request with the status [parse_request_line] returned. *)
Theorem request_line_rejected cfg os (c : http_client_t) (rl : bytes) (t : bool)
        (code_ : Z) (r0 : http_request_t) :
  in_ok c -> at_end c -> req c = None -> plain_line cfg rl ->
  (http_parse cfg os (feed c (eol t)) = (0, advance c (eol t))) /\
  (rl <> [] ->
   parse_request_line (http_version cfg) (set_content_len new_request (-1)) rl = (code_, r0) ->
   code_ <> 0 ->
   http_parse cfg os (feed c (rl ++ eol t)) =
   end_request cfg os (set_req (advance c (rl ++ eol t)) (Some r0)) code_).
Proof.
  intros Hok He Hr Hplain. split.
  - assert (Hmax : 0 < MAXBUF cfg) by (destruct Hplain as (_ & _ & _ & H); lia).
    pose proof (client_readline_line cfg c [] t Hok He (plain_line_nil cfg Hmax)) as Hread.
    cbn [app] in Hread.
    unfold http_parse. cbn [req feed set_in]. fold (feed c (eol t)). rewrite Hr, Hread.
    reflexivity.
  - intros Hne Hparse Hcode.
    pose proof (parse_request_line_ret (http_version cfg)
                  (set_content_len new_request (-1)) rl) as Hret.
    rewrite Hparse in Hret. cbn [fst] in Hret.
    unfold http_parse. cbn [req feed set_in]. fold (feed c (rl ++ eol t)). rewrite Hr.
    rewrite client_readline_line by assumption.
    rewrite strlen_nonempty by assumption.
    destruct (Z.eqb_spec (Z.of_nat (length (rl ++ eol t))) 0) as [H0|_].
    { rewrite length_app in H0. pose proof (eol_length t). lia. }
    destruct (Z.ltb_spec (Z.of_nat (length (rl ++ eol t))) 0) as [|_]; [lia|].
    rewrite Hparse.
    destruct (Z.gtb_spec code_ 0) as [_|]; [reflexivity | lia].
Qed.

Lemma request_line_rejected_witness :
  http_parse Ex.cfg Ex.os (feed (new_client Ex.cfg) (literal "PUT /x HTTP/1.1" ++ eol true)) =
  end_request Ex.cfg Ex.os
    (set_req (advance (new_client Ex.cfg) (literal "PUT /x HTTP/1.1" ++ eol true))
             (Some (mk_request (literal "PUT") (literal "/x") [] (-1) None)))
    METHOD_NOT_ALLOWED.
Proof.
  destruct (new_client_ready Ex.cfg) as (Hok & He & Hr).
  destruct (request_line_rejected Ex.cfg Ex.os (new_client Ex.cfg)
              (literal "PUT /x HTTP/1.1") true METHOD_NOT_ALLOWED
              (mk_request (literal "PUT") (literal "/x") [] (-1) None) Hok He Hr)
    as [_ Hrej].
  - apply plain_lineb_sound. reflexivity.
  - apply Hrej.
    + discriminate.
    + vm_compute. reflexivity.
    + discriminate.
Defined.

(** X18: a header line [parse_header] rejects ends the request with 400,
    whatever headers came before it. *)
Theorem header_line_rejected cfg os (c : http_client_t) (h : bytes) (t : bool)
        (r : http_request_t) :
  in_ok c -> at_end c -> req c = Some r -> content_len r = -1 -> plain_line cfg h ->
  h <> [] -> fst (parse_header r h) = -1 ->
  http_parse cfg os (feed c (h ++ eol t)) =
  end_request cfg os (advance c (h ++ eol t)) BAD_REQUEST.
Proof.
  intros Hok He Hr Hcl Hplain Hne Hparse.
  unfold http_parse. cbn [req feed set_in]. fold (feed c (h ++ eol t)). rewrite Hr.
  unfold headers_and_body at 1. rewrite header_loop_step.
  cbn [req feed set_in]. fold (feed c (h ++ eol t)). rewrite Hr, Hcl. cbn [Z.eqb Pos.eqb].
  rewrite client_readline_line by assumption.
  destruct (Z.gtb_spec (Z.of_nat (length (h ++ eol t))) 0) as [_|H0].
  2:{ rewrite length_app in H0. pose proof (eol_length t). lia. }
  rewrite strlen_nonempty by assumption.
  destruct (parse_header r h) as [ret r']. cbn [fst] in Hparse. subst ret.
  reflexivity.
Qed.

Lemma header_line_rejected_witness :
  let c := set_req (new_client Ex.cfg) (Some Ex.blank) in
  http_parse Ex.cfg Ex.os (feed c (literal "Host" ++ eol true)) =
  end_request Ex.cfg Ex.os (advance c (literal "Host" ++ eol true)) BAD_REQUEST.
Proof.
  apply (header_line_rejected Ex.cfg Ex.os (set_req (new_client Ex.cfg) (Some Ex.blank))
           (literal "Host") true Ex.blank).
  - apply in_ok_set_req, new_client_ready.
  - apply new_client_ready.
  - reflexivity.
  - reflexivity.
  - apply plain_lineb_sound. reflexivity.
  - discriminate.
  - vm_compute. reflexivity.
Defined.

(** *** The body of a POST request: examples *)

Lemma post_body_wait_then_dispatch_witness :
  let r := mk_request (literal "POST") (literal "/cgi")
             [mk_header (literal "Content-Length") (literal "5")] 5 None in
  let c := mk_client (Some r) (mk_buf (literal "hello") 5 5 0) [] None C_IDLE [] [] in
  http_parse Ex.cfg Ex.os c =
  end_request Ex.cfg Ex.os
    (enter (set_in (set_req c (Some (set_body r (Some (pos (c_in c))))))
                   (set_pos (c_in c) (pos (c_in c) + content_len r)))
           H_POST)
    NOT_IMPLEMENTED.
Proof.
  cbv zeta.
  destruct (post_body_wait_then_dispatch Ex.cfg Ex.os
              (mk_client
                 (Some (mk_request (literal "POST") (literal "/cgi")
                          [mk_header (literal "Content-Length") (literal "5")] 5 None))
                 (mk_buf (literal "hello") 5 5 0) [] None C_IDLE [] [])
              (mk_request (literal "POST") (literal "/cgi")
                 [mk_header (literal "Content-Length") (literal "5")] 5 None))
    as (_ & Hgo & _).
  - reflexivity.
  - reflexivity.
  - apply Hgo. vm_compute. discriminate.
Defined.

Lemma post_zero_length_stuck_witness :
  let r := mk_request (literal "POST") (literal "/cgi")
             [mk_header (literal "Content-Length") (literal "0")] 0 None in
  let c := mk_client (Some r) (mk_buf Ex.get_request 64 (Z.of_nat (length Ex.get_request)) 0)
             [] None C_IDLE [] [] in
  http_parse Ex.cfg Ex.os c = (0, c).
Proof.
  apply (post_zero_length_stuck Ex.cfg Ex.os
           (mk_client
              (Some (mk_request (literal "POST") (literal "/cgi")
                       [mk_header (literal "Content-Length") (literal "0")] 0 None))
              (mk_buf Ex.get_request 64 (Z.of_nat (length Ex.get_request)) 0)
              [] None C_IDLE [] [])
           (mk_request (literal "POST") (literal "/cgi")
              [mk_header (literal "Content-Length") (literal "0")] 0 None)).
  - reflexivity.
  - reflexivity.
Defined.

(** *** The local variable [ret] *)

(** X19: [http_parse] entered with a request in flight reads its local
    variable [ret] only after it has assigned it: for a request with one of
    the three methods [parse_request_line] lets through, the header loop and
    what follows it do not depend on the value [ret] starts with. *)
Theorem ret_assigned_before_read cfg os (ret ret' : Z) (c : http_client_t)
        (r : http_request_t) :
  req c = Some r ->
  method_is c "GET" || method_is c "HEAD" || method_is c "POST" = true ->
  headers_and_body cfg os ret c = headers_and_body cfg os ret' c.
Proof.
  intros Hr Hm. unfold headers_and_body.
  assert (Hloop : header_loop cfg os ret c = header_loop cfg os ret' c); [|now rewrite Hloop].
  rewrite !header_loop_step, Hr.
  destruct (content_len r =? -1); [|reflexivity].
  destruct (client_readline cfg c) as [[n line] c1] eqn:Hline.
  destruct (Z.gtb_spec n 0) as [Hn|Hn]; [|reflexivity].
  destruct (strlen line =? 0); [|reflexivity].
  destruct (client_readline_consumes cfg c c1 n line Hline ltac:(lia)) as [_ Hreq].
  assert (Hm1 : method_is c1 "GET" || method_is c1 "HEAD" || method_is c1 "POST" = true).
  { unfold method_is in *. rewrite Hreq. exact Hm. }
  clear Hm Hline. unfold end_of_headers.
  destruct (method_is c1 "GET") eqn:Hg; [reflexivity|].
  destruct (method_is c1 "POST") eqn:Hp; [reflexivity|].
  destruct (method_is c1 "HEAD") eqn:Hh; [reflexivity|].
  cbn in Hm1. discriminate.
Qed.

Lemma ret_assigned_before_read_witness :
  let c := feed (set_req (new_client Ex.cfg)
                   (Some (mk_request (literal "GET") (literal "/index.html") [] (-1) None)))
                CRLF in
  headers_and_body Ex.cfg Ex.os 0 c = headers_and_body Ex.cfg Ex.os 505 c.
Proof.
  apply (ret_assigned_before_read Ex.cfg Ex.os 0 505 _
           (mk_request (literal "GET") (literal "/index.html") [] (-1) None)).
  - reflexivity.
  - vm_compute. reflexivity.
Defined.

(** *** What [http_parse] returns *)

Lemma find_header_val (hs : list http_header_t) (k v : bytes) :
  find_header hs k = Some v -> Forall (fun h => val h <> []) hs -> v <> [].
Proof.
  induction hs as [|h hs IH]; [discriminate|]. cbn [find_header].
  intros Hf Hall. inversion Hall as [|? ? Hh Hrest]; subst.
  destruct (bytes_eqb (key h) k); [inversion Hf; subst; exact Hh | auto].
Qed.

Lemma copy_trimmed_string_nonempty (s : bytes) (i j : Z) (t : bytes) :
  0 <= i -> j < Z.of_nat (length s) -> copy_trimmed_string s i j = Some t -> t <> [].
Proof.
  intros Hi Hj. rewrite copy_trimmed_string_spec by assumption.
  destruct (trim_spaces (between s i j)); [discriminate|]. intros [= <-]. discriminate.
Qed.

Lemma parse_header_valued (r r' : http_request_t) (line : bytes) :
  parse_header r line = (0, r') ->
  Forall (fun h => val h <> []) (headers r) -> Forall (fun h => val h <> []) (headers r').
Proof.
  unfold parse_header. intros H Hall.
  destruct (strchr line ":") as [v|] eqn:Hs; [|inversion H].
  destruct (strchr_some _ _ _ Hs) as (k & rest & Hline & _ & Hv).
  destruct (_ || _); [inversion H|].
  destruct (copy_trimmed_string line 0 (v - 1)) as [kk|]; [|inversion H].
  destruct (copy_trimmed_string line (v + 1) (strlen line - 1)) as [x|] eqn:Hx; inversion H.
  cbn [headers set_headers]. constructor; [|exact Hall]. cbn [val].
  apply (copy_trimmed_string_nonempty line (v + 1) (strlen line - 1)); try assumption.
  - lia.
  - unfold strlen. lia.
Qed.

Lemma headers_valued_none (c : http_client_t) : req c = None -> headers_valued c.
Proof. unfold headers_valued. intros -> r H. discriminate. Qed.

Lemma end_of_headers_result cfg os (ret : Z) (c : http_client_t) :
  headers_valued c ->
  match end_of_headers cfg os ret c with
  | LReturn x c' => (x = 0 \/ x = -1) /\ headers_valued c'
  | LDone c' => headers_valued c'
  end.
Proof.
  intros Hv. unfold end_of_headers.
  assert (Hget : forall p : Z * http_client_t,
             req (snd p) = req c ->
             match (let '(ret0, c0) := p in
                    if method_is c0 "POST"
                    then match req c0 with
                         | None => LDone c0
                         | Some r =>
                             match get_request_header r (literal "Content-Length") with
                             | None => let '(x, c1) := end_request cfg os c0 LENGTH_REQUIRED in
                                       LReturn x c1
                             | Some b =>
                                 if strlen b =? 0 then LReturn BAD_REQUEST c0
                                 else if negb (all_digits b)
                                 then let '(x, c1) := end_request cfg os c0 BAD_REQUEST in
                                      LReturn x c1
                                 else LDone (set_req c0 (Some (set_content_len r (atoi b))))
                             end
                         end
                    else let '(ret1, c1) := if method_is c0 "HEAD" then handle_head cfg os c0
                                            else (ret0, c0) in
                         let '(x, c2) := after_handler cfg os ret1 c1 in LReturn x c2) with
             | LReturn x c' => (x = 0 \/ x = -1) /\ headers_valued c'
             | LDone c' => headers_valued c'
             end).
  { intros [ret0 c0] Hq. cbn [snd] in Hq.
    destruct (method_is c0 "POST").
    - destruct (req c0) as [r|] eqn:Hr0; [|now apply headers_valued_none].
      assert (Hall : Forall (fun h => val h <> []) (headers r)) by (apply Hv; congruence).
      destruct (get_request_header r (literal "Content-Length")) as [b|] eqn:Hb.
      + assert (Hbne : b <> []).
        { apply (find_header_val (headers r) (literal "Content-Length")); assumption. }
        rewrite strlen_nonempty by assumption.
        destruct (negb (all_digits b)).
        * cbn. split; [auto | now apply headers_valued_none].
        * unfold headers_valued. cbn [req set_req]. intros q [= <-]. exact Hall.
      + cbn. split; [auto | now apply headers_valued_none].
    - destruct (if method_is c0 "HEAD" then handle_head cfg os c0 else (ret0, c0)) as [ret1 c1].
      destruct (after_handler_fields cfg os ret1 c1) as (Hnone & _ & _ & Hres).
      destruct (after_handler cfg os ret1 c1) as [x c2].
      split; [exact Hres | now apply headers_valued_none]. }
  apply Hget.
  destruct (method_is c "GET"); [apply handle_get_req | reflexivity].
Qed.

Lemma header_loop_result cfg os (ret : Z) (c : http_client_t) :
  headers_valued c ->
  match header_loop cfg os ret c with
  | LReturn x c' => (x = 0 \/ x = -1) /\ headers_valued c'
  | LDone c' => headers_valued c'
  end.
Proof.
  revert ret. pattern c. apply unread_induction. clear c. intros c IH ret Hv.
  rewrite header_loop_step.
  destruct (req c) as [r|] eqn:Hr; [|exact Hv].
  destruct (content_len r =? -1); [|exact Hv].
  destruct (client_readline cfg c) as [[n line] c1] eqn:Hline.
  destruct (Z.gtb_spec n 0) as [Hn|Hn].
  2:{ destruct (client_readline_zero cfg c c1 n line Hline Hn) as [-> _]. exact Hv. }
  destruct (client_readline_consumes cfg c c1 n line Hline ltac:(lia)) as [Hlt Hreq].
  assert (Hv1 : headers_valued c1) by (unfold headers_valued in *; rewrite Hreq; exact Hv).
  destruct (strlen line =? 0).
  - apply end_of_headers_result. exact Hv1.
  - destruct (parse_header r line) as [ret' r'] eqn:Hph.
    pose proof (parse_header_ret r line) as Hret. rewrite Hph in Hret. cbn [fst] in Hret.
    destruct (Z.eqb_spec ret' (-1)) as [->|Hne].
    { cbn. split; [auto | now apply headers_valued_none]. }
    destruct Hret as [->|]; [|contradiction].
    apply IH.
    + rewrite unread_len_set_req. exact Hlt.
    + unfold headers_valued. cbn [req set_req]. intros q [= <-].
      apply (parse_header_valued r r' line Hph). apply Hv. exact Hr.
Qed.

Lemma body_phase_result cfg os (c : http_client_t) :
  headers_valued c ->
  (fst (body_phase cfg os c) = 0 \/ fst (body_phase cfg os c) = -1) /\
  headers_valued (snd (body_phase cfg os c)).
Proof.
  intros Hv. unfold body_phase. destruct (req c) as [r|]; [|auto].
  destruct (content_len r >? 0); [|auto].
  destruct (_ >=? _); [|auto].
  unfold handle_post.
  match goal with |- context [after_handler cfg os ?x ?y] =>
    destruct (after_handler_fields cfg os x y) as (Hnone & _ & _ & Hres) end.
  split; [exact Hres | now apply headers_valued_none].
Qed.

Lemma headers_and_body_result cfg os (ret : Z) (c : http_client_t) :
  headers_valued c ->
  (fst (headers_and_body cfg os ret c) = 0 \/ fst (headers_and_body cfg os ret c) = -1) /\
  headers_valued (snd (headers_and_body cfg os ret c)).
Proof.
  intros Hv. unfold headers_and_body.
  pose proof (header_loop_result cfg os ret c Hv) as H.
  destruct (header_loop cfg os ret c) as [x cx|cd]; [exact H | now apply body_phase_result].
Qed.

(** X20: [http_parse] keeps to its contract, 0 for a connection to keep and
    -1 for one to close, with [end_request] returning -1.  The one
    [return] of a status code, [return BAD_REQUEST] for an empty
    [Content-Length] value, is never taken: [parse_header] stores no empty
    value, so that a request in flight never holds one, from one call of
    [http_parse] to the next. *)
Theorem http_parse_returns cfg os (c : http_client_t) :
  headers_valued c ->
  (fst (http_parse cfg os c) = 0 \/ fst (http_parse cfg os c) = -1) /\
  headers_valued (snd (http_parse cfg os c)).
Proof.
  intros Hv. unfold http_parse.
  destruct (req c) as [r|] eqn:Hr; [apply headers_and_body_result; exact Hv|].
  destruct (client_readline cfg c) as [[n line] c1] eqn:Hline.
  assert (Hreq1 : req c1 = None).
  { revert Hline. unfold client_readline. destruct (find_lf _); [|intros [= _ _ <-]; exact Hr].
    destruct (_ <=? _); intros [= _ _ <-]; exact Hr. }
  destruct (strlen line =? 0); [split; [auto | now apply headers_valued_none]|].
  destruct (n =? 0).
  { split; [auto|]. unfold headers_valued. cbn [snd req set_req]. intros q [= <-]. constructor. }
  destruct (n <? 0).
  { split; [right; apply end_request_ret | now apply headers_valued_none]. }
  destruct (parse_request_line (http_version cfg) (set_content_len new_request (-1)) line)
    as [ret r0] eqn:Hp.
  destruct (ret >? 0).
  { split; [right; apply end_request_ret | now apply headers_valued_none]. }
  apply headers_and_body_result.
  unfold headers_valued. cbn [req set_req]. intros q [= <-].
  assert (Hh : headers r0 = []).
  { revert Hp. unfold parse_request_line.
    destruct (sscanf_3s line) as [[[k m] u] v].
    assert (Hk : headers (store_opt u set_uri
                            (store_opt m set_method (set_content_len new_request (-1)))) = []).
    { destruct u, m; reflexivity. }
    destruct (k <? 3); [intros [= _ <-]; exact Hk|].
    destruct (_ && _); [intros [= _ <-]; exact Hk|].
    destruct (negb _); intros [= _ <-]; exact Hk. }
  rewrite Hh. constructor.
Qed.

Lemma http_parse_returns_witness :
  let c := feed (new_client Ex.cfg)
             (literal "POST /cgi HTTP/1.1" ++ CRLF ++ literal "Content-Length: x" ++ CRLF ++ CRLF) in
  (fst (http_parse Ex.cfg Ex.os c) = 0 \/ fst (http_parse Ex.cfg Ex.os c) = -1) /\
  headers_valued (snd (http_parse Ex.cfg Ex.os c)).
Proof.
  apply http_parse_returns.
  unfold headers_valued. cbn [req feed set_in new_client]. discriminate.
Defined.

(** *** The read cursor *)

Lemma cursor_forward_refl (b : buf_t) : pos b <= datasize b -> cursor_forward b b.
Proof. intros H. split; [apply same_block_refl | lia]. Qed.

Lemma cursor_forward_trans (b1 b2 b3 : buf_t) :
  cursor_forward b1 b2 -> cursor_forward b2 b3 -> cursor_forward b1 b3.
Proof.
  intros [Hb1 Hp1] [Hb2 Hp2]. split; [eapply same_block_trans; eassumption|].
  destruct Hb2 as (_ & _ & Hd). lia.
Qed.

Lemma cursor_forward_same (b b' : buf_t) :
  b' = b -> pos b <= datasize b -> cursor_forward b b'.
Proof. intros ->. apply cursor_forward_refl. Qed.

Lemma client_readline_forward cfg (c c1 : http_client_t) (n : Z) (line : bytes) :
  client_readline cfg c = (n, line, c1) -> 0 <= pos (c_in c) <= datasize (c_in c) ->
  cursor_forward (c_in c) (c_in c1).
Proof.
  unfold client_readline. intros H Hp.
  destruct (find_lf _) as [i|] eqn:Hi.
  2:{ inversion H; subst. apply cursor_forward_refl. lia. }
  destruct (_ <=? _).
  { inversion H; subst. apply cursor_forward_refl. lia. }
  inversion H; subst. clear H.
  apply find_lf_bound in Hi. unfold valid in Hi.
  rewrite length_skipn, length_firstn in Hi.
  split; [unfold same_block; auto|].
  cbn [c_in set_in set_pos pos datasize]. lia.
Qed.

Lemma end_request_in cfg os (c : http_client_t) (code_ : Z) :
  c_in (snd (end_request cfg os c code_)) = c_in c.
Proof. reflexivity. Qed.

Lemma header_loop_forward cfg os (ret : Z) (c : http_client_t) :
  0 <= pos (c_in c) <= datasize (c_in c) ->
  cursor_forward (c_in c) (c_in (exit_client (header_loop cfg os ret c))).
Proof.
  revert ret. pattern c. apply unread_induction. clear c. intros c IH ret Hp.
  rewrite header_loop_step.
  destruct (req c) as [r|]; [|cbn [exit_client snd]; apply cursor_forward_refl; lia].
  destruct (content_len r =? -1); [|cbn [exit_client snd]; apply cursor_forward_refl; lia].
  destruct (client_readline cfg c) as [[n line] c1] eqn:Hline.
  pose proof (client_readline_forward cfg c c1 n line Hline Hp) as Hf.
  destruct (Z.gtb_spec n 0) as [Hn|Hn]; [|exact Hf].
  destruct (strlen line =? 0).
  - rewrite end_of_headers_exit_in. exact Hf.
  - destruct (parse_header r line) as [ret' r'].
    destruct (ret' =? -1); [exact Hf|].
    eapply cursor_forward_trans; [exact Hf|].
    apply (IH (set_req c1 (Some r'))).
    + rewrite unread_len_set_req.
      apply (client_readline_consumes cfg c c1 n line Hline). lia.
    + cbn [c_in set_req]. destruct Hf as [(_ & _ & Hd) Hq]. lia.
Qed.

Lemma body_phase_forward cfg os (c : http_client_t) :
  0 <= pos (c_in c) <= datasize (c_in c) ->
  cursor_forward (c_in c) (c_in (snd (body_phase cfg os c))).
Proof.
  intros Hp. unfold body_phase. destruct (req c) as [r|]; [|cbn [exit_client snd]; apply cursor_forward_refl; lia].
  destruct (Z.gtb_spec (content_len r) 0); [|cbn [exit_client snd]; apply cursor_forward_refl; lia].
  destruct (Z.geb_spec (datasize (c_in c) - pos (c_in c)) (content_len r));
    [|cbn [exit_client snd]; apply cursor_forward_refl; lia].
  unfold handle_post. rewrite after_handler_in.
  split; [unfold same_block; auto|].
  cbn [c_in enter set_in set_req set_pos pos datasize content_len set_body]. lia.
Qed.

(** X21: [http_parse] never writes to the input buffer and never reads past
    the bytes received: block, capacity and [datasize] are left as they
    are, and the read cursor only moves forward, staying within
    [datasize]. *)
Theorem http_parse_cursor cfg os (c : http_client_t) :
  0 <= pos (c_in c) <= datasize (c_in c) ->
  cursor_forward (c_in c) (c_in (snd (http_parse cfg os c))).
Proof.
  intros Hp.
  assert (Hhb : forall ret c1, 0 <= pos (c_in c1) <= datasize (c_in c1) ->
                cursor_forward (c_in c1) (c_in (snd (headers_and_body cfg os ret c1)))).
  { intros ret c1 Hp1. unfold headers_and_body.
    pose proof (header_loop_forward cfg os ret c1 Hp1) as H.
    destruct (header_loop cfg os ret c1) as [x cx|cd]; cbn [exit_client snd] in *; [exact H|].
    eapply cursor_forward_trans; [exact H|]. apply body_phase_forward.
    destruct H as [(_ & _ & Hd) Hq]. lia. }
  unfold http_parse. destruct (req c) as [r|]; [apply Hhb; exact Hp|].
  destruct (client_readline cfg c) as [[n line] c1] eqn:Hline.
  pose proof (client_readline_forward cfg c c1 n line Hline Hp) as Hf.
  destruct (strlen line =? 0); [exact Hf|].
  destruct (n =? 0); [exact Hf|].
  destruct (n <? 0); [exact Hf|].
  destruct (parse_request_line _ _ line) as [ret r0].
  destruct (ret >? 0); [exact Hf|].
  eapply cursor_forward_trans; [exact Hf|].
  apply (Hhb ret (set_req (set_req c1 (Some (set_content_len new_request (-1)))) (Some r0))).
  cbn [c_in set_req]. destruct Hf as [(_ & _ & Hd) Hq]. lia.
Qed.

Lemma http_parse_cursor_witness :
  cursor_forward (c_in (feed (new_client Ex.cfg) Ex.get_request))
    (c_in (snd (http_parse Ex.cfg Ex.os (feed (new_client Ex.cfg) Ex.get_request)))).
Proof.
  apply http_parse_cursor. vm_compute. split; discriminate.
Defined.

(** *** Trimming *)

Lemma drop_spaces_split (l : bytes) :
  exists a, l = a ++ drop_spaces l /\ spaces a /\ is_sp (hd "x"%char (drop_spaces l)) = false.
Proof.
  induction l as [|x l (a & Hl & Ha & Hh)].
  - exists []. repeat split.
  - cbn [drop_spaces]. destruct (is_sp x) eqn:Hx.
    + exists (x :: a). cbn [app]. split; [now rewrite <- Hl|]. split; [|exact Hh].
      unfold spaces in *. cbn [forallb]. now rewrite Hx, Ha.
    + exists []. cbn [app hd]. repeat split. exact Hx.
Qed.

Lemma spaces_rev (l : bytes) : spaces l -> spaces (rev l).
Proof.
  unfold spaces. rewrite !forallb_forall. intros H x Hin. apply H. now apply in_rev.
Qed.

Lemma spaces_app (a b : bytes) : spaces a -> spaces b -> spaces (a ++ b).
Proof. unfold spaces. intros Ha Hb. now rewrite forallb_app, Ha, Hb. Qed.

Lemma hd_app_nonempty (d : ascii) (t b : bytes) : t <> [] -> hd d (t ++ b) = hd d t.
Proof. destruct t; [congruence | reflexivity]. Qed.

Lemma last_rev_hd (d : ascii) (l : bytes) : last (rev l) d = hd d l.
Proof.
  destruct l as [|x l]; [reflexivity|]. cbn [rev hd]. apply last_last.
Qed.

(** What [trim_spaces] leaves out, and what it leaves. *)
Lemma trim_spaces_split (l : bytes) :
  exists a b, l = a ++ trim_spaces l ++ b /\ spaces a /\ spaces b /\
              (trim_spaces l <> [] ->
               is_sp (hd "x"%char (trim_spaces l)) = false /\
               is_sp (last (trim_spaces l) "x"%char) = false).
Proof.
  unfold trim_spaces.
  destruct (drop_spaces_split l) as (a & Hl & Ha & Hh).
  destruct (drop_spaces_split (rev (drop_spaces l))) as (b & Hr & Hb & Hh').
  set (m := drop_spaces l) in *. set (t := drop_spaces (rev m)) in *.
  assert (Hm : m = rev t ++ rev b).
  { rewrite <- (rev_involutive m), Hr, rev_app_distr. reflexivity. }
  exists a, (rev b). split; [now rewrite <- Hm|].
  split; [exact Ha|]. split; [now apply spaces_rev|].
  intros Hne. split.
  - rewrite Hm in Hh. now rewrite hd_app_nonempty in Hh.
  - rewrite last_rev_hd. exact Hh'.
Qed.

(** X22: [copy_trimmed_string] on the characters from [head] to [tail]
    returns NULL exactly when they are all spaces (or there is none); the
    copy it returns otherwise is what lies between the leading and the
    trailing spaces: it is not empty and neither starts nor ends with a
    space.  Only the space character is trimmed. *)
Theorem copy_trimmed_string_result (s : bytes) (i j : Z) :
  0 <= i -> j < Z.of_nat (length s) ->
  match copy_trimmed_string s i j with
  | None => spaces (between s i j)
  | Some t =>
      exists a b, between s i j = a ++ t ++ b /\ spaces a /\ spaces b /\
                  t <> [] /\ is_sp (hd "x"%char t) = false /\
                  is_sp (last t "x"%char) = false
  end.
Proof.
  intros Hi Hj. rewrite copy_trimmed_string_spec by assumption.
  destruct (trim_spaces_split (between s i j)) as (a & b & Hl & Ha & Hb & Hends).
  destruct (trim_spaces (between s i j)) as [|x t] eqn:Ht.
  - rewrite Hl. cbn [app]. now apply spaces_app.
  - exists a, b. destruct Hends as [H1 H2]; [discriminate|].
    repeat split; try assumption. discriminate.
Qed.

Lemma copy_trimmed_string_result_witness :
  exists a b, between (literal "Host:  a b  ") 5 11 = a ++ literal "a b" ++ b /\
              spaces a /\ spaces b /\
              literal "a b" <> [] /\ is_sp (hd "x"%char (literal "a b")) = false /\
              is_sp (last (literal "a b") "x"%char) = false.
Proof.
  exact (copy_trimmed_string_result (literal "Host:  a b  ") 5 11
           ltac:(lia) ltac:(vm_compute; reflexivity)).
Defined.

(** *** One request for each call *)

Lemma handler_enters cfg os (c : http_client_t) (h : handler) (s : client_status) :
  handled (snd (internal_handler cfg os (set_status (enter c h) s) h)) =
  handled c ++ match req c with Some r => [(h, r)] | None => [] end.
Proof. rewrite internal_handler_handled. reflexivity. Qed.

Lemma client_readline_handled cfg (c c1 : http_client_t) (n : Z) (line : bytes) :
  client_readline cfg c = (n, line, c1) -> handled c1 = handled c.
Proof.
  unfold client_readline. destruct (find_lf _); [|intros [= _ _ <-]; reflexivity].
  destruct (_ <=? _); intros [= _ _ <-]; reflexivity.
Qed.

Lemma end_of_headers_enters cfg os (ret : Z) (c : http_client_t) :
  match end_of_headers cfg os ret c with
  | LReturn _ c' => entered_at_most_once c c'
  | LDone c' => handled c' = handled c
  end.
Proof.
  unfold end_of_headers, entered_at_most_once.
  destruct (method_is c "GET") eqn:Hg.
  - unfold method_is in Hg. destruct (req c) as [r|] eqn:Hr; [|discriminate].
    apply Z.eqb_eq in Hg.
    pose proof (handle_get_req cfg os c) as Hq.
    pose proof (handler_enters cfg os c H_GET C_PIPING) as Hh. fold (handle_get cfg os c) in Hh.
    rewrite Hr in Hh.
    destruct (handle_get cfg os c) as [ret1 c1]. cbn [snd] in Hq, Hh.
    unfold method_is. rewrite Hq, Hr.
    destruct (Z.eqb_spec (strcicmp (method r) (literal "POST")) 0) as [Hp|_].
    { now apply post_is_not_get in Hp. }
    destruct (Z.eqb_spec (strcicmp (method r) (literal "HEAD")) 0) as [Hd|_].
    { now apply get_is_not_head in Hg. }
    destruct (after_handler_fields cfg os ret1 c1) as (_ & Hk & _).
    destruct (after_handler cfg os ret1 c1) as [x c2]. cbn [snd] in Hk.
    right. exists H_GET, r. congruence.
  - destruct (method_is c "POST") eqn:Hp.
    + destruct (req c) as [r|]; [|reflexivity].
      destruct (get_request_header r (literal "Content-Length")) as [b|]; [|left; reflexivity].
      destruct (strlen b =? 0); [left; reflexivity|].
      destruct (negb (all_digits b)); [left|]; reflexivity.
    + destruct (method_is c "HEAD") eqn:Hd.
      * unfold method_is in Hd. destruct (req c) as [r|] eqn:Hr; [|discriminate].
        pose proof (handler_enters cfg os c H_HEAD C_IDLE) as Hh.
        fold (handle_head cfg os c) in Hh. rewrite Hr in Hh.
        destruct (handle_head cfg os c) as [ret1 c1]. cbn [snd] in Hh.
        destruct (after_handler_fields cfg os ret1 c1) as (_ & Hk & _).
        destruct (after_handler cfg os ret1 c1) as [x c2]. cbn [snd] in Hk.
        right. exists H_HEAD, r. congruence.
      * destruct (after_handler_fields cfg os ret c) as (_ & Hk & _).
        destruct (after_handler cfg os ret c) as [x c2]. cbn [snd] in Hk.
        left. exact Hk.
Qed.

Lemma header_loop_enters cfg os (ret : Z) (c : http_client_t) :
  match header_loop cfg os ret c with
  | LReturn _ c' => entered_at_most_once c c'
  | LDone c' => handled c' = handled c
  end.
Proof.
  revert ret. pattern c. apply unread_induction. clear c. intros c IH ret.
  rewrite header_loop_step.
  destruct (req c) as [r|] eqn:Hr; [|reflexivity].
  destruct (content_len r =? -1); [|reflexivity].
  destruct (client_readline cfg c) as [[n line] c1] eqn:Hline.
  pose proof (client_readline_handled cfg c c1 n line Hline) as Hh.
  destruct (Z.gtb_spec n 0) as [Hn|Hn]; [|exact Hh].
  destruct (strlen line =? 0).
  - pose proof (end_of_headers_enters cfg os ret c1) as He.
    unfold entered_at_most_once in *. rewrite Hh in He. exact He.
  - destruct (parse_header r line) as [ret' r'].
    destruct (ret' =? -1); [left; exact Hh|].
    assert (Hlt : (unread_len (set_req c1 (Some r')) < unread_len c)%nat).
    { rewrite unread_len_set_req.
      apply (client_readline_consumes cfg c c1 n line Hline). lia. }
    pose proof (IH (set_req c1 (Some r')) Hlt ret') as H.
    unfold entered_at_most_once in *. cbn [handled set_req] in H. rewrite Hh in H. exact H.
Qed.

Lemma body_phase_enters cfg os (c : http_client_t) :
  entered_at_most_once c (snd (body_phase cfg os c)).
Proof.
  unfold body_phase, entered_at_most_once.
  destruct (req c) as [r|] eqn:Hr; [|left; reflexivity].
  destruct (content_len r >? 0); [|left; reflexivity].
  destruct (_ >=? _); [|left; reflexivity].
  unfold handle_post.
  match goal with |- context [after_handler cfg os ?x ?y] =>
    destruct (after_handler_fields cfg os x y) as (_ & Hk & _); rewrite Hk end.
  right. eexists. eexists. reflexivity.
Qed.

Lemma headers_and_body_enters cfg os (ret : Z) (c : http_client_t) :
  entered_at_most_once c (snd (headers_and_body cfg os ret c)).
Proof.
  unfold headers_and_body. pose proof (header_loop_enters cfg os ret c) as H.
  destruct (header_loop cfg os ret c) as [x cx|cd]; [exact H|].
  pose proof (body_phase_enters cfg os cd) as Hb.
  unfold entered_at_most_once in *. rewrite H in Hb. exact Hb.
Qed.

(** X26: one call of [http_parse] enters at most one handler: it serves at
    most one request and returns, whatever else the input buffer holds. *)
Theorem http_parse_one_request cfg os (c : http_client_t) :
  entered_at_most_once c (snd (http_parse cfg os c)).
Proof.
  unfold http_parse.
  destruct (req c) as [r|]; [apply headers_and_body_enters|].
  destruct (client_readline cfg c) as [[n line] c1] eqn:Hline.
  pose proof (client_readline_handled cfg c c1 n line Hline) as Hh.
  destruct (strlen line =? 0); [left; exact Hh|].
  destruct (n =? 0); [left; exact Hh|].
  destruct (n <? 0); [left; exact Hh|].
  destruct (parse_request_line _ _ line) as [ret r0].
  destruct (ret >? 0); [left; exact Hh|].
  pose proof (headers_and_body_enters cfg os ret
                (set_req (set_req c1 (Some (set_content_len new_request (-1)))) (Some r0))) as H.
  unfold entered_at_most_once in *. cbn [handled set_req] in H. rewrite Hh in H. exact H.
Qed.

(** *** A POST request in one piece *)

(** X27: a POST request whose request line and header lines the parser
    accepts and whose [Content-Length] is the length [n > 0] of its body,
    arriving in one piece, with or without bytes after the body: the body
    is the view of the input buffer behind the blank line, the read cursor
    is moved behind the body and no further, [handle_post] is entered, and
    the request is ended with 501. *)
Theorem post_dispatch cfg os (c0 : http_client_t) (rl : bytes) (t0 : bool)
        (hs : list (bytes * bool)) (tb : bool) (r0 rn : http_request_t)
        (b body_ more : bytes) :
  in_ok c0 -> at_end c0 -> req c0 = None -> 0 < MAXBUF cfg ->
  plain_line cfg rl -> Forall (fun h => plain_line cfg (fst h)) hs ->
  parse_request_line (http_version cfg) (set_content_len new_request (-1)) rl = (0, r0) ->
  parse_headers r0 (map fst hs) = (0, rn) ->
  strcicmp (method rn) (literal "POST") = 0 ->
  get_request_header rn (literal "Content-Length") = Some b ->
  all_digits b = true -> atoi b = Z.of_nat (length body_) -> body_ <> [] ->
  let head := head_wire rl t0 hs tb in
  let r := set_content_len rn (atoi b) in
  let c := feed (set_req (advance c0 head) (Some r)) (body_ ++ more) in
  http_parse cfg os (feed c0 (head ++ body_ ++ more)) =
  end_request cfg os
    (enter (set_in (set_req c (Some (set_body r (Some (pos (c_in c0) + Z.of_nat (length head))))))
                   (set_pos (c_in c)
                      (pos (c_in c0) + Z.of_nat (length head) + Z.of_nat (length body_))))
           H_POST)
    NOT_IMPLEMENTED.
Proof.
  intros Hok He Hr Hmax Hrl Hhs Hp0 Hps Hpost Hget Hdig Hlen Hbody head r c.
  assert (Hn : 0 < atoi b).
  { rewrite Hlen. destruct body_; [congruence | cbn [length]; lia]. }
  assert (Hb : b <> []) by (intros ->; cbn in Hn; lia).
  pose proof (http_parse_head cfg os c0 rl t0 hs tb r0 rn Hok He Hr Hmax Hrl Hhs Hp0 Hps)
    as Hhead.
  fold head in Hhead.
  destruct (in_ok_advance c0 head Hok He) as [Hok1 He1].
  set (c1 := set_req (advance c0 head) (Some r)) in *.
  assert (Hend : headers_end cfg os (set_req (advance c0 head) (Some rn)) = (0, c1)).
  { unfold headers_end, end_of_headers, method_is. cbn [req set_req].
    destruct (Z.eqb_spec (strcicmp (method rn) (literal "GET")) 0) as [Hg|_].
    { now apply post_is_not_get in Hpost. }
    cbn [req set_req]. rewrite Hpost. cbn [Z.eqb].
    rewrite Hget, strlen_nonempty, Hdig by assumption. cbn [negb].
    change (set_req (set_req (advance c0 head) (Some rn)) (Some (set_content_len rn (atoi b))))
      with c1.
    unfold body_phase. cbn [req c1 set_req r content_len set_content_len].
    destruct (Z.gtb_spec (atoi b) 0) as [_|]; [|lia].
    assert (He1' : pos (c_in c1) = datasize (c_in c1)) by exact He1.
    destruct (Z.geb_spec (datasize (c_in c1) - pos (c_in c1)) (atoi b)); [lia | reflexivity]. }
  rewrite Hend in Hhead.
  assert (Hw1 : waiting (feed c0 head) c1) by (left; discriminate).
  pose proof (http_parse_resume cfg os (body_ ++ more) (feed c0 head) c1
                (in_ok_feed c0 head Hok) Hhead Hw1) as Hres.
  rewrite feed_feed in Hres by exact Hok.
  rewrite <- Hres. fold c.
  assert (Hreq : req c = Some r) by reflexivity.
  rewrite (http_parse_body cfg os c r Hreq) by (cbn [r content_len set_content_len]; lia).
  unfold body_phase. rewrite Hreq. cbn [r content_len set_content_len].
  destruct (Z.gtb_spec (atoi b) 0) as [_|]; [|lia].
  assert (Hpos : pos (c_in c) = pos (c_in c0) + Z.of_nat (length head)) by reflexivity.
  assert (Hdat : datasize (c_in c) =
                 datasize (c_in c0) + Z.of_nat (length head) + Z.of_nat (length (body_ ++ more)))
    by reflexivity.
  unfold at_end in He.
  destruct (Z.geb_spec (datasize (c_in c) - pos (c_in c)) (atoi b)) as [_|Hshort].
  2:{ rewrite Hdat, Hpos, length_app in Hshort. lia. }
  unfold handle_post, after_handler.
  cbn [negb NOT_IMPLEMENTED Z.eqb].
  assert (Hcl : forall x, content_len (set_body r x) = Z.of_nat (length body_))
    by (intros x; exact Hlen).
  cbn [c_in set_req]. rewrite Hcl, Hpos. reflexivity.
Qed.

Lemma post_dispatch_witness :
  let rl := literal "POST /cgi HTTP/1.1" in
  let hs := [(literal "Content-Length: 5", true)] in
  let head := head_wire rl true hs true in
  let r := mk_request (literal "POST") (literal "/cgi")
             [mk_header (literal "Content-Length") (literal "5")] 5 None in
  let c0 := new_client Ex.cfg in
  let c := feed (set_req (advance c0 head) (Some r)) (literal "hello" ++ literal "GET") in
  http_parse Ex.cfg Ex.os (feed c0 (head ++ literal "hello" ++ literal "GET")) =
  end_request Ex.cfg Ex.os
    (enter (set_in (set_req c (Some (set_body r (Some (pos (c_in c0) + Z.of_nat (length head))))))
                   (set_pos (c_in c)
                      (pos (c_in c0) + Z.of_nat (length head) + Z.of_nat (length (literal "hello")))))
           H_POST)
    NOT_IMPLEMENTED.
Proof.
  destruct (new_client_ready Ex.cfg) as (Hok & He & Hr).
  apply (post_dispatch Ex.cfg Ex.os (new_client Ex.cfg)
           (literal "POST /cgi HTTP/1.1") true [(literal "Content-Length: 5", true)] true
           (mk_request (literal "POST") (literal "/cgi") [] (-1) None)
           (mk_request (literal "POST") (literal "/cgi")
              [mk_header (literal "Content-Length") (literal "5")] (-1) None)
           (literal "5") (literal "hello") (literal "GET")).
  - exact Hok.
  - exact He.
  - exact Hr.
  - reflexivity.
  - apply plain_lineb_sound. reflexivity.
  - constructor; [apply plain_lineb_sound; reflexivity | constructor].
  - vm_compute. reflexivity.
  - vm_compute. reflexivity.
  - vm_compute. reflexivity.
  - vm_compute. reflexivity.
  - reflexivity.
  - reflexivity.
  - discriminate.
Defined.
